(** * pycheops.models: flux kernels and depth-scale estimators

    A shallow embedding of the numerical core of [pycheops/models.py]:
    the element-wise kernels [qpower2] and [ueclipse], the estimators
    [scaled_transit_fit] and [minerr_transit_fit], and the functions of
    the transit, eclipse and factor models.

    NumPy's [float64] is IEEE 754 binary64, which is what Rocq's primitive
    [float] implements, so every arithmetic operation of the source is
    embedded as the corresponding primitive operation and the definitions
    run on concrete inputs.

    Division depends on who divides.  [qpower2], [ueclipse] and
    [scaled_transit_fit] are compiled by numba ([@jit(nopython=True)], with
    its default error model): a division of two scalars raises
    [ZeroDivisionError] when the divisor is zero, which is [checked_div]
    here; a division of arrays and every division of plain NumPy is IEEE
    division, which gives an infinity or a not-a-number and raises nothing.
    [ueclipse] is written with plain divisions: it divides only in the
    branch [abs(zt-1) < k], behind the check of [k > 1], where its divisors
    are not zero.

    The transcendental functions of the C library ([np.arccos], [np.log],
    [np.exp], and [**] with a real exponent), the reduction [np.sum] of
    plain NumPy (whose order of additions is NumPy's own) and the SciPy
    optimizers ([brent], [brentq]) are interfaces of the embedding. *)

From Stdlib Require Import ZArith Floats String Lia Bool.
From Stdlib Require Uint63.
From stdpp Require Import base list.

Set Default Proof Using "Type".
Set Warnings "-inexact-float".

(** ** Python values, errors and results *)

Inductive exn : Type :=
  | ValueError (msg : string)
  | ZeroDivisionError (msg : string).

Inductive result (A : Type) : Type :=
  | Ok (a : A)
  | Raise (e : exn).
Arguments Ok {A} a.
Arguments Raise {A} e.

Definition rbind {A B} (r : result A) (f : A -> result B) : result B :=
  match r with
  | Ok a => f a
  | Raise e => Raise e
  end.

Notation "'let*' x ':=' r 'in' k" := (rbind r (fun x => k))
  (at level 10, x name, r at level 100, k at level 200).

(** [x / y] for two scalars in a function compiled by numba. *)
Definition division_by_zero : exn := ZeroDivisionError "division by zero".

Definition checked_div (x y : float) : result float :=
  if (y =? 0)%float then Raise division_by_zero else Ok (x / y)%float.

(** ** The numerical library interface *)

Class MathLib : Type := {
  arccos : float -> float;           (* np.arccos *)
  power : float -> float -> float;   (* x ** y, y a float64 *)
  log : float -> float;              (* np.log *)
  exp : float -> float;              (* np.exp *)
  np_sum : list float -> float       (* np.sum of plain NumPy *)
}.

Module Np.

Open Scope float_scope.

(** [np.pi], the binary64 nearest to pi. *)
Definition pi : float := 0x1.921fb54442d18p+1.

(** [np.finfo(0.0).eps], that is [2**-52]. *)
Definition eps : float := 0x1p-52.

(** [x ** n] for a literal integer exponent [n >= 1]: the square-and-multiply
    loop [r = 1; while n: (if n & 1: r *= a); n >>= 1; a *= a], which for
    [n = 2] is the product [x * x]. *)
Fixpoint pow_loop (a : float) (n : positive) (r : float) : float :=
  match n with
  | xH => r * a
  | xO n' => pow_loop (a * a) n' r
  | xI n' => pow_loop (a * a) n' (r * a)
  end.

Definition powi (x : float) (n : positive) : float := pow_loop x n 1.

(** The builtins [max(a, b)] and [min(a, b)] on two floats: the first
    argument is kept unless the second one compares strictly beyond it. *)
Definition py_max (a b : float) : float := if a <? b then b else a.
Definition py_min (a b : float) : float := if b <? a then b else a.

(** [float(n)] for a Python integer [n] that fits a machine word. *)
Definition of_nat (n : nat) : float :=
  PrimFloat.of_uint63 (Uint63.of_Z (Z.of_nat n)).

(** [np.ones_like(z)] and [np.full_like(z, v)] *)
Definition full_like (z : list float) (v : float) : list float :=
  replicate (length z) v.
Definition ones_like (z : list float) : list float := full_like z 1.

(** [np.sum] over a one-dimensional array as numba compiles it:
    accumulation from [0.0], left to right.  (The reduction of plain NumPy
    adds in another order and is not this function: see [np_sum].) *)
Definition sum (xs : list float) : float := fold_left PrimFloat.add xs 0.

(** [np.min] over a one-dimensional array: a not-a-number entry
    propagates; the empty array has no minimum. *)
Definition minimum (x y : float) : float :=
  if is_nan x then x else if is_nan y then y
  else if y <? x then y else x.

Definition min (xs : list float) : result float :=
  match xs with
  | [] => Raise (ValueError
      "zero-size array to reduction operation minimum which has no identity")
  | x :: xs' => Ok (fold_left minimum xs' x)
  end.

End Np.

Arguments Np.powi x%_float n%_positive.
Notation "x ^ n" := (Np.powi x n) : float_scope.
Notation "x ** y" := (power x y)
  (at level 30, right associativity) : float_scope.

(** [for i, x in enumerate(xs): st = body i x st] *)
Fixpoint for_enumerate {A St : Type} (body : nat -> A -> St -> St)
    (i : nat) (xs : list A) (st : St) : St :=
  match xs with
  | [] => st
  | x :: xs' => for_enumerate body (S i) xs' (body i x st)
  end.

(** The same loop with a body that can raise: the first exception ends
    it. *)
Fixpoint for_enumerate_r {A St : Type} (body : nat -> A -> St -> result St)
    (i : nat) (xs : list A) (st : St) : result St :=
  match xs with
  | [] => Ok st
  | x :: xs' =>
      let* st' := body i x st in
      for_enumerate_r body (S i) xs' st'
  end.

(** ** LimbDarkenedFluxKernel *)

Section Kernels.

Context {ML : MathLib}.
Open Scope float_scope.
Import Np.

(** *** [qpower2] *)

(** The value stored in the full-overlap regime, [zt <= 1-k]. *)
Definition qpower2_inside (k c a I_0 g zt : float) : float :=
  let s := 1 - zt^2 in
  let c0 := (1 - c + c * s**g) in
  let c2 := 0.5 * a * c * s**(g - 2) * ((a - 1) * zt^2 - 1) in
  1 - I_0 * pi * k^2 * (c0 + 0.25 * k^2 * c2 - 0.125 * a * c * k^2 * s**(g - 1)).

(** The value stored in the partial-overlap regime, [abs(zt-1) < k];
    the two quotients with a variable divisor are checked. *)
Definition qpower2_limb (k c a I_0 g zt : float) : result float :=
  let* d := checked_div (zt^2 - k^2 + 1) (2 * zt) in
  let ra := 0.5 * (zt - k + d) in
  let rb := 0.5 * (1 + d) in
  let sa := 1 - ra^2 in
  let sb := 1 - rb^2 in
  let* q0 := checked_div (zt - d) k in
  let q := py_min (py_max (-1) q0) 1 in
  let w2 := k^2 - (d - zt)^2 in
  let w := PrimFloat.sqrt w2 in
  let b0 := 1 - c + c * sa**g in
  let b1 := - a * c * ra * sa**(g - 1) in
  let b2 := 0.5 * a * c * sa**(g - 2) * ((a - 1) * ra^2 - 1) in
  let a0 := b0 + b1 * (zt - ra) + b2 * (zt - ra)^2 in
  let a1 := b1 + 2 * b2 * (zt - ra) in
  let aq := arccos q in
  let J1 := (a0 * (d - zt) - (2 / 3) * a1 * w2
             + 0.25 * b2 * (d - zt) * (2 * (d - zt)^2 - k^2)) * w
            + (a0 * k^2 + 0.25 * b2 * k^4) * aq in
  let J2 := a * c * sa**(g - 1) * k^4 *
            (0.125 * aq + (1 / 12) * q * (q^2 - 2.5) * PrimFloat.sqrt (py_max 0 (1 - q^2))) in
  let d0 := 1 - c + c * sb**g in
  let d1 := - a * c * rb * sb**(g - 1) in
  let K1 := (d0 - rb * d1) * arccos d
            + ((rb * d + (2 / 3) * (1 - d^2)) * d1 - d * d0)
              * PrimFloat.sqrt (py_max 0 (1 - d^2)) in
  let K2 := (1 / 3) * c * a * sb**(g + 0.5) * (1 - d) in
  Ok (1 - I_0 * (J1 - J2 + K1 - K2)).

(** One iteration of the loop over [enumerate(z)]. *)
Definition qpower2_body (k c a I_0 g : float)
    (i : nat) (zi : float) (f : list float) : result (list float) :=
  let zt := abs zi in
  if zt <=? (1 - k) then Ok (<[i := qpower2_inside k c a I_0 g zt]> f)
  else if abs (zt - 1) <? k then
    let* v := qpower2_limb k c a I_0 g zt in
    Ok (<[i := v]> f)
  else Ok f.

Definition qpower2 (z : list float) (k c a : float) : result (list float) :=
  let f := ones_like z in
  let* I_0 := checked_div (a + 2) (pi * (a - c * a + 2)) in
  let g := 0.5 * a in
  for_enumerate_r (qpower2_body k c a I_0 g) 0 z f.

(** *** [ueclipse] *)

Definition ueclipse_limb (k zt : float) : float :=
  let t1 := arccos (py_min (py_max (-1) ((zt^2 + k^2 - 1) / (2 * zt * k))) 1) in
  let t2 := arccos (py_min (py_max (-1) ((zt^2 + 1 - k^2) / (2 * zt))) 1) in
  let t3 := 0.5 * PrimFloat.sqrt (py_max 0
              ((1 + k - zt) * (zt + k - 1) * (zt - k + 1) * (zt + k + 1))) in
  1 - (k^2 * t1 + t2 - t3) / (pi * k^2).

Definition ueclipse_body (k : float)
    (i : nat) (zi : float) (fl : list float) : list float :=
  let zt := abs zi in
  if zt <=? (1 - k) then <[i := 0]> fl
  else if abs (zt - 1) <? k then <[i := ueclipse_limb k zt]> fl
  else fl.

Definition ueclipse (z : list float) (k : float) : result (list float) :=
  if 1 <? k then Raise (ValueError "ueclipse requires k < 1")
  else
    let fl := ones_like z in
    Ok (for_enumerate (ueclipse_body k) 0 z fl).

End Kernels.

(** ** Arrays, scalars and broadcasting *)

(** An argument documented as "array or scalar". *)
Inductive operand : Type :=
  | Scalar (x : float)
  | Array (xs : list float).

Module Nd.

Import Np.

Definition shape_error : exn :=
  ValueError "operands could not be broadcast together".

(** [f(xs, ys)] for two one-dimensional arrays: equal lengths pair up, an
    array of length one is stretched, any other pair of shapes is refused. *)
Definition arr2 (f : float -> float -> float) (xs ys : list float)
    : result (list float) :=
  if (length xs =? length ys)%nat then Ok (zip_with f xs ys)
  else match xs, ys with
       | [a], _ => Ok (map (f a) ys)
       | _, [b] => Ok (map (fun x => f x b) xs)
       | _, _ => Raise shape_error
       end.

(** scalar-or-array on the left, array on the right *)
Definition opl (f : float -> float -> float) (x : operand) (ys : list float)
    : result (list float) :=
  match x with
  | Scalar a => Ok (map (f a) ys)
  | Array xs => arr2 f xs ys
  end.

(** array on the left, scalar-or-array on the right *)
Definition opr (f : float -> float -> float) (xs : list float) (y : operand)
    : result (list float) :=
  match y with
  | Scalar b => Ok (map (fun x => f x b) xs)
  | Array ys => arr2 f xs ys
  end.

(** a unary element-wise operation on a scalar or an array *)
Definition umap (f : float -> float) (x : operand) : operand :=
  match x with
  | Scalar a => Scalar (f a)
  | Array xs => Array (map f xs)
  end.

(** [xs[mask]] *)
Fixpoint compress (mask : list bool) (xs : list float) : list float :=
  match mask, xs with
  | true :: mask', x :: xs' => x :: compress mask' xs'
  | false :: mask', _ :: xs' => compress mask' xs'
  | _, _ => []
  end.

(** [xs[mask] = vals], with [vals] as long as the number of selected
    entries *)
Fixpoint assign_masked (mask : list bool) (xs vals : list float) : list float :=
  match mask, xs with
  | true :: mask', x :: xs' =>
      match vals with
      | v :: vals' => v :: assign_masked mask' xs' vals'
      | [] => x :: assign_masked mask' xs' []
      end
  | false :: mask', x :: xs' => x :: assign_masked mask' xs' vals
  | _, _ => xs
  end.

End Nd.

(** ** DepthScaleEstimator *)

Definition nan4 : float * float * float * float := (nan, nan, nan, nan)%float.

Section ScaledTransitFit.

Open Scope float_scope.
Import Np Nd.

(** [w = 1/sigma**2]: a checked division for a scalar [sigma], the
    element-wise IEEE division for an array. *)
Definition weights (sigma : operand) : result operand :=
  match sigma with
  | Scalar x => let* w := checked_div 1 (x^2) in Ok (Scalar w)
  | Array xs => Ok (Array (map (fun x => 1 / x^2) xs))
  end.

Definition scaled_transit_fit
    (flux : list float) (sigma : operand) (model : list float)
    : result (float * float * float * float) :=
  let N := length flux in
  if (N <? 3)%nat then Ok nan4
  else
    let* w := weights sigma in
    let model_1 := map (fun x => x - 1) model in
    let* t := opl mul w (map (fun x => x^2) model_1) in
    let _m := sum t in
    if _m =? 0 then Ok nan4
    else
      let* t := opl mul w model_1 in
      let flux_1 := map (fun x => x - 1) flux in
      let* t := arr2 mul t flux_1 in
      let* s := checked_div (sum t) _m in
      let* r := arr2 sub flux_1 (map (fun x => s * x) model_1) in
      let* t := opl mul w (map (fun x => x^2) r) in
      let chisq := sum t in
      (* the divisor N is an integer, and at least 3 *)
      let b := PrimFloat.sqrt (chisq / of_nat N) in
      let* sigma_s := checked_div b (PrimFloat.sqrt _m) in
      let* t1 := checked_div (3 * chisq) (b^4) in
      let* t2 := checked_div (of_nat N) (b^2) in
      let _t := t1 - t2 in
      if 0 <? _t then
        let* sigma_b := checked_div 1 (PrimFloat.sqrt _t) in
        Ok (s, b, sigma_s, sigma_b)
      else Ok nan4.

End ScaledTransitFit.


(** *** [minerr_transit_fit] *)

(** The SciPy optimizers, as called by [minerr_transit_fit]:
    [brent f (xa, xb, xc)] stands for
    [brent(f, brack=(xa, xb, xc), full_output=True)] and gives the
    minimizer and the minimum; [brentq f a b] gives a root of [f] in
    [[a, b]].  Both can fail, and both pass on a failure of [f]. *)
Class SciPy : Type := {
  brent : (float -> result float) -> float * float * float
          -> result (float * float);
  brentq : (float -> result float) -> float -> float -> result float
}.

(** What a call of [minerr_transit_fit] does besides computing its result:
    the likelihood evaluations of its own bracketing loops, and the calls of
    the two optimizers (what an optimizer evaluates inside is its own
    business and is not logged). *)
Inductive event : Type :=
  | EvLike (s : float)                 (* _negloglike(s, ...) *)
  | EvLikeDiff (s : float)             (* _loglikediff(s, ...) *)
  | EvBrent (brack : float * float * float)
  | EvBrentq (a b : float).

(** Computations that log events, may raise, and run loops on fuel:
    [None] is a loop that was cut off. *)
Definition M (A : Type) : Type :=
  list event -> list event * option (result A).

Definition mret {A} (a : A) : M A := fun t => (t, Some (Ok a)).
Definition mbind {A B} (m : M A) (f : A -> M B) : M B :=
  fun t =>
    match m t with
    | (t', Some (Ok a)) => f a t'
    | (t', Some (Raise e)) => (t', Some (Raise e))
    | (t', None) => (t', None)
    end.
Definition tell (e : event) : M unit := fun t => (t ++ [e], Some (Ok tt)).
Definition lift {A} (r : result A) : M A := fun t => (t, Some r).
Definition cut_off {A} : M A := fun t => (t, None).

Notation "'do' x '<-' m ';' k" := (mbind m (fun x => k))
  (at level 10, x name, m at level 100, k at level 200).
Notation "'do' ' ( x , y ) '<-' m ';' k" := (mbind m (fun '(x, y) => k))
  (at level 10, x name, y name, m at level 100, k at level 200).

Section MinerrTransitFit.

Context {ML : MathLib} {SP : SciPy}.
Open Scope float_scope.
Import Np Nd.

Definition _negloglike (s : float)
    (flux : list float) (sigma : operand) (model : list float)
    : result float :=
  let model := map (fun m => 1 + s * (m - 1)) model in
  let* d := arr2 sub model flux in
  let* r := opr div d sigma in
  let Rsq := map (fun x => x^2) r in
  (* In the limit Rsq -> 0, log-likelihood -> log(0.5) *)
  let x := full_like Rsq (log 0.5) in
  let _j := map (fun R => eps <? R) Rsq in
  let Rj := compress _j Rsq in
  let x := assign_masked _j x
             (map (fun R => log ((1 - exp (-0.5 * R)) / R)) Rj) in
  Ok (- np_sum x).

Definition _loglikediff (s loglike_0 : float)
    (flux : list float) (sigma : operand) (model : list float)
    : result float :=
  let* v := _negloglike s flux sigma model in
  Ok (loglike_0 + v).

Section Body.

Variables (flux : list float) (sigma : operand) (model : list float).

Definition like (s : float) : M float :=
  do _ <- tell (EvLike s);
  lift (_negloglike s flux sigma model).

Definition likediff (s loglike_0 : float) : M float :=
  do _ <- tell (EvLikeDiff s);
  lift (_loglikediff s loglike_0 flux sigma model).

(** [while fc < fb: s_max = 2*s_max; fc = _negloglike(s_max, ...)] *)
Fixpoint bracket_up (fuel : nat) (fb s_max fc : float) : M (float * float) :=
  if fc <? fb then
    match fuel with
    | O => cut_off
    | S fuel' =>
        let s_max := 2 * s_max in
        do fc <- like s_max;
        bracket_up fuel' fb s_max fc
    end
  else mret (s_max, fc).

(** [while fb > fa:  if s_mid < 2**-16: return 0,0;
                     s_mid = 0.5*s_mid; fb = _negloglike(s_mid, ...)]
    [None] is the [return 0,0] from inside the loop. *)
Fixpoint bracket_down (fuel : nat) (fa s_mid fb : float)
    : M (option (float * float)) :=
  if fa <? fb then
    if s_mid <? 0x1p-16 then mret None
    else
      match fuel with
      | O => cut_off
      | S fuel' =>
          let s_mid := 0.5 * s_mid in
          do fb <- like s_mid;
          bracket_down fuel' fa s_mid fb
      end
  else mret (Some (s_mid, fb)).

(** [while f_hi < 0: s_hi = 2*s_hi; f_hi = _loglikediff(s_hi, ...)] *)
Fixpoint search_hi (fuel : nat) (loglike_0 s_hi f_hi : float) : M float :=
  if f_hi <? 0 then
    match fuel with
    | O => cut_off
    | S fuel' =>
        let s_hi := 2 * s_hi in
        do f_hi <- likediff s_hi loglike_0;
        search_hi fuel' loglike_0 s_hi f_hi
    end
  else mret s_hi.

(** From [s_opt, _f, _, _ = brent(...)] to the end. *)
Definition refine (fuel : nat) (s_min s_mid s_max : float)
    : M (float * float) :=
  do _ <- tell (EvBrent (s_min, s_mid, s_max));
  do '(s_opt, _f) <-
    lift (brent (fun s => _negloglike s flux sigma model)
                (s_min, s_mid, s_max));
  let loglike_0 := - _f - 0.5 in
  let s_hi := s_max in
  do f_hi <- likediff s_hi loglike_0;
  do s_hi <- search_hi fuel loglike_0 s_hi f_hi;
  do _ <- tell (EvBrentq s_opt s_hi);
  do s_hi <-
    lift (brentq (fun s => _loglikediff s loglike_0 flux sigma model)
                 s_opt s_hi);
  let s_err := s_hi - s_opt in
  mret (s_opt, s_err).

Definition minerr_body (fuel : nat) : M (float * float) :=
  let N := length flux in
  if (N <? 3)%nat then mret (nan, nan)
  else
    do m <- lift (Np.min model);
    if m =? 1 then mret (0, 0)
    else
      (* Bracket the minimum of _negloglike *)
      let s_min := 0 in
      do fa <- like s_min;
      let s_mid := 1 in
      do fb <- like s_mid;
      if fb <? fa then
        let s_max := 2 in
        do fc <- like s_max;
        do '(s_max, fc) <- bracket_up fuel fb s_max fc;
        refine fuel s_min s_mid s_max
      else
        let s_max := s_mid in
        let fc := fb in
        let s_mid := 0.5 in
        do fb <- like s_mid;
        do r <- bracket_down fuel fa s_mid fb;
        match r with
        | None => mret (0, 0)
        | Some (s_mid, fb) => refine fuel s_min s_mid s_max
        end.

End Body.

(** The events of a call and its result; the integers [0] and [1] of the
    source are the floats of the same value. *)
Definition minerr_transit_fit (fuel : nat)
    (flux : list float) (sigma : operand) (model : list float)
    : list event * option (result (float * float)) :=
  minerr_body flux sigma model fuel [].

End MinerrTransitFit.

(** ** The estimator in closed form

    The weighted least-squares fit as the specification words it, entry by
    entry: weights [w_i = 1/sigma_i^2], the normal-equation solution
    [s = sum w (m-1)(f-1) / sum w (m-1)^2], the residual chi-square, the
    error-rescaling factor [b = sqrt(chisq/N)] and the standard errors from
    the curvature of the chi-square surface. *)

Section ClosedForm.

Open Scope float_scope.

Variables (flux : list float) (sigma : operand) (model : list float).

(** [sum_{i < n} term i], accumulated in the order of the entries *)
Definition wsum (n : nat) (term : nat -> float) : float :=
  Np.sum (map term (seq 0 n)).

Definition n_points : nat := length flux.
Definition f_ (i : nat) : float := nth i flux 0.
Definition m_ (i : nat) : float := nth i model 0.
Definition w_ (i : nat) : float :=
  match sigma with
  | Scalar x => 1 / x^2
  | Array xs => 1 / (nth i xs 0)^2
  end.

Definition normal_den : float :=
  wsum n_points (fun i => w_ i * (m_ i - 1)^2).
Definition normal_num : float :=
  wsum n_points (fun i => w_ i * (m_ i - 1) * (f_ i - 1)).
Definition s_hat : float := normal_num / normal_den.
Definition chisq_hat : float :=
  wsum n_points (fun i => w_ i * ((f_ i - 1) - s_hat * (m_ i - 1))^2).
Definition b_hat : float := PrimFloat.sqrt (chisq_hat / Np.of_nat n_points).
Definition sigma_s_hat : float := b_hat / PrimFloat.sqrt normal_den.
Definition curvature : float :=
  3 * chisq_hat / b_hat^4 - Np.of_nat n_points / b_hat^2.
Definition sigma_b_hat : float := 1 / PrimFloat.sqrt curvature.

(** The shapes the estimator is documented for: [model] as long as
    [flux], [sigma] a scalar or an array of that length. *)
Definition shapes_agree : Prop :=
  length model = length flux /\
  match sigma with
  | Scalar _ => True
  | Array xs => length xs = length flux
  end.

(** The three degenerate cases of the specification: fewer than 3 points,
    a zero weighted sum of squares, a curvature term that is not positive
    (at most zero, or not a number). *)
Definition degenerate : bool :=
  (n_points <? 3)%nat || (normal_den =? 0) || negb (0 <? curvature).

(** The zero divisors of the compiled function: [sigma**2] for a scalar
    [sigma], and [b**4] (with which [b**2] is zero when it is). *)
Definition zero_weight_divisor : bool :=
  match sigma with
  | Scalar x => x^2 =? 0
  | Array _ => false
  end.

Definition zero_b_divisor : bool := b_hat^4 =? 0.

End ClosedForm.

(** ** The light-curve models

    [TransitModel], [EclipseModel] and [FactorModel] each wrap one function
    of the time array and the parameters.  These functions are plain Python:
    [**] on two scalars is the [power] of the math library, and raising an
    exception is possible.  Each of their divisions comes after a guard
    that keeps its divisor from being zero ([1-S], [sqrt(q)] and [h_2]
    are positive or not a number where they divide), so it is embedded as
    the IEEE division.  The orbit geometry [t2z] of [pycheops.funcs] and
    three further NumPy functions are interfaces. *)

Class Funcs : Type := {
  (* t2z(t, T_0, P, sini, rstar, ecc, omdeg, returnMask=True): the
     separations, and the flags of the samples with the planet behind the
     star *)
  t2z : list float -> float -> float -> float -> float -> float -> float
        -> list float * list bool;
  arctan2 : float -> float -> float;   (* np.arctan2(y, x) *)
  log2 : float -> float;               (* np.log2 *)
  median : list float -> float         (* np.median *)
}.

(** The exceptions of the model functions. *)
Inductive error : Type :=
  | Value (e : exn)                (* an exception of a kernel or of NumPy *)
  | IndexError (msg : string)
  | TypeError (msg : string).

Inductive outcome (A : Type) : Type :=
  | Return (a : A)
  | Throw (e : error).
Arguments Return {A} a.
Arguments Throw {A} e.

Definition obind {A B} (r : outcome A) (f : A -> outcome B) : outcome B :=
  match r with
  | Return a => f a
  | Throw e => Throw e
  end.

Definition of_result {A} (r : result A) : outcome A :=
  match r with
  | Ok a => Return a
  | Raise e => Throw (Value e)
  end.

(** [z[mask] = v] for a boolean array [mask] and a scalar [v]: the mask
    has to be as long as the array. *)
Definition set_where (mask : list bool) (v : float) (z : list float)
    : outcome (list float) :=
  if (length mask =? length z)%nat
  then Return (zip_with (fun (b : bool) x => if b then v else x) mask z)
  else Throw (IndexError "boolean index did not match indexed array").

(** [trend += inc]: the result has the shape of [trend], so only [inc]
    can be stretched. *)
Definition iadd (trend inc : list float) : outcome (list float) :=
  if (length trend =? length inc)%nat
  then Return (zip_with PrimFloat.add trend inc)
  else match inc with
       | [b] => Return (map (fun x => x + b)%float trend)
       | _ => Throw (Value Nd.shape_error)
       end.

Section Models.

Context {ML : MathLib} {FN : Funcs}.
Open Scope float_scope.
Import Np.

(** *** [TransitModel] *)

Definition _transit_func (t : list float)
    (T_0 P D W S f_c f_s h_1 h_2 : float) : outcome (list float) :=
  if D <=? 0 then Return (ones_like t)
  else
    let k := PrimFloat.sqrt D in
    if 0.5 <? k then Return (ones_like t)
    else if (1 - S) <=? 0 then Return (ones_like t)
    else
      let bsq := ((1 - k) ** 2 - S * (1 + k) ** 2) / (1 - S) in
      if bsq <? 0 then Return (ones_like t)
      else
        let b := PrimFloat.sqrt bsq in
        let q := (1 + k) ** 2 - bsq in
        if q <=? 0 then Return (ones_like t)
        else
          let r_star := pi * W / PrimFloat.sqrt q in
          let q := 1 - (b * r_star) ** 2 in
          if q <=? 0 then Return (ones_like t)
          else
            let sini := PrimFloat.sqrt q in
            if (h_1 <=? 0) || (h_2 <=? 0) || (h_1 <? h_2) || (1 <=? h_1)
            then Return (ones_like t)
            else
              let c2 := 1 - h_1 + h_2 in
              let a2 := log2 (c2 / h_2) in
              let ecc := f_c ** 2 + f_s ** 2 in
              let om := arctan2 f_s f_c * 180 / pi in
              let '(z, m) := t2z t T_0 P sini r_star ecc om in
              (* Set z values where planet is behind star to a large
                 nominal value *)
              obind (set_where m 9999 z) (fun z =>
              of_result (qpower2 z k c2 a2)).

(** *** [EclipseModel] *)

Definition _eclipse_func (t : list float)
    (T_0 P D W S L f_c f_s a_c : float) : outcome (list float) :=
  if D <=? 0 then Return (ones_like t)
  else
    let k := PrimFloat.sqrt D in
    if 0.5 <? k then Return (ones_like t)
    else if (1 - S) <=? 0 then Return (ones_like t)
    else
      let bsq := ((1 - k) ** 2 - S * (1 + k) ** 2) / (1 - S) in
      if bsq <? 0 then Return (ones_like t)
      else
        let b := PrimFloat.sqrt bsq in
        let q := (1 + k) ** 2 - bsq in
        if q <=? 0 then Return (ones_like t)
        else
          let r_star := pi * W / PrimFloat.sqrt q in
          let q := 1 - (b * r_star) ** 2 in
          if q <=? 0 then Return (ones_like t)
          else
            let sini := PrimFloat.sqrt q in
            let ecc := f_c ** 2 + f_s ** 2 in
            let om := arctan2 f_s f_c * 180 / pi in
            let '(z, m) :=
              t2z (map (fun x => x - a_c) t) T_0 P sini r_star ecc om in
            obind (set_where (map negb m) 9999 z) (fun z =>
            obind (of_result (ueclipse z k)) (fun fl =>
            Return (map (fun u => 1 + L * (u - 1)) fl))).

(** *** [FactorModel] *)

(** The keyword arguments [dx], [dy], [sinphi], [cosphi] of the
    constructor: functions of the time array, or [None]. *)
Record FactorModel : Type := {
  dx : option (list float -> list float);
  dy : option (list float -> list float);
  sinphi : option (list float -> list float);
  cosphi : option (list float -> list float)
}.

(** [f(t)] for an attribute [f] that may be [None] *)
Definition call (f : option (list float -> list float)) (t : list float)
    : outcome (list float) :=
  match f with
  | Some g => Return (g t)
  | None => Throw (TypeError "'NoneType' object is not callable")
  end.

(** [x != 0] *)
Definition nonzero (x : float) : bool := negb (x =? 0).

Definition factor (self : FactorModel) (t : list float)
    (d2fdt2 dfdt dfdcosphi dfdsinphi dfdcos2phi dfdsin2phi
     d2fdy2 d2fdxdy d2fdx2 dfdy dfdx c : float) : outcome (list float) :=
  let med := median t in
  let dt := map (fun x => x - med) t in
  let trend := map (fun d => 1 + dfdt * d + d2fdt2 * d^2) dt in
  obind (if nonzero dfdx || nonzero d2fdx2 then
           obind (call (dx self) t) (fun x =>
           iadd trend (map (fun u => dfdx * u + d2fdx2 * u^2) x))
         else Return trend) (fun trend =>
  obind (if nonzero dfdy || nonzero d2fdy2 then
           obind (call (dy self) t) (fun y =>
           iadd trend (map (fun u => dfdy * u + d2fdy2 * u^2) y))
         else Return trend) (fun trend =>
  obind (if nonzero d2fdxdy then
           obind (call (dx self) t) (fun x =>
           obind (call (dy self) t) (fun y =>
           obind (of_result (Nd.arr2 mul (map (fun u => d2fdxdy * u) x) y))
             (iadd trend)))
         else Return trend) (fun trend =>
  obind (if nonzero dfdsinphi then
           obind (call (sinphi self) t) (fun s =>
           iadd trend (map (fun u => dfdsinphi * u) s))
         else Return trend) (fun trend =>
  obind (if nonzero dfdcosphi then
           obind (call (cosphi self) t) (fun cs =>
           iadd trend (map (fun u => dfdcosphi * u) cs))
         else Return trend) (fun trend =>
  obind (if nonzero dfdsin2phi then
           obind (call (sinphi self) t) (fun s =>
           obind (call (cosphi self) t) (fun cs =>
           obind (of_result (Nd.arr2 mul (map (fun u => 2 * u) s) cs))
             (fun sin2phi =>
           iadd trend (map (fun u => dfdsin2phi * u) sin2phi))))
         else Return trend) (fun trend =>
  obind (if nonzero dfdcos2phi then
           obind (call (sinphi self) t) (fun s =>
           obind (call (cosphi self) t) (fun cs =>
           obind (of_result (Nd.arr2 sub (map (fun u => u^2) s)
                                         (map (fun u => u^2) cs)))
             (fun cos2phi =>
           iadd trend (map (fun u => dfdcos2phi * u) cos2phi))))
         else Return trend) (fun trend =>
  Return (map (fun u => c * u) trend)))))))).

(** *** The geometry of [_transit_func] and [_eclipse_func]

    The guards the two functions start with, and the [k], [sini] and
    [r_star] they reach [t2z] with; [None] stands for each early
    [return np.ones_like(t)]. *)
Definition geometry (D W S : float) : option (float * float * float) :=
  if D <=? 0 then None
  else
    let k := PrimFloat.sqrt D in
    if 0.5 <? k then None
    else if (1 - S) <=? 0 then None
    else
      let bsq := ((1 - k) ** 2 - S * (1 + k) ** 2) / (1 - S) in
      if bsq <? 0 then None
      else
        let b := PrimFloat.sqrt bsq in
        let q := (1 + k) ** 2 - bsq in
        if q <=? 0 then None
        else
          let r_star := pi * W / PrimFloat.sqrt q in
          let q := 1 - (b * r_star) ** 2 in
          if q <=? 0 then None
          else Some (k, PrimFloat.sqrt q, r_star).

(** [ecc] and [om] of both models *)
Definition ecc_of (f_c f_s : float) : float := f_c ** 2 + f_s ** 2.
Definition om_of (f_c f_s : float) : float := arctan2 f_s f_c * 180 / pi.

(** The limb-darkening guard of [_transit_func], and the [c2] and [a2]
    it calls [qpower2] with. *)
Definition bad_limb_darkening (h_1 h_2 : float) : bool :=
  (h_1 <=? 0) || (h_2 <=? 0) || (h_1 <? h_2) || (1 <=? h_1).

Definition c2_of (h_1 h_2 : float) : float := 1 - h_1 + h_2.
Definition a2_of (h_1 h_2 : float) : float := log2 (c2_of h_1 h_2 / h_2).

End Models.

(** * An instance of the interfaces, to run the definitions

    A small math library (argument reduction and truncated power series)
    and optimizers that always report failure. *)

Module Example.

Open Scope float_scope.

Definition of_Z (e : Z) : float :=
  match e with
  | Z0 => 0
  | Zpos _ => PrimFloat.of_uint63 (Uint63.of_Z e)
  | Zneg _ => - PrimFloat.of_uint63 (Uint63.of_Z (- e))
  end.

(** [sum_{j <= fuel} x^j / j!], by Horner's rule *)
Fixpoint exp_series (fuel : nat) (n x : float) : float :=
  match fuel with
  | O => 1
  | S fuel' => 1 + x / n * exp_series fuel' (n + 1) x
  end.

Fixpoint square_times (n : nat) (y : float) : float :=
  match n with
  | O => y
  | S n' => square_times n' (y * y)
  end.

(** [exp x = (exp (x / 2^11))^(2^11)] outside [[-1, 1]] *)
Definition exp (x : float) : float :=
  if abs x <=? 1 then exp_series 25 1 x
  else square_times 11 (exp_series 25 1 (x / 2048)).

(** [2 * sum_j t^(2j+1) / (2j+1)], which is [log ((1+t)/(1-t))] *)
Fixpoint atanh_series (fuel : nat) (n t2 tp : float) : float :=
  match fuel with
  | O => 0
  | S fuel' => tp / n + atanh_series fuel' (n + 2) t2 (tp * t2)
  end.

Definition ln2 : float := 0x1.62e42fefa39efp-1.

(** [log (m * 2^e) = log m + e * log 2], with [m] brought into
    [[0.5, 1)] *)
Definition log (x : float) : float :=
  if x <? 0 then nan
  else if x =? 0 then neg_infinity
  else if x =? infinity then infinity
  else
    let '(m, e) := Z.frexp x in
    let t := (m - 1) / (m + 1) in
    2 * atanh_series 40 1 (t * t) t + of_Z e * ln2.

Definition power (x y : float) : float := exp (y * log x).

(** [sum_j (-1)^j y^(2j+1) / (2j+1)] *)
Fixpoint atan_series (fuel : nat) (n y2 yp : float) : float :=
  match fuel with
  | O => 0
  | S fuel' => yp / n - atan_series fuel' (n + 2) y2 (yp * y2)
  end.

(** [atan y = 2 atan (y / (1 + sqrt (1 + y^2)))], four times *)
Fixpoint atan_reduce (n : nat) (y : float) : float :=
  match n with
  | O => atan_series 14 1 (y * y) y
  | S n' => 2 * atan_reduce n' (y / (1 + PrimFloat.sqrt (1 + y * y)))
  end.

(** [arccos x = 2 atan (sqrt ((1-x)/(1+x)))] on [[0, 1]] *)
Definition arccos (x : float) : float :=
  if abs x <=? 1 then
    let a := abs x in
    let r := 2 * atan_reduce 4 (PrimFloat.sqrt ((1 - a) / (1 + a))) in
    if x <? 0 then Np.pi - r else r
  else nan.

(** The sum from left to right, as NumPy adds an array of fewer than 8
    entries. *)
Definition libm : MathLib := Build_MathLib arccos power log exp Np.sum.

Definition failure : exn := ValueError "the optimizer did not converge".

Definition scipy : SciPy :=
  Build_SciPy (fun _ _ => Raise failure) (fun _ _ _ => Raise failure).

End Example.

(** An orbit geometry and the further NumPy functions, to run the models:
    a passage along a straight line, flagged before [T_0]; the median by
    insertion sort. *)

Module ExampleOrbit.

Open Scope float_scope.

Definition t2z (t : list float) (T_0 P sini rstar ecc om : float)
    : list float * list bool :=
  (map (fun x => abs (x - T_0) / (P * rstar)) t, map (fun x => x <? T_0) t).

Definition arctan2 (y x : float) : float :=
  if 0 <? x then Example.atan_reduce 4 (y / x)
  else if x <? 0 then
    (if y <? 0 then Example.atan_reduce 4 (y / x) - Np.pi
     else Example.atan_reduce 4 (y / x) + Np.pi)
  else if 0 <? y then Np.pi / 2
  else if y <? 0 then - (Np.pi / 2)
  else 0.

(** [log2] by the logarithm of the example library; from 1 on the
    result is kept from falling below 0. *)
Definition log2 (x : float) : float :=
  let r := Example.log x / Example.ln2 in
  if 1 <=? x then (if 0 <=? r then r else 0) else r.

Fixpoint insert_sorted (x : float) (xs : list float) : list float :=
  match xs with
  | [] => [x]
  | y :: ys => if x <=? y then x :: xs else y :: insert_sorted x ys
  end.

Definition sort (xs : list float) : list float :=
  fold_right insert_sorted [] xs.

Definition median (xs : list float) : float :=
  let n := length xs in
  let s := sort xs in
  if existsb (fun x => is_nan x) xs then nan
  else if Nat.even n then (nth (n / 2 - 1) s nan + nth (n / 2) s nan) / 2
  else nth (n / 2) s nan.

Definition funcs : Funcs := Build_Funcs t2z arctan2 log2 median.

(** A [FactorModel] made without keyword arguments. *)
Definition bare : FactorModel := Build_FactorModel None None None None.

End ExampleOrbit.

(** * Notions used in the statements and proofs *)

(** The trial points [s, s/2, s/4, ...] of the halving loop, [n] of them. *)
Fixpoint halvings (s : float) (n : nat) : list float :=
  match n with
  | O => []
  | S n' => s :: halvings (0.5 * s)%float n'
  end.

(** [s_mid] passes the test [s_mid < 2**-16] for the first time after [n]
    halvings. *)
Fixpoint floor_after (s : float) (n : nat) : bool :=
  match n with
  | O => (s <? 0x1p-16)%float
  | S n' => negb (s <? 0x1p-16)%float && floor_after (0.5 * s)%float n'
  end.

Section Worse.

Context {ML : MathLib}.
Open Scope float_scope.

Variables (flux : list float) (sigma : operand) (model : list float).

(** [s] is a trial point at which the likelihood is worse than [fa]. *)
Definition worse_than (fa s : float) : Prop :=
  exists v, _negloglike s flux sigma model = Ok v /\ (fa <? v) = true.

End Worse.

(** Arrays as tables of their entries. *)
Definition tab (n : nat) (e : nat -> float) : list float := map e (seq 0 n).

(** A loop body over [enumerate]: every iteration writes at most the entry
    of its own index. *)
Definition writes_own_index (body : nat -> float -> list float -> list float)
    : Prop :=
  forall i x f j, j <> i -> body i x f !! j = f !! j.

(** Not a number, in the specification of binary64. *)
Definition sf_nan (x : float) : Prop := Prim2SF x = S754_nan.

(** A zero of either sign, or not a number. *)
Definition sf_zero_or_nan (x : float) : Prop :=
  match Prim2SF x with
  | S754_zero _ | S754_nan => True
  | _ => False
  end.

(** ** Values of binary64 floats and the stages of rounding *)

Module Sf.

Local Open Scope Z_scope.

(** The shifted record lost a nonzero bit. *)
Definition inexact (rec : shr_record) : bool := shr_r rec || shr_s rec.

(** Non-negative binary64 values as integers, scaled by [2^1074]; the
    infinity sits above every finite value. *)
Definition scaled (m : positive) (e : Z) : Z := Z.pos m * 2 ^ (e + 1074).

Definition top : Z := 2 ^ 2098.

Definition ext (x : spec_float) : option Z :=
  match x with
  | S754_zero _ => Some 0
  | S754_finite false m e => Some (scaled m e)
  | S754_infinity false => Some top
  | _ => None
  end.

(** The second stage: renormalize the rounded mantissa and check for
    overflow. *)
Definition finish (sx : bool) (m1 e1 : Z) : spec_float :=
  let '(mrs, e2) := shr_fexp prec emax m1 e1 loc_Exact in
  match shr_m mrs with
  | Z0 => S754_zero sx
  | Zpos m => if e2 <=? emax - prec then S754_finite sx m e2
              else S754_infinity sx
  | Zneg _ => S754_nan
  end.

(** [v] lies on the same side of every representable number as [x]. *)
Definition same_side (x v : Z) : Prop :=
  forall mf ef, bounded prec emax mf ef = true ->
    (scaled mf ef <= x -> scaled mf ef <= v) /\
    (x <= scaled mf ef -> v <= scaled mf ef).

(** [R] is a non-negative float that [x] rounds to. *)
Definition rounds_to (x : Z) (R : spec_float) : Prop :=
  exists v, ext R = Some v /\ same_side x v.

(** The float 1. *)
Definition SF_one : spec_float := S754_finite false 4503599627370496 (-52).

End Sf.

(** What one iteration of a kernel loop stores at its index for the entry
    [zi], if it stores anything. *)

Section Stored.

Context {ML : MathLib}.
Open Scope float_scope.

Definition qpower2_stored (k c a I_0 g zi : float) : result (option float) :=
  let zt := abs zi in
  if zt <=? (1 - k) then Ok (Some (qpower2_inside k c a I_0 g zt))
  else if abs (zt - 1) <? k then
    let* v := qpower2_limb k c a I_0 g zt in
    Ok (Some v)
  else Ok None.

Definition ueclipse_stored (k zi : float) : option float :=
  let zt := abs zi in
  if zt <=? (1 - k) then Some 0
  else if abs (zt - 1) <? k then Some (ueclipse_limb k zt)
  else None.

End Stored.

(** A loop body over [enumerate] that stores [stored x] at its own index,
    or leaves the array as it is. *)
Definition stores {A} (body : nat -> A -> list float -> list float)
    (stored : A -> option float) : Prop :=
  forall i x f,
    body i x f = match stored x with Some v => <[i := v]> f | None => f end.

(** The same for a body that can raise. *)
Definition stores_r {A} (body : nat -> A -> list float -> result (list float))
    (stored : A -> result (option float)) : Prop :=
  forall i x f,
    body i x f =
      (let* o := stored x in
       Ok (match o with Some v => <[i := v]> f | None => f end)).

(** [[f x for x in xs]] for an [f] that can raise: the first exception
    ends it. *)
Fixpoint traverse {A B} (f : A -> result B) (xs : list A) : result (list B) :=
  match xs with
  | [] => Ok []
  | x :: xs' =>
      let* y := f x in
      let* ys := traverse f xs' in
      Ok (y :: ys)
  end.

(** The divisor of [I_0] in [qpower2]. *)
Definition I_0_divisor (c a : float) : float :=
  (Np.pi * (a - c * a + 2))%float.

(** [np.isfinite] *)
Definition is_finite (x : float) : bool := (abs x <? infinity)%float.

(** A zero of either sign. *)
Definition sf_zero (x : float) : Prop :=
  match Prim2SF x with
  | S754_zero _ => True
  | _ => False
  end.

(** The calls of the optimizers in a trace: the brackets [brent] was
    called with and the intervals [brentq] was called with, in the order
    of the calls. *)
Definition brent_sel (e : event) : list (float * float * float) :=
  match e with EvBrent brack => [brack] | _ => [] end.

Definition brentq_sel (e : event) : list (float * float) :=
  match e with EvBrentq a b => [(a, b)] | _ => [] end.

Definition brent_calls (tr : list event) : list (float * float * float) :=
  flat_map brent_sel tr.

Definition brentq_calls (tr : list event) : list (float * float) :=
  flat_map brentq_sel tr.

(** A computation that adds no event that [sel] selects. *)
Definition quiet {X A} (sel : event -> list X) (m : M A) : Prop :=
  forall t, flat_map sel (fst (m t)) = flat_map sel t.

(** A number with the sign bit clear: [+0], a positive float or the
    positive infinity; and the same or not a number. *)
Definition plus_number (x : spec_float) : Prop :=
  match x with
  | S754_zero false | S754_finite false _ _ | S754_infinity false => True
  | _ => False
  end.

Definition plus_or_nan (x : spec_float) : Prop :=
  match x with
  | S754_nan => True
  | _ => plus_number x
  end.

(** * Facts about binary64 comparison *)

Module FloatFacts.

Open Scope float_scope.

Lemma compare_cont_flip (m n : positive) :
  PosDef.Pos.compare_cont Eq n m = CompOpp (PosDef.Pos.compare_cont Eq m n).
Proof. symmetry. exact (Pos.compare_cont_antisym m n Eq). Qed.

Lemma SFcompare_antisym (x y : spec_float) :
  SFcompare y x = option_map CompOpp (SFcompare x y).
Proof.
  destruct x as [[]|[]| |[] mx ex], y as [[]|[]| |[] my ey];
    simpl; try reflexivity;
    rewrite (Z.compare_antisym ex ey);
    destruct (ex ?= ey)%Z; simpl; try reflexivity;
    now rewrite (compare_cont_flip mx my).
Qed.

Lemma leb_true_ltb_flip (x y : float) : (x <=? y) = true -> (y <? x) = false.
Proof.
  rewrite leb_spec, ltb_spec. unfold SFleb, SFltb.
  rewrite (SFcompare_antisym (Prim2SF x) (Prim2SF y)).
  now destruct (SFcompare (Prim2SF x) (Prim2SF y)) as [[]|].
Qed.

Lemma ltb_true_ltb_flip (x y : float) : (x <? y) = true -> (y <? x) = false.
Proof.
  rewrite !ltb_spec. unfold SFltb.
  rewrite (SFcompare_antisym (Prim2SF x) (Prim2SF y)).
  now destruct (SFcompare (Prim2SF x) (Prim2SF y)) as [[]|].
Qed.

(** A float below zero is not above one. *)
Lemma negative_not_above_one (k : float) : (k <? 0) = true -> (1 <? k) = false.
Proof.
  rewrite !ltb_spec. unfold SFltb.
  change (Prim2SF 0) with (S754_zero false).
  change (Prim2SF 1) with (S754_finite false 4503599627370496 (-52)).
  now destruct (Prim2SF k) as [[]|[]| |[] m e].
Qed.

Lemma abs_opp (x : float) : abs (- x) = abs x.
Proof.
  apply Prim2SF_inj. rewrite !abs_spec, opp_spec.
  now destruct (Prim2SF x).
Qed.

End FloatFacts.

(** * The kernels: validation and symmetry *)

Section KernelFacts.

Context {ML : MathLib}.
Open Scope float_scope.
Import Np.

Lemma for_enumerate_length {A} (body : nat -> A -> list float -> list float) :
  (forall i x f, length (body i x f) = length f) ->
  forall xs i f, length (for_enumerate body i xs f) = length f.
Proof.
  intros Hb xs. induction xs as [|x xs IH]; intros i f; simpl; [reflexivity|].
  now rewrite IH, Hb.
Qed.

Lemma ueclipse_body_length k i zi fl :
  length (ueclipse_body k i zi fl) = length fl.
Proof.
  unfold ueclipse_body.
  destruct (abs zi <=? 1 - k); [apply length_insert|].
  destruct (abs (abs zi - 1) <? k); [apply length_insert|reflexivity].
Qed.

Lemma ueclipse_ok_length z k fl : ueclipse z k = Ok fl -> length fl = length z.
Proof.
  unfold ueclipse. destruct (1 <? k); [discriminate|].
  intros [= <-]. rewrite for_enumerate_length by apply ueclipse_body_length.
  apply length_replicate.
Qed.

(** A loop that can raise, as a traversal of the array. *)
Lemma for_enumerate_r_stores {A} body (stored : A -> result (option float)) :
  stores_r body stored ->
  forall xs pre ys, length ys = length xs ->
    for_enumerate_r body (length pre) xs (pre ++ ys)
    = (let* vs := traverse (fun xy : A * float =>
                     let* o := stored (fst xy) in Ok (default (snd xy) o))
                    (zip xs ys) in
       Ok (pre ++ vs)).
Proof.
  intros Hb xs. induction xs as [|x xs IH]; intros pre ys Hlen.
  - destruct ys; [|discriminate]. cbn. now rewrite app_nil_r.
  - destruct ys as [|y ys]; [discriminate|]. injection Hlen as Hlen.
    cbn [for_enumerate_r zip zip_with traverse fst snd]. rewrite Hb.
    destruct (stored x) as [o|e]; [|reflexivity]. cbn [rbind].
    assert (E : match o with
                | Some v => <[length pre := v]> (pre ++ y :: ys)
                | None => pre ++ y :: ys
                end = (pre ++ [default y o]) ++ ys).
    { rewrite <- app_assoc. cbn [app].
      destruct o as [v|]; [|reflexivity].
      rewrite insert_app_r_alt by lia. now rewrite Nat.sub_diag. }
    rewrite E.
    replace (S (length pre)) with (length (pre ++ [default y o]))
      by (rewrite length_app; simpl; lia).
    rewrite IH by exact Hlen.
    destruct (traverse _ (zip xs ys)) as [vs|e]; [|reflexivity].
    cbn [rbind]. now rewrite <- app_assoc.
Qed.

Lemma traverse_replicate {A} (h : A -> float -> result float)
    (xs : list A) (v : float) :
  traverse (fun xy : A * float => h (fst xy) (snd xy))
           (zip xs (replicate (length xs) v))
  = traverse (fun x => h x v) xs.
Proof.
  induction xs as [|x xs IH]; [reflexivity|].
  cbn [length replicate zip zip_with traverse fst snd]. now rewrite IH.
Qed.

Lemma traverse_length {A B} (f : A -> result B) : forall xs ys,
  traverse f xs = Ok ys -> length ys = length xs.
Proof.
  induction xs as [|x xs IH]; intros ys; cbn [traverse].
  - now intros [= <-].
  - destruct (f x) as [y|e]; [|discriminate]. cbn [rbind].
    destruct (traverse f xs) as [ys'|e]; [|discriminate].
    intros [= <-]. cbn [rbind length]. now rewrite (IH ys').
Qed.

Lemma traverse_lookup {A B} (f : A -> result B) : forall xs ys i x,
  traverse f xs = Ok ys -> xs !! i = Some x ->
  exists y, f x = Ok y /\ ys !! i = Some y.
Proof.
  induction xs as [|x0 xs IH]; intros ys i x; cbn [traverse]; [easy|].
  destruct (f x0) as [y0|e] eqn:E0; [|discriminate]. cbn [rbind].
  destruct (traverse f xs) as [ys'|e]; [|discriminate].
  intros [= <-]. destruct i as [|i]; cbn.
  - intros [= <-]. now exists y0.
  - intros Hx. now apply (IH ys').
Qed.

Lemma traverse_total {A B} (f : A -> result B) (xs : list A) :
  (forall x, exists y, f x = Ok y) -> exists ys, traverse f xs = Ok ys.
Proof.
  intros Hf. induction xs as [|x xs [ys IH]]; cbn [traverse]; [now eexists|].
  destruct (Hf x) as [y ->]. rewrite IH. cbn [rbind]. now eexists.
Qed.

Lemma traverse_app {A B} (f : A -> result B) (xs1 xs2 : list A) :
  traverse f (xs1 ++ xs2) =
    (let* ys1 := traverse f xs1 in
     let* ys2 := traverse f xs2 in
     Ok (ys1 ++ ys2)).
Proof.
  induction xs1 as [|x xs1 IH]; cbn [traverse app rbind].
  - now destruct (traverse f xs2).
  - destruct (f x) as [y|e]; [|reflexivity]. cbn [rbind]. rewrite IH.
    destruct (traverse f xs1) as [ys1|e]; [|reflexivity]. cbn [rbind].
    now destruct (traverse f xs2).
Qed.

Lemma qpower2_body_stores k c a I_0 g :
  stores_r (qpower2_body k c a I_0 g) (qpower2_stored k c a I_0 g).
Proof.
  intros i x f. unfold qpower2_body, qpower2_stored. cbv zeta.
  destruct (abs x <=? 1 - k); [reflexivity|].
  destruct (abs (abs x - 1) <? k); [|reflexivity].
  now destruct (qpower2_limb k c a I_0 g (abs x)).
Qed.

(** [qpower2], entry by entry: the flux of one entry is what the loop
    stores for it, or the 1 the array starts with. *)
Lemma qpower2_traverse z k c a :
  qpower2 z k c a =
    (let* I_0 := checked_div (a + 2) (I_0_divisor c a) in
     traverse (fun zi => let* o := qpower2_stored k c a I_0 (0.5 * a) zi in
                         Ok (default 1 o)) z).
Proof.
  unfold qpower2, ones_like, full_like, I_0_divisor. cbv zeta.
  destruct (checked_div (a + 2) (pi * (a - c * a + 2))) as [I_0|e];
    [|reflexivity].
  cbn [rbind].
  pose proof (for_enumerate_r_stores _ _ (qpower2_body_stores k c a I_0 (0.5 * a))
                z [] (replicate (length z) 1) (length_replicate _ _)) as H.
  cbn [length app] in H. rewrite H.
  rewrite (traverse_replicate
             (fun zi y => let* o := qpower2_stored k c a I_0 (0.5 * a) zi in
                          Ok (default y o))).
  now destruct (traverse _ z).
Qed.

Lemma qpower2_ok_length z k c a f : qpower2 z k c a = Ok f -> length f = length z.
Proof.
  rewrite qpower2_traverse.
  destruct (checked_div (a + 2) (I_0_divisor c a)); [|discriminate].
  apply traverse_length.
Qed.

(** C7: [ueclipse] fails for every [k > 1], whatever the array [z] is and
    before an output array exists (the result carries no array at all); for
    [k <= 1] the check does not fire and an array as long as [z] comes
    back. *)
Theorem ueclipse_rejects_k_above_one (z : list float) (k : float) :
  ((1 <? k) = true ->
     ueclipse z k = Raise (ValueError "ueclipse requires k < 1")) /\
  ((k <=? 1) = true ->
     exists fl, ueclipse z k = Ok fl /\ length fl = length z).
Proof.
  split; intros Hk.
  - unfold ueclipse. now rewrite Hk.
  - apply FloatFacts.leb_true_ltb_flip in Hk.
    unfold ueclipse. rewrite Hk. eexists. split; [reflexivity|].
    rewrite for_enumerate_length by apply ueclipse_body_length.
    apply length_replicate.
Qed.

(** C2 (as the code has it): a negative [k] is not rejected; [ueclipse]
    raises nothing for it and returns an array as long as [z]. *)
Theorem ueclipse_accepts_negative_k (z : list float) (k : float) :
  (k <? 0) = true ->
  exists fl, ueclipse z k = Ok fl /\ length fl = length z.
Proof.
  intros Hk. apply FloatFacts.negative_not_above_one in Hk.
  unfold ueclipse. rewrite Hk. eexists. split; [reflexivity|].
  rewrite for_enumerate_length by apply ueclipse_body_length.
  apply length_replicate.
Qed.

Lemma for_enumerate_ext {A B St} (body : nat -> B -> St -> St) (h : A -> B)
    (body' : nat -> A -> St -> St) :
  (forall i x st, body i (h x) st = body' i x st) ->
  forall xs i st,
    for_enumerate body i (map h xs) st = for_enumerate body' i xs st.
Proof.
  intros Hb xs. induction xs as [|x xs IH]; intros i st; simpl; [reflexivity|].
  now rewrite Hb, IH.
Qed.

Lemma for_enumerate_r_ext {A B St} (body : nat -> B -> St -> result St)
    (h : A -> B) (body' : nat -> A -> St -> result St) :
  (forall i x st, body i (h x) st = body' i x st) ->
  forall xs i st,
    for_enumerate_r body i (map h xs) st = for_enumerate_r body' i xs st.
Proof.
  intros Hb xs. induction xs as [|x xs IH]; intros i st; simpl; [reflexivity|].
  rewrite Hb. destruct (body' i x st); [apply IH|reflexivity].
Qed.

Lemma qpower2_body_opp k c a I_0 g i zi f :
  qpower2_body k c a I_0 g i (- zi) f = qpower2_body k c a I_0 g i zi f.
Proof. unfold qpower2_body. now rewrite FloatFacts.abs_opp. Qed.

Lemma ueclipse_body_opp k i zi fl :
  ueclipse_body k i (- zi) fl = ueclipse_body k i zi fl.
Proof. unfold ueclipse_body. now rewrite FloatFacts.abs_opp. Qed.

(** C10: both kernels give the same array for [z] and for [-z]. *)
Theorem kernels_sign_symmetric (z : list float) (k c a : float) :
  qpower2 (map opp z) k c a = qpower2 z k c a /\
  ueclipse (map opp z) k = ueclipse z k.
Proof.
  split.
  - unfold qpower2, ones_like, full_like. rewrite length_map.
    destruct (checked_div (a + 2) (pi * (a - c * a + 2))); [|reflexivity].
    apply for_enumerate_r_ext. intros. apply qpower2_body_opp.
  - unfold ueclipse, ones_like, full_like. rewrite length_map.
    destruct (1 <? k); [reflexivity|]. f_equal.
    apply for_enumerate_ext. intros. apply ueclipse_body_opp.
Qed.

End KernelFacts.

Section KernelExamples.

Open Scope float_scope.

Lemma ueclipse_rejects_k_above_one_witness :
  ((1 <? 2) = true /\
   @ueclipse Example.libm [0.5; 9999] 2
     = Raise (ValueError "ueclipse requires k < 1")) /\
  ((0.5 <=? 1) = true /\
   exists fl, @ueclipse Example.libm [0.5; 9999] 0.5 = Ok fl /\ length fl = 2%nat).
Proof.
  split; (split; [reflexivity|]).
  - apply (proj1 (@ueclipse_rejects_k_above_one Example.libm [0.5; 9999] 2)).
    reflexivity.
  - apply (proj2 (@ueclipse_rejects_k_above_one Example.libm [0.5; 9999] 0.5)).
    reflexivity.
Defined.

(** A negative radius ratio passes the check of [ueclipse]: with
    [k = -0.5] the entry [0] lies in the range [zt <= 1-k] and is set to 0,
    the entry [9999] stays 1, and nothing is raised. *)
Lemma ueclipse_negative_k_counterexample :
  (-0.5 <? 0) = true /\
  @ueclipse Example.libm [0; 9999] (-0.5) = Ok [0; 1].
Proof. split; vm_compute; reflexivity. Qed.

Lemma ueclipse_accepts_negative_k_witness :
  (-0.5 <? 0) = true /\
  exists fl, @ueclipse Example.libm [0; 9999] (-0.5) = Ok fl /\ length fl = 2%nat.
Proof.
  split; [reflexivity|].
  apply (@ueclipse_accepts_negative_k Example.libm [0; 9999] (-0.5)).
  reflexivity.
Defined.

(** The three regimes on a small array: full overlap, the limb, no
    overlap. *)
Example kernels_three_regimes :
  (exists f0 f1,
     @qpower2 Example.libm [0; 1; 1.5] 0.1 0.5 0.7 = Ok [f0; f1; 1] /\
     (f0 <? f1) = true /\ (f1 <? 1) = true) /\
  (exists p,
     @ueclipse Example.libm [0; 0.95; 1.25; -0.95] 0.1 = Ok [0; p; 1; p] /\
     (0 <? p) = true /\ (p <? 1) = true).
Proof.
  split.
  - eexists _, _. split; [vm_compute; reflexivity|]. split; reflexivity.
  - eexists. split; [vm_compute; reflexivity|]. split; reflexivity.
Qed.

End KernelExamples.

(** * [minerr_transit_fit]: the early exits *)

Module MinFacts.

Open Scope float_scope.
Import Np.

Lemma SFcompare_refl (x : spec_float) :
  x <> S754_nan -> SFcompare x x = Some Eq.
Proof.
  destruct x as [[]|[]| |[] m e]; simpl; try congruence; intros _;
    rewrite Z.compare_refl;
    change (PosDef.Pos.compare_cont Eq m m) with (Pos.compare_cont Eq m m);
    now rewrite Pos.compare_cont_refl.
Qed.

Lemma leb_one_not_nan (x : float) : (1 <=? x) = true -> is_nan x = false.
Proof.
  unfold is_nan. rewrite leb_spec, FloatAxioms.eqb_spec. unfold SFleb, SFeqb.
  intros H. rewrite SFcompare_refl; [reflexivity|].
  intros E. rewrite E in H.
  now destruct (Prim2SF 1).
Qed.

Lemma SFcompare_one_eq (x : spec_float) :
  SFcompare (Prim2SF 1) x = Some Eq -> x = Prim2SF 1.
Proof.
  change (Prim2SF 1) with (S754_finite false 4503599627370496 (-52)).
  unfold SFcompare.
  destruct x as [[]|[]| |[] m e]; try discriminate.
  destruct (Z.compare_spec (-52) e) as [<-| |]; try discriminate.
  intros [= H].
  change (Pos.compare_cont Eq 4503599627370496 m = Eq) in H.
  apply Pos.compare_eq in H. now subst.
Qed.

Lemma between_one (x : float) :
  (1 <=? x) = true -> (1 <? x) = false -> x = 1.
Proof.
  rewrite leb_spec, ltb_spec. unfold SFleb, SFltb. intros H1 H2.
  apply Prim2SF_inj, SFcompare_one_eq.
  now destruct (SFcompare (Prim2SF 1) (Prim2SF x)) as [[]|].
Qed.

Lemma minimum_above_one (acc y : float) :
  (1 <=? acc) = true -> (1 <=? y) = true ->
  (1 <=? minimum acc y) = true /\
  (acc = 1 \/ y = 1 -> minimum acc y = 1).
Proof.
  intros Ha Hy. unfold minimum.
  rewrite (leb_one_not_nan _ Ha), (leb_one_not_nan _ Hy).
  destruct (y <? acc) eqn:E.
  - split; [exact Hy|]. intros [->| ->]; [|reflexivity].
    now rewrite (FloatFacts.leb_true_ltb_flip _ _ Hy) in E.
  - split; [exact Ha|]. intros [->| ->]; [reflexivity|].
    now apply between_one.
Qed.

Lemma fold_minimum_one (xs : list float) : forall acc,
  (1 <=? acc) = true ->
  Forall (fun x => (1 <=? x) = true) xs ->
  acc = 1 \/ In 1 xs ->
  fold_left minimum xs acc = 1.
Proof.
  induction xs as [|y xs IH]; intros acc Ha Hxs Hone; simpl.
  - now destruct Hone.
  - apply Forall_cons in Hxs as [Hy Hxs].
    destruct (minimum_above_one acc y Ha Hy) as [Hm Hm1].
    apply IH; [exact Hm|exact Hxs|].
    destruct Hone as [->|[->|Hin]]; auto.
Qed.

(** [np.min] of an array whose entries are all at least 1, one of them
    being 1, is 1. *)
Lemma min_one (model : list float) :
  Forall (fun x => (1 <=? x) = true) model -> In 1 model ->
  Np.min model = Ok 1.
Proof.
  destruct model as [|x xs]; intros Hall Hin; [now destruct Hin|].
  apply Forall_cons in Hall as [Hx Hxs]. simpl. f_equal.
  apply fold_minimum_one; [exact Hx|exact Hxs|].
  destruct Hin as [->|Hin]; auto.
Qed.

Lemma min_flat (model : list float) :
  model <> [] -> Forall (fun x => x = 1) model -> Np.min model = Ok 1.
Proof.
  intros Hne Hall. apply min_one.
  - eapply Forall_impl; [exact Hall|]. now intros x ->.
  - destruct model as [|x xs]; [congruence|].
    apply Forall_cons in Hall as [-> _]. now left.
Qed.

End MinFacts.

Section MinerrFacts.

Context {ML : MathLib} {SP : SciPy}.
Open Scope float_scope.
Import Np.

(** The flat-model exit: nothing is evaluated before it. *)
Lemma minerr_exit_at_min_one fuel flux sigma model :
  (3 <= length flux)%nat -> Np.min model = Ok 1 ->
  minerr_transit_fit fuel flux sigma model = ([], Some (Ok (0, 0))).
Proof.
  intros HN Hmin. unfold minerr_transit_fit, minerr_body.
  destruct (Nat.ltb_spec (length flux) 3) as [Hlt|_]; [lia|].
  unfold mbind, lift. rewrite Hmin. reflexivity.
Qed.

(** C3: with at least 3 points and a model whose smallest entry is exactly
    1, entries above 1 allowed, [minerr_transit_fit] returns [(0, 0)] at
    once: no likelihood is evaluated and no optimizer is called. *)
Theorem minerr_min_one_returns_zero fuel flux sigma model :
  (3 <= length flux)%nat ->
  Forall (fun x => (1 <=? x) = true) model -> In 1 model ->
  minerr_transit_fit fuel flux sigma model = ([], Some (Ok (0, 0))).
Proof.
  intros HN Hall Hin.
  apply minerr_exit_at_min_one; [exact HN|now apply MinFacts.min_one].
Qed.

(** C8: with at least 3 points and a model that is 1 everywhere,
    [minerr_transit_fit] returns [(0, 0)] for every flux and sigma. *)
Theorem minerr_flat_model_returns_zero fuel flux sigma model :
  (3 <= length flux)%nat ->
  model <> [] -> Forall (fun x => x = 1) model ->
  minerr_transit_fit fuel flux sigma model = ([], Some (Ok (0, 0))).
Proof.
  intros HN Hne Hall.
  apply minerr_exit_at_min_one; [exact HN|now apply MinFacts.min_flat].
Qed.

End MinerrFacts.

Section MinerrExamples.

Open Scope float_scope.

Lemma minerr_min_one_returns_zero_witness :
  (3 <= length [0.5; 0.25; 0.75]%float)%nat /\
  Forall (fun x => (1 <=? x) = true) [1.5; 1; 2] /\ In 1 [1.5; 1; 2] /\
  @minerr_transit_fit Example.libm Example.scipy 0
      [0.5; 0.25; 0.75] (Scalar 0.125) [1.5; 1; 2]
    = ([], Some (Ok (0, 0))).
Proof.
  assert (H3 : (3 <= length [0.5; 0.25; 0.75]%float)%nat) by (simpl; lia).
  assert (Hall : Forall (fun x => (1 <=? x) = true) [1.5; 1; 2])
    by (repeat constructor).
  assert (Hin : In 1 [1.5; 1; 2]) by (simpl; auto).
  split; [exact H3|]. split; [assumption|]. split; [assumption|].
  exact (@minerr_min_one_returns_zero Example.libm Example.scipy 0
           [0.5; 0.25; 0.75] (Scalar 0.125) [1.5; 1; 2] H3 Hall Hin).
Defined.

Lemma minerr_flat_model_returns_zero_witness :
  (3 <= length [0.5; 0.25; 0.75]%float)%nat /\
  [1; 1; 1] <> [] /\ Forall (fun x => x = 1) [1; 1; 1] /\
  @minerr_transit_fit Example.libm Example.scipy 0
      [0.5; 0.25; 0.75] (Array [0.125; 0.25; 0.5]) [1; 1; 1]
    = ([], Some (Ok (0, 0))).
Proof.
  assert (H3 : (3 <= length [0.5; 0.25; 0.75]%float)%nat) by (simpl; lia).
  assert (Hne : [1; 1; 1] <> []) by discriminate.
  assert (Hall : Forall (fun x => x = 1) [1; 1; 1]) by (repeat constructor).
  split; [exact H3|]. split; [assumption|]. split; [assumption|].
  exact (@minerr_flat_model_returns_zero Example.libm Example.scipy 0
           [0.5; 0.25; 0.75] (Array [0.125; 0.25; 0.5]) [1; 1; 1] H3 Hne Hall).
Defined.

End MinerrExamples.

(** * [minerr_transit_fit]: the halving loop and its floor *)

Section HalvingLoop.

Context {ML : MathLib} {SP : SciPy}.
Open Scope float_scope.
Import Np.

Variables (flux : list float) (sigma : operand) (model : list float).

Lemma like_ok s v t :
  _negloglike s flux sigma model = Ok v ->
  like flux sigma model s t = (t ++ [EvLike s], Some (Ok v)).
Proof. intros H. unfold like, mbind, tell, lift. now rewrite H. Qed.

Lemma bracket_down_floor fa : forall n fuel s fb t,
  (n <= fuel)%nat ->
  (fa <? fb) = true ->
  floor_after s n = true ->
  Forall (worse_than flux sigma model fa) (halvings (0.5 * s) n) ->
  bracket_down flux sigma model fuel fa s fb t
    = (t ++ map EvLike (halvings (0.5 * s) n), Some (Ok None)).
Proof.
  induction n as [|n IH]; intros fuel s fb t Hfuel Hfb Hfloor Hworse.
  - simpl in *. destruct fuel; simpl; rewrite Hfb, Hfloor;
      unfold mret; now rewrite app_nil_r.
  - destruct fuel as [|fuel]; [lia|].
    simpl in Hfloor. apply andb_true_iff in Hfloor as [Hs Hfloor].
    apply negb_true_iff in Hs.
    simpl in Hworse. apply Forall_cons in Hworse as [(v & Hv & Hfv) Hworse].
    simpl. rewrite Hfb, Hs. unfold mbind at 1.
    rewrite (like_ok _ _ _ Hv).
    rewrite (IH fuel (0.5 * s) v (t ++ [EvLike (0.5 * s)]));
      [|lia|exact Hfv|exact Hfloor|exact Hworse].
    now rewrite <- app_assoc.
Qed.


End HalvingLoop.

Section HalvingTotal.

Context {ML : MathLib} {SP : SciPy}.
Open Scope float_scope.

Variables (flux : list float) (sigma : operand) (model : list float).

(** The halving loop ends: from a trial point that reaches the floor after
    [n] halvings, [n] rounds of fuel are enough, whatever the likelihood
    values are. *)
Lemma bracket_down_terminates fa : forall n fuel s fb t,
  (n <= fuel)%nat -> floor_after s n = true ->
  exists t' r, bracket_down flux sigma model fuel fa s fb t = (t', Some r).
Proof.
  induction n as [|n IH]; intros fuel s fb t Hfuel Hfloor.
  - simpl in Hfloor.
    destruct fuel; simpl; rewrite Hfloor;
      destruct (fa <? fb); unfold mret; eauto.
  - destruct fuel as [|fuel]; [lia|].
    simpl in Hfloor. apply andb_true_iff in Hfloor as [Hs Hfloor].
    apply negb_true_iff in Hs.
    simpl. rewrite Hs. destruct (fa <? fb); [|unfold mret; eauto].
    unfold mbind at 1. unfold like, mbind, tell, lift.
    destruct (_negloglike (0.5 * s) flux sigma model) as [v|e]; [|eauto].
    apply IH; [lia|exact Hfloor].
Qed.

End HalvingTotal.

Section HalvingExample.

Open Scope float_scope.

Ltac worse_by_evaluation :=
  match goal with
  | |- @worse_than ?ml ?flux ?sigma ?model ?fa ?s =>
      let r := eval vm_compute in (@_negloglike ml s flux sigma model) in
      match r with
      | Ok ?v => exists v; split; [vm_compute; reflexivity|reflexivity]
      end
  end.


Ltac no_better_by_evaluation :=
  match goal with
  | |- exists v, @_negloglike ?ml ?s ?flux ?sigma ?model = Ok v /\ _ =>
      let r := eval vm_compute in (@_negloglike ml s flux sigma model) in
      match r with
      | Ok ?v => exists v; split; [vm_compute; reflexivity|reflexivity]
      end
  end.


End HalvingExample.

(** * Rounding of binary64 sums never crosses a representable number *)

Module Round.

Import Sf.
Local Open Scope Z_scope.

Lemma fexp_eq (e : Z) : fexp prec emax e = Z.max (e - 53) (-1074).
Proof. reflexivity. Qed.

Lemma digits2_bounds (m : positive) :
  2 ^ (Z.pos (digits2_pos m) - 1) <= Z.pos m < 2 ^ Z.pos (digits2_pos m).
Proof.
  induction m as [m IH|m IH|]; cbn [digits2_pos]; [| |simpl; lia];
    rewrite Pos2Z.inj_succ;
    replace (Z.succ (Z.pos (digits2_pos m)) - 1) with (Z.pos (digits2_pos m)) by lia;
    rewrite Z.pow_succ_r by lia;
    replace (2 ^ Z.pos (digits2_pos m))
      with (2 * 2 ^ (Z.pos (digits2_pos m) - 1)) in *
      by (rewrite <- Z.pow_succ_r by lia; f_equal; lia);
    lia.
Qed.

(** The shifted record: quotient and exactness. *)

Lemma shr_1_m (rec : shr_record) :
  0 <= shr_m rec -> shr_m (shr_1 rec) = shr_m rec / 2.
Proof.
  destruct rec as [m r s]. cbn [shr_m]. intros Hm.
  rewrite <- Z.div2_div.
  destruct m as [|[p|p|]|p]; try reflexivity; lia.
Qed.

Lemma shr_1_inexact (rec : shr_record) :
  0 <= shr_m rec ->
  inexact (shr_1 rec) = Z.odd (shr_m rec) || inexact rec.
Proof.
  destruct rec as [m r s]. unfold inexact. cbn [shr_m]. intros Hm.
  destruct m as [|[p|p|]|p]; try reflexivity; lia.
Qed.

Lemma iter_shr (p : positive) : forall rec,
  0 <= shr_m rec ->
  shr_m (SpecFloat.iter_pos shr_1 p rec) = shr_m rec / 2 ^ Z.pos p /\
  (inexact rec = false -> (2 ^ Z.pos p | shr_m rec) ->
   inexact (SpecFloat.iter_pos shr_1 p rec) = false).
Proof.
  induction p as [p IH|p IH|]; intros rec Hm; cbn [SpecFloat.iter_pos];
    try assert (Hpow : 0 < 2 ^ Z.pos p) by (apply Z.pow_pos_nonneg; lia).
  - assert (H1 : 0 <= shr_m (shr_1 rec)) by (rewrite shr_1_m by lia; now apply Z.div_pos).
    destruct (IH (shr_1 rec) H1) as [E1 X1].
    assert (H2 : 0 <= shr_m (SpecFloat.iter_pos shr_1 p (shr_1 rec)))
      by (rewrite E1; apply Z.div_pos; lia).
    destruct (IH _ H2) as [E2 X2].
    assert (Epow : 2 ^ Z.pos p~1 = 2 * 2 ^ Z.pos p * 2 ^ Z.pos p).
    { rewrite (Pos2Z.inj_xI p).
      replace (2 * Z.pos p + 1) with (1 + Z.pos p + Z.pos p) by lia.
      rewrite !Z.pow_add_r, Z.pow_1_r by lia. ring. }
    split.
    + rewrite E2, E1. rewrite shr_1_m by lia.
      rewrite !Z.div_div by nia. rewrite Epow. f_equal. ring.
    + intros Hx [c Hc]. rewrite Epow in Hc.
      apply X2.
      * apply X1.
        -- rewrite shr_1_inexact, Hx, orb_false_r by lia.
           rewrite Hc. replace (c * (2 * 2 ^ Z.pos p * 2 ^ Z.pos p))
             with (2 * (c * 2 ^ Z.pos p * 2 ^ Z.pos p)) by ring.
           apply Z.odd_even.
        -- rewrite shr_1_m by lia. exists (c * 2 ^ Z.pos p).
           rewrite Hc. replace (c * (2 * 2 ^ Z.pos p * 2 ^ Z.pos p))
             with ((c * 2 ^ Z.pos p * 2 ^ Z.pos p) * 2) by ring.
           rewrite Z.div_mul by lia. ring.
      * rewrite E1, shr_1_m by lia. exists c.
        rewrite Hc, Z.div_div by lia.
        replace (c * (2 * 2 ^ Z.pos p * 2 ^ Z.pos p))
          with ((c * 2 ^ Z.pos p) * (2 * 2 ^ Z.pos p)) by ring.
        rewrite Z.div_mul by lia. ring.
  - destruct (IH rec Hm) as [E1 X1].
    assert (H2 : 0 <= shr_m (SpecFloat.iter_pos shr_1 p rec))
      by (rewrite E1; apply Z.div_pos; lia).
    destruct (IH _ H2) as [E2 X2].
    assert (Epow : 2 ^ Z.pos p~0 = 2 ^ Z.pos p * 2 ^ Z.pos p).
    { now rewrite (Pos2Z.inj_xO p), Z.pow_twice_r. }
    split.
    + rewrite E2, E1, Z.div_div by lia. now rewrite Epow.
    + intros Hx [c Hc]. rewrite Epow in Hc.
      apply X2.
      * apply X1; [exact Hx|]. exists (c * 2 ^ Z.pos p). rewrite Hc. ring.
      * rewrite E1. exists c. rewrite Hc, Z.mul_assoc, Z.div_mul by lia. ring.
  - split.
    + rewrite shr_1_m by lia. now rewrite Z.pow_1_r.
    + intros Hx [c Hc]. rewrite shr_1_inexact, Hx, orb_false_r by lia.
      rewrite Hc, Z.pow_1_r, Z.mul_comm. apply Z.odd_even.
Qed.

Lemma loc_exact (rec : shr_record) :
  inexact rec = false -> loc_of_shr_record rec = loc_Exact.
Proof. destruct rec as [m [] []]; unfold inexact; simpl; congruence. Qed.

Lemma round_nearest_even_range (q : Z) (l : location) :
  q <= round_nearest_even q l <= q + 1.
Proof. destruct l as [|[]]; simpl; try lia. destruct (Z.even q); lia. Qed.


Lemma pow2_pos (z : Z) : 0 <= z -> 0 < 2 ^ z.
Proof. intros. apply Z.pow_pos_nonneg; lia. Qed.

Lemma pow2_ge_2 (z : Z) : 0 < z -> 2 <= 2 ^ z.
Proof.
  intros Hz. replace z with (1 + (z - 1)) by lia.
  rewrite Z.pow_add_r, Z.pow_1_r by lia.
  pose proof (pow2_pos (z - 1) ltac:(lia)). lia.
Qed.

Lemma scaled_pos m e : -1074 <= e -> 0 < scaled m e.
Proof. intros He. unfold scaled. pose proof (pow2_pos (e + 1074) ltac:(lia)). nia. Qed.

(** What [bounded] says of a mantissa and an exponent. *)
Lemma bounded_inv (m : positive) (e : Z) :
  bounded prec emax m e = true ->
  -1074 <= e <= 971 /\ Z.pos m < 2 ^ 53 /\ (-1074 < e -> 2 ^ 52 <= Z.pos m).
Proof.
  unfold bounded, canonical_mantissa. rewrite fexp_eq.
  intros H. apply andb_true_iff in H as [Hc He].
  apply Z.eqb_eq in Hc. apply Z.leb_le in He.
  change (emax - prec) with 971 in He.
  pose proof (digits2_bounds m) as [Hlo Hhi].
  split; [lia|]. split.
  - eapply Z.lt_le_trans; [exact Hhi|]. apply Z.pow_le_mono_r; lia.
  - intros Hn. replace (Z.pos (digits2_pos m)) with 53 in Hlo by lia. exact Hlo.
Qed.

Lemma scaled_below_top m e : bounded prec emax m e = true -> scaled m e < top.
Proof.
  intros H. apply bounded_inv in H as (He & Hm & _). unfold scaled, top.
  assert (Etop : 2 ^ 2098 = 2 ^ 53 * 2 ^ 2045)
    by (rewrite <- Z.pow_add_r by lia; reflexivity).
  rewrite Etop.
  assert (2 ^ (e + 1074) <= 2 ^ 2045) by (apply Z.pow_le_mono_r; lia).
  pose proof (pow2_pos (e + 1074) ltac:(lia)). nia.
Qed.

(** On valid floats, a smaller exponent is a smaller value. *)
Lemma scaled_lt_exponent m1 e1 m2 e2 :
  bounded prec emax m1 e1 = true -> bounded prec emax m2 e2 = true ->
  e1 < e2 -> scaled m1 e1 < scaled m2 e2.
Proof.
  intros H1 H2 Hlt.
  apply bounded_inv in H1 as (He1 & Hm1 & _).
  apply bounded_inv in H2 as (He2 & _ & Hm2).
  specialize (Hm2 ltac:(lia)). unfold scaled.
  replace (e2 + 1074) with ((e1 + 1074) + (e2 - e1)) by lia.
  rewrite (Z.pow_add_r 2 (e1 + 1074) (e2 - e1)) by lia.
  pose proof (pow2_pos (e1 + 1074) ltac:(lia)) as HP.
  pose proof (pow2_ge_2 (e2 - e1) ltac:(lia)) as HD.
  change (2 ^ 53) with (2 * 2 ^ 52) in Hm1.
  set (P := 2 ^ (e1 + 1074)) in *. set (D := 2 ^ (e2 - e1)) in *.
  set (B := 2 ^ 52) in *.
  assert (Z.pos m1 * P < 2 * B * P) by nia.
  assert (2 * B <= Z.pos m2 * D) by nia.
  nia.
Qed.

Lemma compare_scaled m1 e1 m2 e2 :
  bounded prec emax m1 e1 = true -> bounded prec emax m2 e2 = true ->
  match e1 ?= e2 with
  | Lt => Lt
  | Gt => Gt
  | Eq => PosDef.Pos.compare_cont Eq m1 m2
  end = (scaled m1 e1 ?= scaled m2 e2).
Proof.
  intros H1 H2. symmetry.
  destruct (Z.compare_spec e1 e2) as [->|Hlt|Hgt].
  - unfold scaled.
    pose proof (proj1 (bounded_inv _ _ H2)).
    pose proof (pow2_pos (e2 + 1074) ltac:(lia)).
    change (PosDef.Pos.compare_cont Eq m1 m2) with (Z.pos m1 ?= Z.pos m2).
    destruct (Z.compare_spec (Z.pos m1) (Z.pos m2)) as [E|L|G].
    + rewrite E. apply Z.compare_refl.
    + apply Z.compare_lt_iff. nia.
    + apply Z.compare_gt_iff. nia.
  - apply Z.compare_lt_iff. now apply scaled_lt_exponent.
  - apply Z.compare_gt_iff. now apply scaled_lt_exponent.
Qed.

(** The order of valid non-negative floats is the order of their values. *)
Lemma SFcompare_ext (x y : spec_float) (vx vy : Z) :
  valid_binary x = true -> valid_binary y = true ->
  ext x = Some vx -> ext y = Some vy ->
  SFcompare x y = Some (vx ?= vy).
Proof.
  intros Hx Hy Ex Ey.
  destruct x as [sx|[]| |[] mx ex]; try discriminate;
    destruct y as [sy|[]| |[] my ey]; try discriminate;
    simpl in Ex, Ey; injection Ex as <-; injection Ey as <-;
    cbn [SFcompare]; f_equal; symmetry.
  all: try reflexivity.
  all: try (apply Z.compare_lt_iff;
            first [apply scaled_pos; apply bounded_inv in Hy; lia
                  |now apply scaled_below_top]).
  all: try (apply Z.compare_gt_iff;
            first [apply scaled_pos; apply bounded_inv in Hx; lia
                  |now apply scaled_below_top]).
  all: try apply Z.compare_refl.
  symmetry. now apply compare_scaled.
Qed.


(** ** The two stages of [binary_round_aux] *)

Lemma binary_round_aux_finish (sx : bool) (mx ex : Z) (lx : location) :
  binary_round_aux prec emax sx mx ex lx =
    let '(mrs, e1) := shr_fexp prec emax mx ex lx in
    finish sx (round_nearest_even (shr_m mrs) (loc_of_shr_record mrs)) e1.
Proof.
  unfold binary_round_aux, finish.
  now destruct (shr_fexp prec emax mx ex lx) as [mrs e1].
Qed.

Lemma shr_fexp_canonical (mz : positive) (ez : Z) (l : location) :
  fexp prec emax (Z.pos (digits2_pos mz) + ez) = ez ->
  shr_fexp prec emax (Z.pos mz) ez l = (shr_record_of_loc (Z.pos mz) l, ez).
Proof.
  intros Hc. unfold shr_fexp. cbn [Zdigits2]. rewrite Hc, Z.sub_diag.
  reflexivity.
Qed.

Lemma finish_canonical (sx : bool) (mz : positive) (ez : Z) :
  fexp prec emax (Z.pos (digits2_pos mz) + ez) = ez ->
  finish sx (Z.pos mz) ez =
    if ez <=? 971 then S754_finite sx mz ez else S754_infinity sx.
Proof.
  intros Hc. unfold finish. now rewrite shr_fexp_canonical.
Qed.

(** A mantissa rounded up to [2^53] moves to the next exponent. *)
Lemma finish_carry (sx : bool) (ez : Z) :
  -1074 <= ez ->
  finish sx (2 ^ 53) ez =
    if ez + 1 <=? 971 then S754_finite sx (2 ^ 52)%positive (ez + 1)
    else S754_infinity sx.
Proof.
  intros He. unfold finish, shr_fexp.
  change (Zdigits2 (2 ^ 53)) with 54. rewrite fexp_eq.
  replace (Z.max (54 + ez - 53) (-1074) - ez) with 1 by lia.
  reflexivity.
Qed.

Lemma digits2_unique (m : positive) (k : Z) :
  2 ^ (k - 1) <= Z.pos m < 2 ^ k -> Z.pos (digits2_pos m) = k.
Proof.
  intros [Hlo Hhi]. pose proof (digits2_bounds m) as [Dlo Dhi].
  assert (0 < k).
  { destruct (Z.lt_trichotomy k 0) as [Hk|[->|Hk]]; [|simpl in Hhi; lia|assumption].
    rewrite (Z.pow_neg_r 2 k) in Hhi by lia. lia. }
  assert (k - 1 < Z.pos (digits2_pos m))
    by (apply (Z.pow_lt_mono_r_iff 2); lia).
  assert (Z.pos (digits2_pos m) - 1 < k)
    by (apply (Z.pow_lt_mono_r_iff 2); lia).
  lia.
Qed.


(** ** Rounding stays on the same side of every representable number *)

Lemma same_side_refl x : same_side x x.
Proof. intros mf ef _. split; auto. Qed.

Lemma same_side_trans x y v : same_side x y -> same_side y v -> same_side x v.
Proof.
  intros H1 H2 mf ef Hb.
  destruct (H1 mf ef Hb) as [L1 U1], (H2 mf ef Hb) as [L2 U2]. split; auto.
Qed.

Lemma rounds_to_trans x y R : same_side x y -> rounds_to y R -> rounds_to x R.
Proof.
  intros H (v & Hv & Hs). exists v. split; [exact Hv|].
  now apply same_side_trans with y.
Qed.

(** A canonical mantissa is kept; beyond the largest exponent the result is
    the infinity. *)
Lemma canonical_result (mz : positive) (ez : Z) :
  -1074 <= ez ->
  fexp prec emax (Z.pos (digits2_pos mz) + ez) = ez ->
  rounds_to (scaled mz ez)
    (if ez <=? 971 then S754_finite false mz ez else S754_infinity false).
Proof.
  intros He Hc. destruct (Z.leb_spec ez 971) as [Hle|Hgt].
  - exists (scaled mz ez). split; [reflexivity|apply same_side_refl].
  - exists top. split; [reflexivity|]. intros mf ef Hb.
    pose proof (scaled_below_top _ _ Hb) as Hf.
    assert (Htop : top <= scaled mz ez).
    { rewrite fexp_eq in Hc.
      pose proof (digits2_bounds mz) as [Hlo _].
      replace (Z.pos (digits2_pos mz) - 1) with 52 in Hlo by lia.
      unfold scaled, top.
      assert (Etop : 2 ^ 2098 = 2 ^ 52 * 2 ^ 2046)
        by (rewrite <- Z.pow_add_r by lia; reflexivity).
      rewrite Etop.
      assert (2 ^ 2046 <= 2 ^ (ez + 1074)) by (apply Z.pow_le_mono_r; lia).
      pose proof (pow2_pos 2046 ltac:(lia)).
      set (A := 2 ^ 2046) in *. set (B := 2 ^ (ez + 1074)) in *.
      set (C := 2 ^ 52) in *. nia. }
    split; lia.
Qed.

(** The arithmetic of the shift by [p] bits: whichever of the two
    neighbours [q], [q+1] the mantissa is rounded to, no representable
    number lies strictly between the exact value and the rounded one. *)
Lemma shift_same_side (m : positive) (e : Z) (p : positive) (m1 : Z) :
  -1074 <= e ->
  Z.pos (digits2_pos m) = 53 + Z.pos p ->
  Z.pos m / 2 ^ Z.pos p <= m1 <= Z.pos m / 2 ^ Z.pos p + 1 ->
  ((2 ^ Z.pos p | Z.pos m) -> m1 = Z.pos m / 2 ^ Z.pos p) ->
  2 ^ 52 <= Z.pos m / 2 ^ Z.pos p < 2 ^ 53 /\
  same_side (scaled m e) (m1 * 2 ^ (e + Z.pos p + 1074)).
Proof.
  intros He Hd Hm1 Hexact.
  pose proof (pow2_pos (Z.pos p) ltac:(lia)) as HP.
  pose proof (Z.div_mod (Z.pos m) (2 ^ Z.pos p) ltac:(lia)) as Hdm.
  pose proof (Z.mod_pos_bound (Z.pos m) (2 ^ Z.pos p) HP) as Hr.
  set (q := Z.pos m / 2 ^ Z.pos p) in *.
  set (r := Z.pos m mod 2 ^ Z.pos p) in *.
  set (P := 2 ^ Z.pos p) in *.
  assert (Hq : 2 ^ 52 <= q < 2 ^ 53).
  { pose proof (digits2_bounds m) as [Hlo Hhi]. rewrite Hd in Hlo, Hhi.
    replace (53 + Z.pos p - 1) with (52 + Z.pos p) in Hlo by lia.
    rewrite (Z.pow_add_r 2 52 (Z.pos p)) in Hlo by lia.
    rewrite (Z.pow_add_r 2 53 (Z.pos p)) in Hhi by lia.
    fold P in Hlo, Hhi.
    set (A := 2 ^ 52) in *. set (B := 2 ^ 53) in *. nia. }
  split; [exact Hq|].
  assert (Hm1' : r = 0 -> m1 = q).
  { intros Hr0. apply Hexact. exists q. lia. }
  replace (e + Z.pos p + 1074) with (Z.pos p + (e + 1074)) by lia.
  rewrite (Z.pow_add_r 2 (Z.pos p) (e + 1074)) by lia. fold P.
  pose proof (pow2_pos (e + 1074) ltac:(lia)) as HE.
  intros mf ef Hb. apply bounded_inv in Hb as (Hef & Hmf & Hmf').
  unfold scaled.
  destruct (Z.le_gt_cases (e + Z.pos p) ef) as [Hge|Hlt].
  - (* the representable number is a multiple of the target unit *)
    replace (ef + 1074) with ((ef - e - Z.pos p) + (Z.pos p + (e + 1074))) by lia.
    rewrite (Z.pow_add_r 2 (ef - e - Z.pos p)) by lia.
    rewrite (Z.pow_add_r 2 (Z.pos p) (e + 1074)) by lia. fold P.
    pose proof (pow2_pos (ef - e - Z.pos p) ltac:(lia)) as HG.
    set (G := 2 ^ (ef - e - Z.pos p)) in *.
    set (TE := 2 ^ (e + 1074)) in *.
    set (g := Z.pos mf * G).
    replace (Z.pos mf * (G * (P * TE))) with (g * P * TE) by (unfold g; ring).
    replace (m1 * (P * TE)) with (m1 * P * TE) by ring.
    clearbody g. clear Hmf Hmf' HG.
    split; intros Hx.
    + apply Z.mul_le_mono_pos_r in Hx; [|exact HE].
      assert (g < q + 1).
      { apply (Z.mul_lt_mono_pos_r P); [exact HP|]. lia. }
      apply Z.mul_le_mono_nonneg_r; [lia|].
      apply Z.mul_le_mono_nonneg_r; lia.
    + apply Z.mul_le_mono_pos_r in Hx; [|exact HE].
      apply Z.mul_le_mono_nonneg_r; [lia|].
      apply Z.mul_le_mono_nonneg_r; [lia|].
      destruct (Z.eq_dec r 0) as [Hr0|Hr0].
      * rewrite (Hm1' Hr0).
        apply (Z.mul_le_mono_pos_r _ _ P); [exact HP|]. lia.
      * assert (q < g); [|lia].
        apply (Z.mul_lt_mono_pos_r P); [exact HP|]. lia.
  - (* the representable number is below the binade of the result *)
    assert (Hlow : Z.pos mf * 2 ^ (ef + 1074) < q * (P * 2 ^ (e + 1074))).
    { replace (P * 2 ^ (e + 1074)) with (2 ^ (e + Z.pos p + 1074))
        by (unfold P; rewrite <- Z.pow_add_r by lia; f_equal; lia).
      assert (2 * 2 ^ (ef + 1074) <= 2 ^ (e + Z.pos p + 1074)).
      { rewrite <- (Z.pow_succ_r 2 (ef + 1074)) by lia.
        apply Z.pow_le_mono_r; lia. }
      pose proof (pow2_pos (ef + 1074) ltac:(lia)).
      change (2 ^ 53) with (2 * 2 ^ 52) in Hmf.
      set (A := 2 ^ 52) in *. set (F := 2 ^ (ef + 1074)) in *.
      set (T := 2 ^ (e + Z.pos p + 1074)) in *.
      assert (Z.pos mf * F < 2 * A * F) by nia.
      assert (A * (2 * F) <= q * T) by nia. lia. }
    set (TE := 2 ^ (e + 1074)) in *.
    assert (Hqm : q * (P * TE) <= Z.pos m * TE).
    { rewrite Z.mul_assoc. apply Z.mul_le_mono_nonneg_r; lia. }
    assert (Hqv : q * (P * TE) <= m1 * (P * TE)).
    { apply Z.mul_le_mono_nonneg_r; [|lia].
      apply Z.mul_nonneg_nonneg; lia. }
    split; intros Hx; lia.
Qed.


(** ** [binary_round] on a positive mantissa *)

Lemma shl_value (m dd : positive) :
  Z.pos (PosDef.Pos.iter xO m dd) = Z.pos m * 2 ^ Z.pos dd.
Proof.
  change (PosDef.Pos.iter xO m dd) with (shift_pos dd m).
  rewrite shift_pos_correct. change (Z.pow_pos 2 dd) with (2 ^ Z.pos dd). ring.
Qed.

Lemma shl_digits (m dd : positive) :
  Z.pos (digits2_pos (PosDef.Pos.iter xO m dd))
  = Z.pos (digits2_pos m) + Z.pos dd.
Proof.
  change (PosDef.Pos.iter xO m dd) with (Pos.iter xO m dd).
  induction dd as [|dd IH] using Pos.peano_ind.
  - simpl. lia.
  - rewrite Pos.iter_succ. cbn [digits2_pos]. lia.
Qed.

Theorem binary_round_rounds (m : positive) (e : Z) :
  -1074 <= e ->
  rounds_to (scaled m e) (binary_round prec emax false m e).
Proof.
  intros He. unfold binary_round. rewrite fexp_eq.
  destruct (Z.le_gt_cases (Z.pos (digits2_pos m)) 53) as [Hd|Hd].
  - (* at most 53 bits: nothing is lost *)
    unfold shl_align.
    destruct (Z.max (Z.pos (digits2_pos m) + e - 53) (-1074) - e) as [|dd|dd] eqn:Hdiff.
    + assert (Hc : fexp prec emax (Z.pos (digits2_pos m) + e) = e)
        by (rewrite fexp_eq; lia).
      rewrite binary_round_aux_finish, (shr_fexp_canonical _ _ _ Hc).
      cbn [shr_record_of_loc shr_m loc_of_shr_record round_nearest_even].
      rewrite (finish_canonical _ _ _ Hc). now apply canonical_result.
    + lia.
    + set (et := Z.max (Z.pos (digits2_pos m) + e - 53) (-1074)) in *.
      assert (Het : et + Z.pos dd = e) by lia.
      assert (Hc : fexp prec emax
                     (Z.pos (digits2_pos (PosDef.Pos.iter xO m dd)) + et) = et).
      { rewrite fexp_eq, shl_digits.
        replace (Z.pos (digits2_pos m) + Z.pos dd + et)
          with (Z.pos (digits2_pos m) + e) by lia.
        reflexivity. }
      rewrite binary_round_aux_finish, (shr_fexp_canonical _ _ _ Hc).
      cbn [shr_record_of_loc shr_m loc_of_shr_record round_nearest_even].
      rewrite (finish_canonical _ _ _ Hc).
      replace (scaled m e) with (scaled (PosDef.Pos.iter xO m dd) et).
      * apply canonical_result; [lia|exact Hc].
      * unfold scaled. rewrite shl_value, <- Het.
        replace (et + Z.pos dd + 1074) with (Z.pos dd + (et + 1074)) by lia.
        rewrite (Z.pow_add_r 2 (Z.pos dd)) by lia. ring.
  - (* more than 53 bits: shift right and round *)
    unfold shl_align.
    destruct (Z.max (Z.pos (digits2_pos m) + e - 53) (-1074) - e) as [|p|p] eqn:Hdiff;
      [lia| |lia].
    assert (Hp : Z.pos (digits2_pos m) = 53 + Z.pos p) by lia.
    rewrite binary_round_aux_finish. unfold shr_fexp. cbn [Zdigits2].
    rewrite fexp_eq, Hdiff. cbn [shr shr_record_of_loc].
    set (rec0 := {| shr_m := Z.pos m; shr_r := false; shr_s := false |}).
    destruct (iter_shr p rec0 ltac:(simpl; lia)) as [Em Ex].
    cbn [shr_m rec0] in Em.
    set (rec1 := SpecFloat.iter_pos shr_1 p rec0) in *.
    set (m1 := round_nearest_even (shr_m rec1) (loc_of_shr_record rec1)).
    assert (Hm1 : Z.pos m / 2 ^ Z.pos p <= m1 <= Z.pos m / 2 ^ Z.pos p + 1).
    { rewrite <- Em. apply round_nearest_even_range. }
    assert (Hexact : (2 ^ Z.pos p | Z.pos m) -> m1 = Z.pos m / 2 ^ Z.pos p).
    { intros Hdiv. unfold m1.
      rewrite (loc_exact rec1 (Ex eq_refl Hdiv)). exact Em. }
    destruct (shift_same_side m e p m1 He Hp Hm1 Hexact) as [Hq Hside].
    apply (rounds_to_trans _ _ _ Hside).
    destruct (Z.eq_dec m1 (2 ^ 53)) as [E53|N53].
    + rewrite E53, finish_carry by lia.
      replace (2 ^ 53 * 2 ^ (e + Z.pos p + 1074))
        with (scaled (2 ^ 52)%positive (e + Z.pos p + 1)).
      * apply canonical_result; [lia|]. rewrite fexp_eq.
        change (Z.pos (digits2_pos (2 ^ 52))) with 53. lia.
      * unfold scaled.
        replace (e + Z.pos p + 1 + 1074) with (1 + (e + Z.pos p + 1074)) by lia.
        rewrite (Z.pow_add_r 2 1) by lia.
        change (Z.pos (2 ^ 52)) with (2 ^ 52). change (2 ^ 53) with (2 ^ 52 * 2 ^ 1).
        ring.
    + destruct m1 as [|pm1|pm1] eqn:Epm; [lia| |lia].
      assert (Hdig : Z.pos (digits2_pos pm1) = 53)
        by (apply digits2_unique; change (53 - 1) with 52; lia).
      assert (Hc : fexp prec emax (Z.pos (digits2_pos pm1) + (e + Z.pos p))
                   = e + Z.pos p) by (rewrite fexp_eq, Hdig; lia).
      rewrite (finish_canonical _ _ _ Hc).
      apply (canonical_result pm1 (e + Z.pos p)); [lia|exact Hc].
Qed.


(** ** Sums and differences of positive floats *)

Lemma shl_align_value (m : positive) (e ez : Z) :
  -1074 <= ez <= e ->
  Z.pos (fst (shl_align m e ez)) * 2 ^ (ez + 1074) = scaled m e.
Proof.
  intros He. unfold shl_align, scaled.
  destruct (ez - e) as [|d|d] eqn:Hd; cbn [fst].
  - now replace ez with e by lia.
  - lia.
  - rewrite shl_value.
    replace (e + 1074) with (Z.pos d + (ez + 1074)) by lia.
    rewrite (Z.pow_add_r 2 (Z.pos d)) by lia. ring.
Qed.

Lemma SFadd_rounds (mx : positive) (ex : Z) (my : positive) (ey : Z) :
  bounded prec emax mx ex = true -> bounded prec emax my ey = true ->
  rounds_to (scaled mx ex + scaled my ey)
    (SFadd prec emax (S754_finite false mx ex) (S754_finite false my ey)).
Proof.
  intros Hx Hy.
  pose proof (proj1 (bounded_inv _ _ Hx)) as Hex.
  pose proof (proj1 (bounded_inv _ _ Hy)) as Hey.
  cbn [SFadd cond_Zopp].
  set (ez := Z.min ex ey).
  rewrite <- (shl_align_value mx ex ez), <- (shl_align_value my ey ez)
    by (unfold ez; lia).
  rewrite <- Z.mul_add_distr_r, <- Pos2Z.inj_add.
  cbn [binary_normalize].
  apply binary_round_rounds. unfold ez; lia.
Qed.

Lemma SFsub_rounds (mx : positive) (ex : Z) (my : positive) (ey : Z) :
  bounded prec emax mx ex = true -> bounded prec emax my ey = true ->
  scaled my ey < scaled mx ex ->
  rounds_to (scaled mx ex - scaled my ey)
    (SFsub prec emax (S754_finite false mx ex) (S754_finite false my ey)).
Proof.
  intros Hx Hy Hlt.
  pose proof (proj1 (bounded_inv _ _ Hx)) as Hex.
  pose proof (proj1 (bounded_inv _ _ Hy)) as Hey.
  cbn [SFsub cond_Zopp].
  set (ez := Z.min ex ey).
  rewrite <- (shl_align_value mx ex ez), <- (shl_align_value my ey ez) in Hlt |- *
    by (unfold ez; lia).
  rewrite <- Z.mul_sub_distr_r.
  pose proof (pow2_pos (ez + 1074) ltac:(unfold ez; lia)) as HP.
  assert (Hab : Z.pos (fst (shl_align my ey ez)) < Z.pos (fst (shl_align mx ex ez))).
  { apply (Z.mul_lt_mono_pos_r (2 ^ (ez + 1074))); assumption. }
  destruct (Z.pos (fst (shl_align mx ex ez)) - Z.pos (fst (shl_align my ey ez)))
    as [|c|c] eqn:Hc; [lia| |lia].
  cbn [binary_normalize].
  apply binary_round_rounds. unfold ez; lia.
Qed.

(** ** Beyond [1 + k]: neither test of the kernels succeeds *)

Lemma one_bounded : bounded prec emax 4503599627370496 (-52) = true.
Proof. reflexivity. Qed.

Section Beyond.

Variables (mk : positive) (ek : Z).
Hypothesis k_valid : bounded prec emax mk ek = true.
Hypothesis k_below_one : scaled mk ek < scaled 4503599627370496 (-52).

Local Abbreviation K := (S754_finite false mk ek).
Local Abbreviation vone := (scaled 4503599627370496 (-52)).
Local Abbreviation vk := (scaled mk ek).

Lemma one_plus_k : exists v1,
  ext (SFadd prec emax SF_one K) = Some v1 /\ vone <= v1 /\
  forall mz ez, bounded prec emax mz ez = true ->
    v1 < scaled mz ez -> vone + vk < scaled mz ez.
Proof using k_valid.
  destruct (SFadd_rounds _ _ _ _ one_bounded k_valid) as (v1 & E1 & S1).
  exists v1. split; [exact E1|]. split.
  - apply (S1 _ _ one_bounded). pose proof (scaled_pos mk ek).
    apply bounded_inv in k_valid. lia.
  - intros mz ez Hz Hlt.
    destruct (Z.lt_ge_cases (vone + vk) (scaled mz ez)) as [|Hge]; [assumption|].
    apply (S1 _ _ Hz) in Hge. lia.
Qed.

Lemma one_minus_k : exists v3,
  ext (SFsub prec emax SF_one K) = Some v3 /\ v3 <= vone.
Proof using k_valid k_below_one.
  destruct (SFsub_rounds _ _ _ _ one_bounded k_valid k_below_one)
    as (v3 & E3 & S3).
  exists v3. split; [exact E3|].
  apply (S3 _ _ one_bounded). pose proof (scaled_pos mk ek).
  apply bounded_inv in k_valid. lia.
Qed.

Lemma z_minus_one (mz : positive) (ez : Z) :
  bounded prec emax mz ez = true ->
  vone + vk < scaled mz ez ->
  exists v2,
    ext (SFsub prec emax (S754_finite false mz ez) SF_one) = Some v2 /\
    vk <= v2.
Proof using k_valid.
  intros Hz Hlt.
  assert (H1 : vone < scaled mz ez).
  { pose proof (scaled_pos mk ek). apply bounded_inv in k_valid. lia. }
  destruct (SFsub_rounds _ _ _ _ Hz one_bounded H1) as (v2 & E2 & S2).
  exists v2. split; [exact E2|].
  apply (S2 _ _ k_valid). lia.
Qed.

End Beyond.


(** ** From the specification back to the primitive floats *)

Lemma SFltb_ext (x y : spec_float) (vx vy : Z) :
  valid_binary x = true -> valid_binary y = true ->
  ext x = Some vx -> ext y = Some vy ->
  SFltb x y = (vx <? vy).
Proof.
  intros Hx Hy Ex Ey. unfold SFltb, Z.ltb.
  now rewrite (SFcompare_ext _ _ _ _ Hx Hy Ex Ey).
Qed.

Lemma SFleb_ext (x y : spec_float) (vx vy : Z) :
  valid_binary x = true -> valid_binary y = true ->
  ext x = Some vx -> ext y = Some vy ->
  SFleb x y = (vx <=? vy).
Proof.
  intros Hx Hy Ex Ey. unfold SFleb, Z.leb.
  rewrite (SFcompare_ext _ _ _ _ Hx Hy Ex Ey).
  now destruct (vx ?= vy).
Qed.

Lemma ext_abs (x : spec_float) (v : Z) : ext x = Some v -> ext (SFabs x) = Some v.
Proof. destruct x as [s|[]| |[] m e]; simpl; congruence. Qed.

(** Above a positive float there are only non-negative floats. *)
Lemma above_positive (x y : spec_float) (vx : Z) :
  ext x = Some vx -> 0 < vx -> SFltb x y = true -> exists vy, ext y = Some vy.
Proof.
  intros Ex Hx. unfold SFltb.
  destruct x as [sx|[]| |[] mx ex]; try discriminate;
    destruct y as [sy|[]| |[] my ey]; simpl; try discriminate; eauto.
Qed.

(** A float strictly between 0 and 1 is finite and positive. *)
Lemma between_zero_and_one (k : float) :
  (0 <? k)%float = true -> (k <? 1)%float = true ->
  exists mk ek, Prim2SF k = S754_finite false mk ek /\
    bounded prec emax mk ek = true /\
    scaled mk ek < scaled 4503599627370496 (-52).
Proof.
  intros H0 H1. pose proof (Prim2SF_valid k) as Vk.
  rewrite ltb_spec in H0, H1.
  change (Prim2SF 0) with (S754_zero false) in H0.
  change (Prim2SF 1) with SF_one in H1.
  destruct (Prim2SF k) as [s|[]| |[] mk ek] eqn:EK; try discriminate.
  exists mk, ek. split; [reflexivity|]. split; [exact Vk|].
  rewrite (SFltb_ext (S754_finite false mk ek) SF_one _ _ Vk one_bounded
             eq_refl eq_refl) in H1.
  now apply Z.ltb_lt.
Qed.

Theorem beyond_one_plus_k (k zt : float) :
  (0 <? k)%float = true -> (k <? 1)%float = true ->
  (1 + k <? zt)%float = true ->
  (zt <=? 1 - k)%float = false /\ (abs (zt - 1) <? k)%float = false.
Proof.
  intros H0 H1 Hz.
  destruct (between_zero_and_one k H0 H1) as (mk & ek & EK & Vk & Hk1).
  pose proof (Prim2SF_valid zt) as Vz.
  pose proof (Prim2SF_valid (1 + k)) as V1.
  pose proof (Prim2SF_valid (1 - k)) as V3.
  pose proof (Prim2SF_valid (abs (zt - 1))) as V2.
  rewrite ltb_spec in Hz |- *. rewrite leb_spec.
  rewrite abs_spec, sub_spec in V2 |- *. rewrite add_spec in V1, Hz.
  rewrite sub_spec in V3 |- *. rewrite EK in *.
  change (Prim2SF 1) with SF_one in *.
  destruct (one_plus_k mk ek Vk) as (v1 & E1 & Hv1 & Hbeyond).
  destruct (one_minus_k mk ek Vk Hk1) as (v3 & E3 & Hv3).
  assert (Hone : 0 < scaled 4503599627370496 (-52)) by (apply scaled_pos; lia).
  destruct (above_positive _ _ _ E1 ltac:(lia) Hz) as (vz & Ez).
  rewrite (SFltb_ext _ _ _ _ V1 Vz E1 Ez) in Hz. apply Z.ltb_lt in Hz.
  split.
  - rewrite (SFleb_ext _ _ _ _ Vz V3 Ez E3). apply Z.leb_gt. lia.
  - destruct (Prim2SF zt) as [s|[]| |[] mz ez]; try discriminate.
    + simpl in Ez. injection Ez as <-. lia.
    + reflexivity.
    + simpl in Ez. injection Ez as <-.
      destruct (z_minus_one mk ek Vk mz ez Vz (Hbeyond _ _ Vz Hz))
        as (v2 & E2 & Hv2).
      rewrite (SFltb_ext _ (S754_finite false mk ek) _ _ V2 Vk
                 (ext_abs _ _ E2) eq_refl).
      apply Z.ltb_ge. exact Hv2.
Qed.

(** The sentinel 9999 is beyond [1 + k] for every [k] in (0, 1). *)
Lemma sentinel_beyond (k : float) :
  (0 <? k)%float = true -> (k <? 1)%float = true ->
  (1 + k <? abs 9999)%float = true.
Proof.
  intros H0 H1.
  destruct (between_zero_and_one k H0 H1) as (mk & ek & EK & Vk & Hk1).
  pose proof (Prim2SF_valid (1 + k)) as V1.
  rewrite ltb_spec. rewrite add_spec in V1 |- *. rewrite EK in *.
  change (Prim2SF 1) with SF_one in *.
  change (Prim2SF (abs 9999)) with (S754_finite false 5497008383066112 (-39)).
  destruct (SFadd_rounds _ _ _ _ one_bounded Vk) as (v1 & E1 & S1).
  assert (Vtwo : bounded prec emax 4503599627370496 (-51) = true) by reflexivity.
  assert (V9 : bounded prec emax 5497008383066112 (-39) = true) by reflexivity.
  assert (Htwo : scaled 4503599627370496 (-52) + scaled mk ek
                 <= scaled 4503599627370496 (-51)).
  { unfold scaled in *. change (-51 + 1074) with (1 + (-52 + 1074)).
    rewrite (Z.pow_add_r 2 1) by lia. change (2 ^ 1) with 2. lia. }
  apply (S1 _ _ Vtwo) in Htwo.
  rewrite (SFltb_ext _ (S754_finite false 5497008383066112 (-39)) _ _
             V1 V9 E1 eq_refl).
  apply Z.ltb_lt.
  eapply Z.le_lt_trans; [exact Htwo|].
  apply scaled_lt_exponent; [exact Vtwo|exact V9|lia].
Qed.

End Round.

(** * Exact operations: [1 * x], [x / x], [x - x] *)

Module Exact.

Import Sf.
Local Open Scope Z_scope.

(** The product of a canonical mantissa with [2^52], shifted back by 52
    bits, is the mantissa itself. *)
Lemma round_aux_times_one (sx : bool) (mx : positive) (ex : Z) :
  bounded prec emax mx ex = true ->
  binary_round_aux prec emax sx (Z.pos (4503599627370496 * mx)) (-52 + ex)
    loc_Exact
  = S754_finite sx mx ex.
Proof.
  intros Hb. pose proof Hb as Hb'. apply Round.bounded_inv in Hb' as (He & _ & _).
  unfold bounded, canonical_mantissa in Hb.
  apply andb_true_iff in Hb as [Hc _]. apply Z.eqb_eq in Hc.
  change (4503599627370496 * mx)%positive with (PosDef.Pos.iter xO mx 52).
  rewrite Round.binary_round_aux_finish. unfold shr_fexp. cbn [Zdigits2].
  rewrite Round.shl_digits.
  replace (Z.pos (digits2_pos mx) + 52 + (-52 + ex))
    with (Z.pos (digits2_pos mx) + ex) by lia.
  rewrite Hc. replace (ex - (-52 + ex)) with 52 by lia.
  cbn [shr shr_record_of_loc].
  set (rec0 := {| shr_m := Z.pos (PosDef.Pos.iter xO mx 52);
                  shr_r := false; shr_s := false |}).
  destruct (Round.iter_shr 52 rec0 ltac:(simpl; lia)) as [Em Ex].
  cbn [shr_m rec0] in Em, Ex.
  assert (Hdiv : (2 ^ 52 | Z.pos (PosDef.Pos.iter xO mx 52)))
    by (exists (Z.pos mx); apply Round.shl_value).
  rewrite (Round.loc_exact _ (Ex eq_refl Hdiv)).
  cbn [round_nearest_even]. rewrite Em, Round.shl_value.
  rewrite Z.div_mul by (apply Z.pow_nonzero; lia).
  replace (-52 + ex + 52) with ex by lia.
  rewrite (Round.finish_canonical _ _ _ Hc).
  destruct (Z.leb_spec ex 971); [reflexivity|lia].
Qed.

Lemma SFmul_one_l (x : spec_float) :
  valid_binary x = true -> SFmul prec emax SF_one x = x.
Proof.
  intros Hx. destruct x as [s|s| |s m e]; try reflexivity.
  cbn [SFmul SF_one xorb]. now apply round_aux_times_one.
Qed.

(** A finite nonzero float divided by itself is 1. *)
Lemma SFdiv_self (s : bool) (m : positive) (e : Z) :
  SFdiv prec emax (S754_finite s m e) (S754_finite s m e) = SF_one.
Proof.
  cbn [SFdiv]. unfold SFdiv_core_binary. cbn [Zdigits2].
  replace (Z.pos (digits2_pos m) + e - (Z.pos (digits2_pos m) + e)) with 0 by lia.
  rewrite Z.sub_diag.
  change (Z.min (fexp prec emax 0) 0) with (-53).
  change (0 - -53) with 53.
  rewrite Z.shiftl_mul_pow2 by lia.
  pose proof (Z.div_eucl_eq (Z.pos m * 2 ^ 53) (Z.pos m) ltac:(lia)) as Heq.
  pose proof (Z.mod_pos_bound (Z.pos m * 2 ^ 53) (Z.pos m) ltac:(lia)) as Hr.
  unfold Z.modulo in Hr.
  destruct (Z.div_eucl (Z.pos m * 2 ^ 53) (Z.pos m)) as [q r].
  assert (Hq : q = 2 ^ 53) by nia.
  assert (Hr0 : r = 0) by nia.
  subst q r. unfold new_location, new_location_even, new_location_odd.
  destruct (Z.even (Z.pos m)), s; reflexivity.
Qed.

End Exact.

Module ExactFloat.

Open Scope float_scope.

Lemma mul_one_l (x : float) : 1 * x = x.
Proof.
  apply Prim2SF_inj. rewrite mul_spec.
  change (Prim2SF 1) with Sf.SF_one.
  apply Exact.SFmul_one_l, Prim2SF_valid.
Qed.

Lemma square_eq (x : float) : x ^ 2 = x * x.
Proof. change (x ^ 2) with (1 * (x * x)). apply mul_one_l. Qed.

(** [x / x] is 1 or not a number. *)
Lemma div_self (x : float) : x / x = 1 \/ sf_nan (x / x).
Proof.
  unfold sf_nan. rewrite div_spec.
  destruct (Prim2SF x) as [s|s| |s m e] eqn:Ex; auto.
  left. apply Prim2SF_inj. rewrite div_spec, Ex.
  unfold SF64div. rewrite Exact.SFdiv_self. reflexivity.
Qed.

(** [x - x] is zero or not a number. *)
Lemma sub_self (x : float) : sf_zero_or_nan (x - x).
Proof.
  unfold sf_zero_or_nan. rewrite sub_spec. unfold SF64sub.
  destruct (Prim2SF x) as [[]|[]| |[] m e]; cbn [SFsub cond_Zopp]; try exact I;
    rewrite Z.sub_diag; exact I.
Qed.

Lemma add_zero_or_nan (x y : float) :
  sf_zero_or_nan x -> sf_zero_or_nan y -> sf_zero_or_nan (x + y).
Proof.
  unfold sf_zero_or_nan. rewrite add_spec.
  destruct (Prim2SF x) as [[]|[]| |[] m e]; try easy;
    destruct (Prim2SF y) as [[]|[]| |[] m' e']; easy.
Qed.

Lemma sum_zero_or_nan (xs : list float) :
  Forall sf_zero_or_nan xs -> sf_zero_or_nan (Np.sum xs).
Proof.
  unfold Np.sum. assert (H0 : sf_zero_or_nan 0) by exact I.
  revert H0. generalize 0. induction xs as [|x xs IH]; intros acc Hacc Hall.
  - exact Hacc.
  - apply Forall_cons in Hall as [Hx Hxs]. simpl.
    apply IH; [|exact Hxs]. now apply add_zero_or_nan.
Qed.

End ExactFloat.


(** * Results of rounding that are not zero *)

Module Nonzero.

Import Sf.
Local Open Scope Z_scope.

Lemma shifted_positive (M : positive) (s : positive) :
  Z.pos s < Z.pos (digits2_pos M) -> 1 <= Z.pos M / 2 ^ Z.pos s.
Proof.
  intros Hs. pose proof (Round.digits2_bounds M) as [Hlo _].
  apply Z.div_le_lower_bound; [apply Round.pow2_pos; lia|].
  rewrite Z.mul_1_r. eapply Z.le_trans; [|exact Hlo].
  apply Z.pow_le_mono_r; lia.
Qed.

(** The second stage of rounding gives no zero for a positive mantissa. *)
Lemma finish_nonzero (sx : bool) (m1 : positive) (e1 : Z) :
  -1074 <= e1 ->
  match finish sx (Z.pos m1) e1 with
  | S754_finite _ _ _ | S754_infinity _ => True
  | _ => False
  end.
Proof.
  intros He. unfold finish, shr_fexp, shr. cbn [Zdigits2].
  rewrite Round.fexp_eq.
  destruct (Z.max (Z.pos (digits2_pos m1) + e1 - 53) (-1074) - e1)
    as [|q|q] eqn:Eq; cbn [shr_record_of_loc shr_m].
  - destruct (e1 <=? emax - prec); exact I.
  - set (rec0 := {| shr_m := Z.pos m1; shr_r := false; shr_s := false |}).
    destruct (Round.iter_shr q rec0 ltac:(simpl; lia)) as [Em _].
    cbn [shr_m rec0] in Em. rewrite Em.
    pose proof (shifted_positive m1 q ltac:(lia)) as Hq.
    destruct (Z.pos m1 / 2 ^ Z.pos q) as [|m|m]; try lia.
    destruct (e1 + Z.pos q <=? emax - prec); exact I.
  - destruct (e1 <=? emax - prec); exact I.
Qed.

(** Rounding gives no zero for a mantissa whose leading bit lies above
    the smallest exponent. *)
Lemma round_aux_nonzero (sx : bool) (M : positive) (E : Z) (l : location) :
  -1074 < Z.pos (digits2_pos M) + E ->
  match binary_round_aux prec emax sx (Z.pos M) E l with
  | S754_finite _ _ _ | S754_infinity _ => True
  | _ => False
  end.
Proof.
  intros Hd. rewrite Round.binary_round_aux_finish.
  unfold shr_fexp, shr. cbn [Zdigits2]. rewrite Round.fexp_eq.
  assert (H0 : shr_m (shr_record_of_loc (Z.pos M) l) = Z.pos M)
    by (destruct l as [|[]]; reflexivity).
  destruct (Z.max (Z.pos (digits2_pos M) + E - 53) (-1074) - E)
    as [|q|q] eqn:Eq.
  - pose proof (Round.round_nearest_even_range
                  (shr_m (shr_record_of_loc (Z.pos M) l))
                  (loc_of_shr_record (shr_record_of_loc (Z.pos M) l))) as Hr.
    set (r := round_nearest_even _ _) in *. rewrite H0 in Hr.
    destruct r as [|m1|m1]; try lia.
    apply finish_nonzero. lia.
  - destruct (Round.iter_shr q (shr_record_of_loc (Z.pos M) l)
                ltac:(rewrite H0; lia)) as [Em _].
    rewrite H0 in Em.
    pose proof (shifted_positive M q ltac:(lia)) as Hq.
    pose proof (Round.round_nearest_even_range
                  (shr_m (SpecFloat.iter_pos shr_1 q
                            (shr_record_of_loc (Z.pos M) l)))
                  (loc_of_shr_record
                     (SpecFloat.iter_pos shr_1 q
                        (shr_record_of_loc (Z.pos M) l)))) as Hr.
    set (r := round_nearest_even _ _) in *. rewrite Em in Hr.
    destruct r as [|m1|m1]; try lia.
    apply finish_nonzero. lia.
  - pose proof (Round.round_nearest_even_range
                  (shr_m (shr_record_of_loc (Z.pos M) l))
                  (loc_of_shr_record (shr_record_of_loc (Z.pos M) l))) as Hr.
    set (r := round_nearest_even _ _) in *. rewrite H0 in Hr.
    destruct r as [|m1|m1]; try lia.
    apply finish_nonzero. lia.
Qed.

Lemma not_zero_eqb (x : float) :
  match Prim2SF x with
  | S754_zero _ => False
  | _ => True
  end ->
  (x =? 0)%float = false.
Proof.
  rewrite FloatAxioms.eqb_spec. change (Prim2SF 0) with (S754_zero false).
  now destruct (Prim2SF x) as [[]|[]| |[] m e].
Qed.

(** Twice a float that is not zero is not zero. *)
Lemma double_nonzero (x : float) :
  (x =? 0)%float = false -> (2 * x =? 0)%float = false.
Proof.
  intros Hx. apply not_zero_eqb. rewrite mul_spec.
  rewrite FloatAxioms.eqb_spec in Hx.
  change (Prim2SF 0) with (S754_zero false) in Hx.
  change (Prim2SF 2) with (S754_finite false 4503599627370496 (-51)).
  pose proof (Prim2SF_valid x) as V.
  destruct (Prim2SF x) as [s|s| |s m e]; try discriminate; try exact I.
  unfold SF64mul. cbn [SFmul].
  apply Round.bounded_inv in V as (He & _ & _).
  change (4503599627370496 * m)%positive with (PosDef.Pos.iter xO m 52).
  pose proof (round_aux_nonzero (xorb false s) (PosDef.Pos.iter xO m 52)
                (-51 + e) loc_Exact) as H.
  rewrite Round.shl_digits in H.
  specialize (H ltac:(lia)).
  now destruct (binary_round_aux _ _ _ _ _ _).
Qed.

(** The square root of a float that is not zero is not zero. *)
Lemma sqrt_nonzero (x : float) :
  (x =? 0)%float = false -> (PrimFloat.sqrt x =? 0)%float = false.
Proof.
  intros Hx. apply not_zero_eqb. rewrite sqrt_spec.
  rewrite FloatAxioms.eqb_spec in Hx.
  change (Prim2SF 0) with (S754_zero false) in Hx.
  pose proof (Prim2SF_valid x) as V.
  destruct (Prim2SF x) as [s|[]| |[] m e]; try discriminate; try exact I.
  unfold SF64sqrt. cbn [SFsqrt].
  apply Round.bounded_inv in V as (He & _ & _).
  unfold SFsqrt_core_binary. cbv zeta. cbn [Zdigits2].
  set (e' := Z.min _ (Z.div2 e)).
  assert (He' : -1074 <= e' /\ 2 * e' <= e).
  { unfold e'. rewrite Round.fexp_eq, Z.div2_div.
    pose proof (Z.mul_div_le e 2 ltac:(lia)).
    pose proof (Z.div_le_lower_bound e 2 (-537) ltac:(lia) ltac:(lia)). lia. }
  set (m' := match e - 2 * e' with
             | 0 => Z.pos m
             | Z.pos _ => Z.shiftl (Z.pos m) (e - 2 * e')
             | Z.neg _ => 0
             end).
  assert (Hm' : 1 <= m').
  { unfold m'. destruct (e - 2 * e') as [|p|p] eqn:Es; try lia.
    rewrite Z.shiftl_mul_pow2 by lia.
    pose proof (Round.pow2_pos (Z.pos p) ltac:(lia)). nia. }
  pose proof (Z.sqrtrem_sqrt m') as Hs.
  assert (Hq : 1 <= Z.sqrt m').
  { apply Z.sqrt_le_square; lia. }
  destruct (Z.sqrtrem m') as [q r]. cbn [fst] in Hs. subst q.
  destruct (Z.sqrt m') as [|q|q]; try lia.
  pose proof (round_aux_nonzero false q e'
                (if (r =? 0) then loc_Exact
                 else loc_Inexact (if (r <=? Z.pos q) then Lt else Gt))
                ltac:(lia)) as H.
  now destruct (binary_round_aux _ _ _ _ _ _).
Qed.

End Nonzero.

(** * Rounding to nearest: bounds on sums, products and quotients *)

Module Nearest.

Import Sf.
Local Open Scope Z_scope.

Lemma shr_1_r (rec : shr_record) :
  0 <= shr_m rec -> shr_r (shr_1 rec) = Z.odd (shr_m rec).
Proof.
  destruct rec as [m r s]. cbn [shr_m]. intros Hm.
  destruct m as [|[p|p|]|p]; try reflexivity; lia.
Qed.

(** The round bit after [p] shifts is bit [p-1] of the mantissa. *)
Lemma iter_shr_r (p : positive) : forall rec,
  0 <= shr_m rec ->
  shr_r (SpecFloat.iter_pos shr_1 p rec)
  = Z.odd (shr_m rec / 2 ^ (Z.pos p - 1)).
Proof.
  induction p as [p IH|p IH|]; intros rec Hm; cbn [SpecFloat.iter_pos];
    try assert (Hpow : 0 < 2 ^ Z.pos p) by (apply Z.pow_pos_nonneg; lia);
    try assert (Hpow' : 0 < 2 ^ (Z.pos p - 1)) by (apply Z.pow_pos_nonneg; lia).
  - assert (H1 : 0 <= shr_m (shr_1 rec))
      by (rewrite Round.shr_1_m by lia; now apply Z.div_pos).
    destruct (Round.iter_shr p (shr_1 rec) H1) as [E1 _].
    assert (H2 : 0 <= shr_m (SpecFloat.iter_pos shr_1 p (shr_1 rec)))
      by (rewrite E1; apply Z.div_pos; lia).
    rewrite IH by exact H2. rewrite E1, Round.shr_1_m by lia.
    rewrite !Z.div_div by lia. do 2 f_equal.
    rewrite (Pos2Z.inj_xI p).
    replace (2 * Z.pos p + 1 - 1) with (1 + Z.pos p + (Z.pos p - 1)) by lia.
    rewrite !Z.pow_add_r, Z.pow_1_r by lia. ring.
  - destruct (Round.iter_shr p rec Hm) as [E1 _].
    assert (H2 : 0 <= shr_m (SpecFloat.iter_pos shr_1 p rec))
      by (rewrite E1; apply Z.div_pos; lia).
    rewrite IH by exact H2. rewrite E1, Z.div_div by lia. do 2 f_equal.
    rewrite (Pos2Z.inj_xO p).
    replace (2 * Z.pos p - 1) with (Z.pos p + (Z.pos p - 1)) by lia.
    now rewrite Z.pow_add_r by lia.
  - rewrite shr_1_r by exact Hm. now rewrite Z.div_1_r.
Qed.

(** A mantissa of 53 bits, or the carry [2^53], at an exponent from -52
    on is a value from 1 on. *)
Lemma finish_at_least_one (r e1 : Z) :
  2 ^ 52 <= r <= 2 ^ 53 -> -52 <= e1 ->
  exists v, ext (finish false r e1) = Some v /\ 2 ^ 1074 <= v.
Proof.
  intros Hr He.
  assert (Hp : 2 ^ 1074 <= 2 ^ 52 * 2 ^ (e1 + 1074)).
  { rewrite <- Z.pow_add_r by lia. apply Z.pow_le_mono_r; lia. }
  assert (Htop : 2 ^ 1074 <= top) by (apply Z.pow_le_mono_r; lia).
  destruct (Z.eq_dec r (2 ^ 53)) as [->|N53].
  - rewrite Round.finish_carry by lia.
    destruct (e1 + 1 <=? 971); cbn [ext]; eexists; (split; [reflexivity|]);
      [|exact Htop].
    unfold scaled. change (Z.pos (2 ^ 52)) with (2 ^ 52).
    rewrite <- Z.pow_add_r by lia. apply Z.pow_le_mono_r; lia.
  - destruct r as [|mr|mr]; [lia| |lia].
    assert (Hdig : Z.pos (digits2_pos mr) = 53)
      by (apply Round.digits2_unique; change (53 - 1) with 52; lia).
    assert (Hc : fexp prec emax (Z.pos (digits2_pos mr) + e1) = e1)
      by (rewrite Round.fexp_eq, Hdig; lia).
    rewrite (Round.finish_canonical _ _ _ Hc).
    destruct (e1 <=? 971); cbn [ext]; eexists; (split; [reflexivity|]);
      [|exact Htop].
    unfold scaled. pose proof (Round.pow2_pos (e1 + 1074) ltac:(lia)). nia.
Qed.

(** Rounding a mantissa of at least 53 bits whose value is at least 1
    gives at least 1. *)
Lemma round_aux_at_least_one (q : positive) (e : Z) (l : location) :
  -1074 <= e -> 53 <= Z.pos (digits2_pos q) ->
  1 <= Z.pos (digits2_pos q) + e ->
  exists v, ext (binary_round_aux prec emax false (Z.pos q) e l) = Some v /\
            2 ^ 1074 <= v.
Proof.
  intros He Hd H1. rewrite Round.binary_round_aux_finish.
  unfold shr_fexp, shr. cbn [Zdigits2]. rewrite Round.fexp_eq.
  assert (H0 : shr_m (shr_record_of_loc (Z.pos q) l) = Z.pos q)
    by (destruct l as [|[]]; reflexivity).
  pose proof (Round.digits2_bounds q) as [Dlo Dhi].
  destruct (Z.max (Z.pos (digits2_pos q) + e - 53) (-1074) - e)
    as [|p|p] eqn:Ep; [| |lia].
  - pose proof (Round.round_nearest_even_range
                  (shr_m (shr_record_of_loc (Z.pos q) l))
                  (loc_of_shr_record (shr_record_of_loc (Z.pos q) l))) as Hr.
    set (r := round_nearest_even _ _) in *. rewrite H0 in Hr.
    replace (Z.pos (digits2_pos q)) with 53 in Dlo, Dhi by lia.
    change (53 - 1) with 52 in Dlo.
    apply finish_at_least_one; lia.
  - destruct (Round.iter_shr p (shr_record_of_loc (Z.pos q) l)
                ltac:(rewrite H0; lia)) as [Em _].
    rewrite H0 in Em.
    pose proof (Round.round_nearest_even_range
                  (shr_m (SpecFloat.iter_pos shr_1 p
                            (shr_record_of_loc (Z.pos q) l)))
                  (loc_of_shr_record
                     (SpecFloat.iter_pos shr_1 p
                        (shr_record_of_loc (Z.pos q) l)))) as Hr.
    set (r := round_nearest_even _ _) in *. rewrite Em in Hr.
    assert (Hp : Z.pos (digits2_pos q) = 53 + Z.pos p) by lia.
    rewrite Hp in Dlo, Dhi.
    replace (53 + Z.pos p - 1) with (52 + Z.pos p) in Dlo by lia.
    rewrite Z.pow_add_r in Dlo, Dhi by lia.
    pose proof (Round.pow2_pos (Z.pos p) ltac:(lia)) as HP.
    assert (Hq : 2 ^ 52 <= Z.pos q / 2 ^ Z.pos p < 2 ^ 53).
    { split; [apply Z.div_le_lower_bound; lia|].
      apply Z.div_lt_upper_bound; lia. }
    apply finish_at_least_one; lia.
Qed.


Lemma finish_zero (e1 : Z) : -1074 <= e1 -> finish false 0 e1 = S754_zero false.
Proof.
  intros He. unfold finish, shr_fexp, shr. cbn [Zdigits2].
  rewrite Round.fexp_eq.
  destruct (Z.max (0 + e1 - 53) (-1074) - e1) as [|p|p] eqn:Ep;
    try reflexivity; lia.
Qed.

(** The second stage keeps a mantissa that fits: the value is the
    mantissa at its exponent, as long as that is below the infinity. *)
Lemma finish_value (r g : Z) :
  0 <= r <= 2 ^ 53 -> -1074 <= g -> (-1074 < g -> 2 ^ 52 <= r) ->
  r * 2 ^ (g + 1074) < top ->
  ext (finish false r g) = Some (r * 2 ^ (g + 1074)).
Proof.
  intros Hr Hg Hn Ht.
  pose proof (Round.pow2_pos (g + 1074) ltac:(lia)) as HP.
  destruct (Z.eq_dec r (2 ^ 53)) as [->|N53].
  - rewrite Round.finish_carry by lia.
    destruct (Z.leb_spec (g + 1) 971) as [Hle|Hgt]; cbn [ext].
    + f_equal. unfold scaled. change (Z.pos (2 ^ 52)) with (2 ^ 52).
      replace (g + 1 + 1074) with (1 + (g + 1074)) by lia.
      rewrite (Z.pow_add_r 2 1) by lia. change (2 ^ 53) with (2 ^ 52 * 2 ^ 1).
      ring.
    + exfalso. unfold top in Ht.
      assert (2 ^ 2045 <= 2 ^ (g + 1074)) by (apply Z.pow_le_mono_r; lia).
      change (2 ^ 2098) with (2 ^ 53 * 2 ^ 2045) in Ht. nia.
  - destruct r as [|mr|mr]; [| |lia].
    + rewrite finish_zero by lia. reflexivity.
    + pose proof (Round.digits2_bounds mr) as [Dlo Dhi].
      assert (Hc : fexp prec emax (Z.pos (digits2_pos mr) + g) = g).
      { rewrite Round.fexp_eq.
        destruct (Z.eq_dec g (-1074)) as [->|Hne].
        - assert (Z.pos (digits2_pos mr) - 1 < 53)
            by (apply (Z.pow_lt_mono_r_iff 2); lia).
          lia.
        - assert (Hdig : Z.pos (digits2_pos mr) = 53)
            by (apply Round.digits2_unique; change (53 - 1) with 52; lia).
          lia. }
      rewrite (Round.finish_canonical _ _ _ Hc).
      destruct (Z.leb_spec g 971) as [Hle|Hgt]; cbn [ext]; [reflexivity|].
      exfalso. unfold top in Ht.
      assert (2 ^ 2046 <= 2 ^ (g + 1074)) by (apply Z.pow_le_mono_r; lia).
      change (2 ^ 2098) with (2 ^ 52 * 2 ^ 2046) in Ht.
      specialize (Hn ltac:(lia)). nia.
Qed.

(** Rounding an exact value that is not above a float gives a value that
    is not above it. *)
Lemma round_aux_at_most (M : positive) (E : Z) (ma : positive) (ea : Z) :
  bounded prec emax ma ea = true ->
  -2148 <= E -> E <= fexp prec emax (Z.pos (digits2_pos M) + E) ->
  Z.pos M * 2 ^ (E + 2148) <= Z.pos ma * 2 ^ (ea + 2148) ->
  exists v,
    ext (binary_round_aux prec emax false (Z.pos M) E loc_Exact) = Some v /\
    v <= scaled ma ea.
Proof.
  intros Hb HE Hn H.
  pose proof (Round.scaled_below_top _ _ Hb) as Htop.
  apply Round.bounded_inv in Hb as (Hea & Hma & _).
  pose proof (Round.digits2_bounds M) as [Dlo Dhi].
  rewrite Round.fexp_eq in Hn.
  set (g := Z.max (Z.pos (digits2_pos M) + E - 53) (-1074)) in *.
  assert (Hg : -1074 <= g) by (unfold g; lia).
  (* the float lies on the grid of the result *)
  assert (Hag : g <= ea).
  { destruct (Z.eq_dec g (-1074)) as [->|Hne]; [lia|].
    assert (Eg : g = Z.pos (digits2_pos M) + E - 53) by (unfold g in *; lia).
    assert (Hlt : 2 ^ (Z.pos (digits2_pos M) - 1 + (E + 2148))
                  < 2 ^ (53 + (ea + 2148))).
    { rewrite (Z.pow_add_r 2 (Z.pos (digits2_pos M) - 1) (E + 2148)),
        (Z.pow_add_r 2 53 (ea + 2148)) by lia.
      pose proof (Round.pow2_pos (E + 2148) ltac:(lia)).
      pose proof (Round.pow2_pos (ea + 2148) ltac:(lia)).
      eapply Z.le_lt_trans; [|apply Zmult_lt_compat_r; [lia|exact Hma]].
      eapply Z.le_trans; [|exact H].
      apply Z.mul_le_mono_nonneg_r; lia. }
    apply Z.pow_lt_mono_r_iff in Hlt; lia. }
  set (A' := Z.pos ma * 2 ^ (ea - g)).
  assert (EA : scaled ma ea = A' * 2 ^ (g + 1074)).
  { unfold scaled, A'. rewrite <- Z.mul_assoc, <- Z.pow_add_r by lia.
    do 2 f_equal. lia. }
  assert (HM : Z.pos M <= A' * 2 ^ (g - E)).
  { unfold A'. 
    replace (ea + 2148) with ((ea - g) + ((g - E) + (E + 2148))) in H by lia.
    rewrite (Z.pow_add_r 2 (ea - g)), (Z.pow_add_r 2 (g - E)) in H by lia.
    pose proof (Round.pow2_pos (E + 2148) ltac:(lia)). nia. }
  pose proof (Round.pow2_pos (g + 1074) ltac:(lia)) as HPg.
  rewrite Round.binary_round_aux_finish.
  unfold shr_fexp, shr. cbn [Zdigits2]. rewrite Round.fexp_eq. fold g.
  destruct (g - E) as [|p|p] eqn:Ep; [| |lia].
  - (* nothing is shifted out *)
    cbn [shr_record_of_loc shr_m loc_of_shr_record round_nearest_even].
    replace E with g by lia.
    assert (Hd : Z.pos (digits2_pos M) <= 53) by (unfold g in *; lia).
    assert (HM53 : Z.pos M < 2 ^ 53).
    { eapply Z.lt_le_trans; [exact Dhi|]. apply Z.pow_le_mono_r; lia. }
    rewrite Z.pow_0_r, Z.mul_1_r in HM.
    exists (Z.pos M * 2 ^ (g + 1074)). split.
    + apply finish_value; try lia.
      * intros Hgt.
        replace (Z.pos (digits2_pos M)) with 53 in Dlo by (unfold g in *; lia).
        exact Dlo.
      * rewrite EA in Htop. nia.
    + rewrite EA. nia.
  - (* [p] bits are shifted out *)
    cbn [shr_record_of_loc].
    set (rec0 := {| shr_m := Z.pos M; shr_r := false; shr_s := false |}).
    destruct (Round.iter_shr p rec0 ltac:(simpl; lia)) as [Em Ex].
    cbn [shr_m rec0] in Em.
    set (rec1 := SpecFloat.iter_pos shr_1 p rec0) in *.
    set (r := round_nearest_even (shr_m rec1) (loc_of_shr_record rec1)).
    pose proof (Round.pow2_pos (Z.pos p) ltac:(lia)) as HP.
    assert (Hr : Z.pos M / 2 ^ Z.pos p <= r <= Z.pos M / 2 ^ Z.pos p + 1).
    { rewrite <- Em. apply Round.round_nearest_even_range. }
    assert (Hexact : (2 ^ Z.pos p | Z.pos M) -> r = Z.pos M / 2 ^ Z.pos p).
    { intros Hdiv. unfold r.
      rewrite (Round.loc_exact rec1 (Ex eq_refl Hdiv)). exact Em. }
    pose proof (Z.div_mod (Z.pos M) (2 ^ Z.pos p) ltac:(lia)) as Hdm.
    pose proof (Z.mod_pos_bound (Z.pos M) (2 ^ Z.pos p) HP) as Hrem.
    set (q := Z.pos M / 2 ^ Z.pos p) in *.
    assert (Hq0 : 0 <= q) by (apply Z.div_pos; lia).
    assert (HrA : r <= A').
    { destruct (Z.eq_dec q A') as [Eq|Nq].
      - rewrite Hexact; [lia|].
        exists A'. nia.
      - assert (q < A') by nia. lia. }
    assert (Hq53 : q < 2 ^ 53).
    { apply Z.div_lt_upper_bound; [lia|].
      eapply Z.lt_le_trans; [exact Dhi|].
      rewrite <- Z.pow_add_r by lia. apply Z.pow_le_mono_r; unfold g in *; lia. }
    replace (E + Z.pos p) with g by lia.
    exists (r * 2 ^ (g + 1074)). split.
    + apply finish_value; try lia.
      * intros Hgt.
        assert (Hdp : Z.pos (digits2_pos M) = 53 + Z.pos p)
          by (unfold g in *; lia).
        rewrite Hdp in Dlo.
        replace (53 + Z.pos p - 1) with (52 + Z.pos p) in Dlo by lia.
        rewrite Z.pow_add_r in Dlo by lia.
        assert (2 ^ 52 <= q) by (apply Z.div_le_lower_bound; lia).
        lia.
      * rewrite EA in Htop. nia.
    + rewrite EA. nia.
Qed.


(** A sum above 1 and below the midpoint of 1 and the next float is
    rounded down to 1. *)
Lemma SFadd_down_to_one (mx : positive) (ex : Z) (my : positive) (ey : Z) :
  bounded prec emax mx ex = true -> bounded prec emax my ey = true ->
  2 ^ 1074 < scaled mx ex + scaled my ey < 2 ^ 1074 + 2 ^ 1021 ->
  SFadd prec emax (S754_finite false mx ex) (S754_finite false my ey)
  = SF_one.
Proof.
  intros Hx Hy Hs.
  pose proof (proj1 (Round.bounded_inv _ _ Hx)) as Hex.
  pose proof (proj1 (Round.bounded_inv _ _ Hy)) as Hey.
  cbn [SFadd cond_Zopp].
  set (ez := Z.min ex ey).
  rewrite <- (Round.shl_align_value mx ex ez),
    <- (Round.shl_align_value my ey ez) in Hs by (unfold ez; lia).
  rewrite <- Z.mul_add_distr_r, <- Pos2Z.inj_add in Hs.
  rewrite <- Pos2Z.inj_add. cbn [binary_normalize].
  set (M := (fst (shl_align mx ex ez) + fst (shl_align my ey ez))%positive)
    in *.
  assert (Hez : -1074 <= ez) by (unfold ez; lia).
  clearbody M ez. clear Hx Hy Hex Hey mx ex my ey.
  destruct Hs as [Hlo Hhi].
  pose proof (Round.pow2_pos (ez + 1074) ltac:(lia)) as HP.
  (* the sum has bits below the last place of 1 *)
  assert (Hlow : ez <= -54).
  { destruct (Z.le_gt_cases ez (-54)) as [|Hgt]; [assumption|exfalso].
    replace (ez + 1074) with ((ez + 53) + 1021) in Hlo, Hhi by lia.
    rewrite Z.pow_add_r in Hlo, Hhi by lia.
    change (2 ^ 1074) with (2 ^ 53 * 2 ^ 1021) in Hlo, Hhi.
    assert (H1 : 2 ^ 53 < Z.pos M * 2 ^ (ez + 53)) by nia.
    assert (H2 : Z.pos M * 2 ^ (ez + 53) < 2 ^ 53 + 1) by nia.
    lia. }
  destruct (-52 - ez) as [|p|p] eqn:Ep; try lia.
  assert (Hp : 2 <= Z.pos p) by lia.
  pose proof (Round.pow2_pos (Z.pos p - 1) ltac:(lia)) as HP1.
  assert (E2 : 2 ^ Z.pos p = 2 * 2 ^ (Z.pos p - 1)).
  { replace (Z.pos p) with (1 + (Z.pos p - 1)) at 1 by lia.
    now rewrite Z.pow_add_r, Z.pow_1_r by lia. }
  assert (E1074 : 2 ^ 1074 = 2 ^ 53 * 2 ^ (Z.pos p - 1) * 2 ^ (ez + 1074)).
  { rewrite <- !Z.pow_add_r by lia. f_equal. lia. }
  assert (E1021 : 2 ^ 1021 = 2 ^ (Z.pos p - 1) * 2 ^ (ez + 1074)).
  { rewrite <- Z.pow_add_r by lia. f_equal. lia. }
  rewrite E1074, E1021 in Hhi. rewrite E1074 in Hlo.
  assert (HM : 2 ^ 53 * 2 ^ (Z.pos p - 1) < Z.pos M
               < 2 ^ 53 * 2 ^ (Z.pos p - 1) + 2 ^ (Z.pos p - 1)) by nia.
  assert (Hd : Z.pos (digits2_pos M) = 53 + Z.pos p).
  { apply Round.digits2_unique.
    replace (53 + Z.pos p - 1) with (52 + Z.pos p) by lia.
    rewrite !Z.pow_add_r, E2 by lia.
    change (2 ^ 53) with (2 ^ 52 * 2) in HM |- *. nia. }
  assert (Hq : Z.pos M / 2 ^ Z.pos p = 2 ^ 52).
  { symmetry.
    apply (Z.div_unique _ _ _ (Z.pos M - 2 ^ Z.pos p * 2 ^ 52)); [|ring].
    left. rewrite E2. change (2 ^ 53) with (2 ^ 52 * 2) in HM. nia. }
  assert (Hr : Z.pos M / 2 ^ (Z.pos p - 1) = 2 ^ 53).
  { symmetry.
    apply (Z.div_unique _ _ _ (Z.pos M - 2 ^ (Z.pos p - 1) * 2 ^ 53)); [|ring].
    left. nia. }
  unfold binary_round, shl_align.
  rewrite Round.fexp_eq, Hd.
  replace (Z.max (53 + Z.pos p + ez - 53) (-1074) - ez) with (Z.pos p) by lia.
  rewrite Round.binary_round_aux_finish. unfold shr_fexp. cbn [Zdigits2].
  rewrite Round.fexp_eq, Hd.
  replace (Z.max (53 + Z.pos p + ez - 53) (-1074) - ez) with (Z.pos p) by lia.
  cbn [shr shr_record_of_loc].
  set (rec0 := {| shr_m := Z.pos M; shr_r := false; shr_s := false |}).
  destruct (Round.iter_shr p rec0 ltac:(simpl; lia)) as [Em _].
  pose proof (iter_shr_r p rec0 ltac:(simpl; lia)) as Er.
  cbn [shr_m rec0] in Em, Er. rewrite Hq in Em. rewrite Hr in Er.
  destruct (SpecFloat.iter_pos shr_1 p rec0) as [m1 r1 s1].
  cbn [shr_m shr_r] in Em, Er. subst m1 r1.
  replace (ez + Z.pos p) with (-52) by lia.
  change (Z.odd (2 ^ 53)) with false.
  now destruct s1.
Qed.

(** The multiples of [2^-53] up to 1 are floats. *)
Lemma grid_below_one (k : Z) :
  0 < k <= 2 ^ 53 ->
  exists mf ef, bounded prec emax mf ef = true /\
                scaled mf ef = k * 2 ^ 1021.
Proof.
  intros Hk. destruct (Z.eq_dec k (2 ^ 53)) as [->|Hne].
  - exists (2 ^ 52)%positive, (-52). split; reflexivity.
  - destruct k as [|pk|pk]; try lia.
    pose proof (Round.digits2_bounds pk) as [Dlo Dhi].
    set (d := Z.pos (digits2_pos pk)) in *.
    assert (Hd : 1 <= d <= 53).
    { split; [unfold d; lia|].
      assert (d - 1 < 53) by (apply (Z.pow_lt_mono_r_iff 2); lia). lia. }
    pose proof (Round.pow2_pos (53 - d) ltac:(lia)) as HP.
    assert (Hm : 2 ^ 52 <= Z.pos pk * 2 ^ (53 - d) < 2 ^ 53).
    { assert (E52 : 2 ^ 52 = 2 ^ (d - 1) * 2 ^ (53 - d))
        by (rewrite <- Z.pow_add_r by lia; f_equal; lia).
      assert (E53 : 2 ^ 53 = 2 ^ d * 2 ^ (53 - d))
        by (rewrite <- Z.pow_add_r by lia; f_equal; lia).
      rewrite E52, E53. split.
      - apply Z.mul_le_mono_nonneg_r; lia.
      - apply Zmult_lt_compat_r; lia. }
    destruct (Z.pos pk * 2 ^ (53 - d)) as [|mf|mf] eqn:Emf; try lia.
    exists mf, (d - 106). split.
    + unfold bounded, canonical_mantissa. rewrite Round.fexp_eq.
      assert (Hdig : Z.pos (digits2_pos mf) = 53)
        by (apply Round.digits2_unique; change (53 - 1) with 52; lia).
      rewrite Hdig. apply andb_true_iff. split.
      * apply Z.eqb_eq. lia.
      * apply Z.leb_le. change (emax - prec) with 971. lia.
    + unfold scaled. rewrite <- Emf, <- Z.mul_assoc, <- Z.pow_add_r by lia.
      do 2 f_equal. lia.
Qed.


(** A quotient of two floats of which the first is not the smaller one
    is at least 1. *)
Lemma SFdiv_at_least_one (mx : positive) (ex : Z) (my : positive) (ey : Z) :
  bounded prec emax mx ex = true -> bounded prec emax my ey = true ->
  scaled my ey <= scaled mx ex ->
  exists v,
    ext (SFdiv prec emax (S754_finite false mx ex) (S754_finite false my ey))
    = Some v /\ 2 ^ 1074 <= v.
Proof.
  intros Hx Hy Hle.
  assert (Hee : ey <= ex).
  { destruct (Z.le_gt_cases ey ex) as [|Hgt]; [assumption|].
    pose proof (Round.scaled_lt_exponent _ _ _ _ Hx Hy Hgt). lia. }
  pose proof (proj1 (Round.bounded_inv _ _ Hx)) as Hex.
  pose proof (proj1 (Round.bounded_inv _ _ Hy)) as Hey.
  pose proof (Round.digits2_bounds mx) as [Xlo Xhi].
  pose proof (Round.digits2_bounds my) as [Ylo Yhi].
  assert (Hmm : Z.pos my <= Z.pos mx * 2 ^ (ex - ey)).
  { unfold scaled in Hle.
    replace (ex + 1074) with ((ex - ey) + (ey + 1074)) in Hle by lia.
    rewrite (Z.pow_add_r 2 (ex - ey)) in Hle by lia.
    pose proof (Round.pow2_pos (ey + 1074) ltac:(lia)). nia. }
  pose proof (Round.pow2_pos (ex - ey) ltac:(lia)) as HPe.
  assert (HD : 0 <= Z.pos (digits2_pos mx) + ex - (Z.pos (digits2_pos my) + ey)).
  { assert (Hlt : 2 ^ (Z.pos (digits2_pos my) - 1)
                  < 2 ^ (Z.pos (digits2_pos mx) + (ex - ey))).
    { rewrite (Z.pow_add_r 2 (Z.pos (digits2_pos mx))) by lia.
      eapply Z.le_lt_trans; [exact Ylo|].
      eapply Z.le_lt_trans; [exact Hmm|].
      apply Zmult_lt_compat_r; lia. }
    apply Z.pow_lt_mono_r_iff in Hlt; lia. }
  cbn [SFdiv xorb]. unfold SFdiv_core_binary. cbv zeta. cbn [Zdigits2].
  rewrite Round.fexp_eq.
  set (e' := Z.min _ (ex - ey)).
  assert (He' : -53 <= e' /\
                e' <= Z.pos (digits2_pos mx) + ex
                      - (Z.pos (digits2_pos my) + ey) - 53 /\
                e' <= ex - ey) by (unfold e'; lia).
  set (s := ex - ey - e').
  assert (Hs : 0 <= s) by (unfold s; lia).
  set (m' := match s with
             | 0 => Z.pos mx
             | Z.pos _ => Z.shiftl (Z.pos mx) s
             | Z.neg _ => 0
             end).
  pose proof (Round.pow2_pos s Hs) as HPs.
  assert (Em' : m' = Z.pos mx * 2 ^ s).
  { unfold m'. destruct s as [|ps|ps] eqn:Es; [|now rewrite Z.shiftl_mul_pow2|lia].
    now rewrite Z.pow_0_r, Z.mul_1_r. }
  clearbody m'.
  pose proof (Z.div_eucl_eq m' (Z.pos my) ltac:(lia)) as Heq.
  pose proof (Z.mod_pos_bound m' (Z.pos my) ltac:(lia)) as Hr.
  unfold Z.modulo in Hr.
  destruct (Z.div_eucl m' (Z.pos my)) as [q r].
  (* the quotient has at least 53 bits *)
  set (t := Z.pos (digits2_pos mx) - 1 + s - Z.pos (digits2_pos my)).
  assert (Ht : 52 <= t) by (unfold t, s; lia).
  pose proof (Round.pow2_pos t ltac:(lia)) as HPt.
  assert (A1 : 2 ^ t * 2 ^ Z.pos (digits2_pos my) <= m').
  { rewrite Em', <- Z.pow_add_r by lia.
    replace (t + Z.pos (digits2_pos my))
      with ((Z.pos (digits2_pos mx) - 1) + s) by (unfold t; lia).
    rewrite Z.pow_add_r by lia. apply Z.mul_le_mono_nonneg_r; lia. }
  assert (Hqt : 2 ^ t <= q).
  { destruct (Z.le_gt_cases (2 ^ t) q) as [|Hgt]; [assumption|exfalso].
    assert (Z.pos my * (q + 1) <= Z.pos my * 2 ^ t)
      by (apply Z.mul_le_mono_nonneg_l; lia).
    assert (Z.pos my * 2 ^ t < 2 ^ Z.pos (digits2_pos my) * 2 ^ t)
      by (apply Zmult_lt_compat_r; lia).
    lia. }
  assert (Hq52 : 2 ^ 52 <= 2 ^ t) by (apply Z.pow_le_mono_r; lia).
  destruct q as [|q|q]; try lia.
  pose proof (Round.digits2_bounds q) as [Qlo Qhi].
  assert (Hdq : t < Z.pos (digits2_pos q))
    by (apply (Z.pow_lt_mono_r_iff 2); lia).
  apply round_aux_at_least_one; [lia|lia|].
  destruct (Z.le_gt_cases e' 0) as [Hneg|Hpos]; [|lia].
  assert (Es : s = (ex - ey) + (- e')) by (unfold s; lia).
  pose proof (Round.pow2_pos (- e') ltac:(lia)) as HPn.
  assert (A2 : Z.pos my * 2 ^ (- e') <= m').
  { rewrite Em', Es, Z.pow_add_r, Z.mul_assoc by lia.
    apply Z.mul_le_mono_nonneg_r; lia. }
  assert (Hqe : 2 ^ (- e') <= Z.pos q).
  { destruct (Z.le_gt_cases (2 ^ (- e')) (Z.pos q)) as [|Hgt];
      [assumption|exfalso].
    assert (Z.pos my * (Z.pos q + 1) <= Z.pos my * 2 ^ (- e'))
      by (apply Z.mul_le_mono_nonneg_l; lia).
    lia. }
  assert (- e' < Z.pos (digits2_pos q))
    by (apply (Z.pow_lt_mono_r_iff 2); lia).
  lia.
Qed.

(** A product with a float that is at most 1 is not above the other
    factor. *)
Lemma SFmul_at_most (mc : positive) (ec : Z) (ma : positive) (ea : Z) :
  bounded prec emax mc ec = true -> bounded prec emax ma ea = true ->
  scaled mc ec <= 2 ^ 1074 ->
  exists v,
    ext (SFmul prec emax (S754_finite false mc ec) (S754_finite false ma ea))
    = Some v /\ v <= scaled ma ea.
Proof.
  intros Hc Ha Hle. cbn [SFmul xorb].
  pose proof (Round.bounded_inv _ _ Hc) as (Hec & Hmc & Hnc).
  pose proof (Round.bounded_inv _ _ Ha) as (Hea & Hma & Hna).
  pose proof (Round.digits2_bounds (mc * ma)) as [Plo Phi].
  apply round_aux_at_most; [exact Ha|lia| |].
  - rewrite Round.fexp_eq.
    destruct (Z.eq_dec ec (-1074)) as [Ec|Nc];
      [destruct (Z.eq_dec ea (-1074)) as [Ea|Na]; [lia|]|].
    + specialize (Hna ltac:(lia)).
      assert (2 ^ 52 < 2 ^ Z.pos (digits2_pos (mc * ma))).
      { eapply Z.le_lt_trans; [|exact Phi]. rewrite Pos2Z.inj_mul. nia. }
      assert (52 < Z.pos (digits2_pos (mc * ma)))
        by (apply (Z.pow_lt_mono_r_iff 2); lia).
      lia.
    + specialize (Hnc ltac:(lia)).
      assert (2 ^ 52 < 2 ^ Z.pos (digits2_pos (mc * ma))).
      { eapply Z.le_lt_trans; [|exact Phi]. rewrite Pos2Z.inj_mul. nia. }
      assert (52 < Z.pos (digits2_pos (mc * ma)))
        by (apply (Z.pow_lt_mono_r_iff 2); lia).
      lia.
  - unfold scaled in Hle. rewrite Pos2Z.inj_mul.
    replace (ec + ea + 2148) with ((ec + 1074) + (ea + 1074)) by lia.
    replace (ea + 2148) with (1074 + (ea + 1074)) by lia.
    rewrite (Z.pow_add_r 2 (ec + 1074)), (Z.pow_add_r 2 1074) by lia.
    pose proof (Round.pow2_pos (ea + 1074) ltac:(lia)).
    pose proof (Round.pow2_pos (ec + 1074) ltac:(lia)).
    replace (Z.pos mc * Z.pos ma * (2 ^ (ec + 1074) * 2 ^ (ea + 1074)))
      with ((Z.pos mc * 2 ^ (ec + 1074)) * (Z.pos ma * 2 ^ (ea + 1074)))
      by ring.
    replace (Z.pos ma * (2 ^ 1074 * 2 ^ (ea + 1074)))
      with (2 ^ 1074 * (Z.pos ma * 2 ^ (ea + 1074))) by ring.
    apply Z.mul_le_mono_nonneg_r; lia.
Qed.

(** A difference of two floats of which the first is not the smaller one
    has no sign. *)
Lemma SFsub_ext (mx : positive) (ex : Z) (my : positive) (ey : Z) :
  bounded prec emax mx ex = true -> bounded prec emax my ey = true ->
  scaled my ey <= scaled mx ex ->
  exists v,
    ext (SFsub prec emax (S754_finite false mx ex) (S754_finite false my ey))
    = Some v.
Proof.
  intros Hx Hy Hle.
  destruct (Z.eq_dec (scaled my ey) (scaled mx ex)) as [Heq|Hne].
  - pose proof (proj1 (Round.bounded_inv _ _ Hx)) as Hex.
    pose proof (proj1 (Round.bounded_inv _ _ Hy)) as Hey.
    cbn [SFsub cond_Zopp].
    set (ez := Z.min ex ey).
    rewrite <- (Round.shl_align_value mx ex ez),
      <- (Round.shl_align_value my ey ez) in Heq by (unfold ez; lia).
    pose proof (Round.pow2_pos (ez + 1074) ltac:(unfold ez; lia)) as HP.
    assert (Hab : Z.pos (fst (shl_align my ey ez))
                  = Z.pos (fst (shl_align mx ex ez))) by nia.
    injection Hab as Hab. rewrite Hab, Z.sub_diag.
    cbn [binary_normalize]. eexists. reflexivity.
  - destruct (Round.SFsub_rounds _ _ _ _ Hx Hy ltac:(lia)) as (v & Ev & _).
    now exists v.
Qed.

End Nearest.

(** * The kernels beyond the limb: flux 1 *)

Section NoOverlap.

Context {ML : MathLib}.
Open Scope float_scope.
Import Np.

Lemma for_enumerate_untouched body (xs : list float) :
  writes_own_index body ->
  forall i0 (f : list float) j,
    (forall x, xs !! (j - i0)%nat = Some x -> (i0 <= j)%nat ->
               forall f', body j x f' = f') ->
    for_enumerate body i0 xs f !! j = f !! j.
Proof.
  intros Hown. induction xs as [|x xs IH]; intros i0 f j Hskip; simpl.
  - reflexivity.
  - rewrite IH.
    + destruct (Nat.eq_dec j i0) as [->|Hne].
      * rewrite (Hskip x); [reflexivity| |lia].
        now rewrite Nat.sub_diag.
      * now apply Hown.
    + intros x' Hx' Hle. apply Hskip; [|lia].
      replace (j - i0)%nat with (S (j - S i0)) by lia. exact Hx'.
Qed.

Lemma ueclipse_body_own k : writes_own_index (ueclipse_body k).
Proof.
  intros i x f j Hne. unfold ueclipse_body.
  destruct (abs x <=? 1 - k); [now apply list_lookup_insert_ne|].
  destruct (abs (abs x - 1) <? k); [now apply list_lookup_insert_ne|reflexivity].
Qed.

Lemma ones_like_lookup (z : list float) (i : nat) (zi : float) :
  z !! i = Some zi -> ones_like z !! i = Some 1.
Proof.
  intros Hz. apply lookup_replicate_2. now apply lookup_lt_Some in Hz.
Qed.

Lemma checked_div_ok (x y : float) :
  (y =? 0) = false -> checked_div x y = Ok (x / y).
Proof. intros H. unfold checked_div. now rewrite H. Qed.

(** In the branch [abs(zt-1) < k] of a kernel, for a [k] that is not
    above 1, neither [2*zt] nor [k] is zero. *)
Lemma limb_divisors (k zi : float) :
  (abs (abs zi - 1) <? k) = true -> (1 <? k) = false ->
  (2 * abs zi =? 0) = false /\ (k =? 0) = false.
Proof.
  intros Hlimb Hk. split.
  - apply Nonzero.double_nonzero.
    destruct (abs zi =? 0) eqn:Ez; [|reflexivity]. exfalso.
    assert (E0 : abs zi = 0).
    { apply Prim2SF_inj. rewrite FloatAxioms.eqb_spec, abs_spec in Ez.
      rewrite abs_spec. change (Prim2SF 0) with (S754_zero false) in *.
      now destruct (Prim2SF zi) as [[]|[]| |[] m e]. }
    rewrite E0 in Hlimb. change (abs (0 - 1)) with 1 in Hlimb. congruence.
  - rewrite ltb_spec, abs_spec in Hlimb. rewrite FloatAxioms.eqb_spec.
    change (Prim2SF 0) with (S754_zero false).
    destruct (Prim2SF k) as [[]|[]| |[] m e]; try reflexivity;
      now destruct (Prim2SF (abs zi - 1)) as [[]|[]| |[] m' e'].
Qed.

(** For a [k] that is not above 1 no iteration of [qpower2] raises. *)
Lemma qpower2_stored_total (k c a I_0 g zi : float) :
  (1 <? k) = false -> exists o, qpower2_stored k c a I_0 g zi = Ok o.
Proof.
  intros Hk. unfold qpower2_stored. cbv zeta.
  destruct (abs zi <=? 1 - k); [now eexists|].
  destruct (abs (abs zi - 1) <? k) eqn:Hlimb; [|now eexists].
  destruct (limb_divisors k zi Hlimb Hk) as [H2 H0].
  unfold qpower2_limb.
  rewrite (checked_div_ok _ _ H2). cbn [rbind]. cbv zeta.
  rewrite (checked_div_ok _ _ H0). cbn [rbind]. now eexists.
Qed.

(** [qpower2] with [k] not above 1 raises exactly when the divisor of
    [I_0] is zero, whatever [z] is. *)
Lemma qpower2_returns (z : list float) (k c a : float) :
  (1 <? k) = false -> (I_0_divisor c a =? 0) = false ->
  exists f, qpower2 z k c a = Ok f.
Proof.
  intros Hk Hd. rewrite qpower2_traverse, (checked_div_ok _ _ Hd).
  cbn [rbind]. apply traverse_total. intros zi.
  destruct (qpower2_stored_total k c a ((a + 2) / I_0_divisor c a) (0.5 * a)
              zi Hk) as [o ->].
  now eexists.
Qed.

Lemma qpower2_raises (z : list float) (k c a : float) :
  (I_0_divisor c a =? 0) = true -> qpower2 z k c a = Raise division_by_zero.
Proof.
  intros Hd. rewrite qpower2_traverse. unfold checked_div. now rewrite Hd.
Qed.

(** Where [qpower2] returns, an entry that fails both tests is 1. *)
Lemma qpower2_untouched (z : list float) (k c a : float) (f : list float)
    (i : nat) (zi : float) :
  qpower2 z k c a = Ok f -> z !! i = Some zi ->
  (abs zi <=? 1 - k) = false -> (abs (abs zi - 1) <? k) = false ->
  f !! i = Some 1.
Proof.
  rewrite qpower2_traverse.
  destruct (checked_div (a + 2) (I_0_divisor c a)) as [I_0|e]; [|discriminate].
  cbn [rbind]. intros Hf Hz Hin Hlimb.
  destruct (traverse_lookup _ _ _ _ _ Hf Hz) as (y & Hy & ->).
  unfold qpower2_stored in Hy. cbv zeta in Hy. rewrite Hin, Hlimb in Hy.
  cbn in Hy. now injection Hy as <-.
Qed.

(** C9 (as the code has it): for [k] in (0, 1), an entry [z_i] with
    [abs(z_i) > 1 + k], the sentinel 9999 among them, gives exactly 1 in
    [ueclipse], and in [qpower2] for every [c] and [a] that leave the
    divisor [pi*(a-c*a+2)] of [I_0] nonzero: the entry of the array of ones
    is never written.  Where that divisor is zero [qpower2] raises
    [ZeroDivisionError], whatever [z] is. *)
Theorem no_overlap_flux_is_one (z : list float) (k c a : float)
    (i : nat) (zi : float) :
  (0 <? k) = true -> (k <? 1) = true ->
  z !! i = Some zi ->
  (1 + k <? abs zi) = true \/ zi = 9999 ->
  ((I_0_divisor c a =? 0) = false ->
     exists f, qpower2 z k c a = Ok f /\ f !! i = Some 1) /\
  ((I_0_divisor c a =? 0) = true ->
     qpower2 z k c a = Raise division_by_zero) /\
  exists fl, ueclipse z k = Ok fl /\ fl !! i = Some 1.
Proof.
  intros H0 H1 Hz Hfar.
  assert (Hbeyond : (1 + k <? abs zi) = true).
  { destruct Hfar as [H| ->]; [exact H|]. now apply Round.sentinel_beyond. }
  destruct (Round.beyond_one_plus_k k (abs zi) H0 H1 Hbeyond) as [Hin Hlimb].
  pose proof (FloatFacts.ltb_true_ltb_flip _ _ H1) as Hk.
  split; [|split].
  - intros Hd. destruct (qpower2_returns z k c a Hk Hd) as [f Hf].
    exists f. split; [exact Hf|].
    exact (qpower2_untouched z k c a f i zi Hf Hz Hin Hlimb).
  - apply qpower2_raises.
  - unfold ueclipse. rewrite Hk.
    eexists. split; [reflexivity|].
    rewrite for_enumerate_untouched.
    + exact (ones_like_lookup z i zi Hz).
    + apply ueclipse_body_own.
    + intros x Hx _ f'. rewrite Nat.sub_0_r, Hz in Hx. injection Hx as <-.
      unfold ueclipse_body. now rewrite Hin, Hlimb.
Qed.

End NoOverlap.

Section NoOverlapExample.

Open Scope float_scope.

(** With [c = a = 2] the divisor of [I_0] is zero: [qpower2] raises for
    an array that holds nothing but the sentinel. *)
Lemma qpower2_singular_counterexample :
  (0 <? 0.1) = true /\ (0.1 <? 1) = true /\ (1 + 0.1 <? abs 9999) = true /\
  @qpower2 Example.libm [9999] 0.1 2 2 = Raise division_by_zero.
Proof. repeat split. Qed.

Lemma no_overlap_flux_is_one_witness :
  let z := [0; 1.25; -1.5; 9999] in
  ((0 <? 0.1) = true /\ (0.1 <? 1) = true /\ z !! 2%nat = Some (-1.5) /\
   ((1 + 0.1 <? abs (-1.5)) = true \/ -1.5 = 9999)) /\
  ((I_0_divisor 0.5 0.7 =? 0) = false /\
   exists f, @qpower2 Example.libm z 0.1 0.5 0.7 = Ok f /\
     f !! 2%nat = Some 1) /\
  ((I_0_divisor 2 2 =? 0) = true /\
   @qpower2 Example.libm z 0.1 2 2 = Raise division_by_zero) /\
  exists fl, @ueclipse Example.libm z 0.1 = Ok fl /\ fl !! 2%nat = Some 1.
Proof.
  intros z.
  assert (H0 : (0 <? 0.1) = true) by reflexivity.
  assert (H1 : (0.1 <? 1) = true) by reflexivity.
  assert (Hz : z !! 2%nat = Some (-1.5)) by reflexivity.
  assert (Hfar : (1 + 0.1 <? abs (-1.5)) = true \/ -1.5 = 9999)
    by (left; reflexivity).
  assert (Hd : (I_0_divisor 0.5 0.7 =? 0) = false) by reflexivity.
  assert (Hs : (I_0_divisor 2 2 =? 0) = true) by reflexivity.
  split; [tauto|].
  split; [split; [exact Hd|]|split; [split; [exact Hs|]|]].
  - exact (proj1 (@no_overlap_flux_is_one Example.libm z 0.1 0.5 0.7 2 (-1.5)
                    H0 H1 Hz Hfar) Hd).
  - exact (proj1 (proj2 (@no_overlap_flux_is_one Example.libm z 0.1 2 2 2 (-1.5)
                           H0 H1 Hz Hfar)) Hs).
  - exact (proj2 (proj2 (@no_overlap_flux_is_one Example.libm z 0.1 0.5 0.7 2
                           (-1.5) H0 H1 Hz Hfar))).
Defined.

End NoOverlapExample.

(** * [scaled_transit_fit] against the closed form *)

Module Tab.

Lemma tab_length n e : length (tab n e) = n.
Proof. unfold tab. now rewrite length_map, length_seq. Qed.

Lemma tab_map g n e : map g (tab n e) = tab n (fun i => g (e i)).
Proof. unfold tab. now rewrite map_map. Qed.

Lemma zip_with_map_same {A} (f : float -> float -> float)
    (e1 e2 : A -> float) (l : list A) :
  zip_with f (map e1 l) (map e2 l) = map (fun i => f (e1 i) (e2 i)) l.
Proof. induction l as [|a l IH]; simpl; [reflexivity|now rewrite IH]. Qed.

Lemma tab_zip_with f n e1 e2 :
  zip_with f (tab n e1) (tab n e2) = tab n (fun i => f (e1 i) (e2 i)).
Proof. apply zip_with_map_same. Qed.

Lemma tab_of_list (xs : list float) (d : float) :
  xs = tab (length xs) (fun i => nth i xs d).
Proof.
  unfold tab. induction xs as [|x xs IH]; simpl; [reflexivity|].
  f_equal. rewrite <- seq_shift, map_map. exact IH.
Qed.

Lemma arr2_tab f n e1 e2 :
  Nd.arr2 f (tab n e1) (tab n e2) = Ok (tab n (fun i => f (e1 i) (e2 i))).
Proof.
  unfold Nd.arr2. rewrite !tab_length, Nat.eqb_refl.
  now rewrite tab_zip_with.
Qed.

End Tab.

Section ScaledFacts.

Open Scope float_scope.
Import Np Nd Tab.

Variables (flux : list float) (sigma : operand) (model : list float).
Hypothesis shapes : shapes_agree flux sigma model.

Lemma weights_raise (sg : operand) :
  zero_weight_divisor sg = true -> weights sg = Raise division_by_zero.
Proof.
  unfold zero_weight_divisor, weights, checked_div.
  destruct sg as [x|xs]; [|discriminate]. now intros ->.
Qed.

Lemma weights_times (e : nat -> float) :
  zero_weight_divisor sigma = false ->
  exists w, weights sigma = Ok w /\
    opl mul w (tab (length flux) e)
    = Ok (tab (length flux) (fun i => w_ sigma i * e i)).
Proof using shapes.
  destruct shapes as [_ Hs]. unfold zero_weight_divisor, weights, w_.
  destruct sigma as [x|xs]; intros Hz.
  - unfold checked_div. rewrite Hz. cbn [rbind]. eexists.
    split; [reflexivity|]. simpl. now rewrite tab_map.
  - eexists. split; [reflexivity|]. cbn [opl].
    rewrite (tab_of_list xs 0) at 1. rewrite Hs, !tab_map.
    now rewrite arr2_tab.
Qed.

Lemma model_minus_one :
  map (fun x => x - 1) model = tab (length flux) (fun i => m_ model i - 1).
Proof using shapes.
  destruct shapes as [Hm _].
  rewrite (tab_of_list model 0) at 1. now rewrite Hm, tab_map.
Qed.

Lemma flux_minus_one :
  map (fun x => x - 1) flux = tab (length flux) (fun i => f_ flux i - 1).
Proof. rewrite (tab_of_list flux 0) at 1. now rewrite tab_map. Qed.

(** With [b**4] not zero, [b**2] is not zero. *)
Lemma fourth_power_divisor (b : float) :
  (b ^ 4 =? 0) = false -> (b ^ 2 =? 0) = false.
Proof.
  change (b ^ 4) with (1 * ((b * b) * (b * b))).
  rewrite ExactFloat.square_eq, ExactFloat.mul_one_l.
  rewrite !FloatAxioms.eqb_spec, (mul_spec (b * b)).
  change (Prim2SF 0) with (S754_zero false).
  now destruct (Prim2SF (b * b)) as [[]|[]| |[] m e].
Qed.

Lemma positive_divisor (x : float) : (0 <? x) = true -> (x =? 0) = false.
Proof.
  rewrite ltb_spec, FloatAxioms.eqb_spec.
  change (Prim2SF 0) with (S754_zero false).
  now destruct (Prim2SF x) as [[]|[]| |[] m e].
Qed.

(** [scaled_transit_fit] computes the closed form, entry by entry: it
    raises where [sigma**2] or [b**4] is a zero divisor, answers with four
    not-a-numbers in the degenerate cases that it reaches, and with the
    values of the formulas everywhere else. *)
Lemma scaled_transit_fit_closed_form :
  scaled_transit_fit flux sigma model =
    if (n_points flux <? 3)%nat then Ok nan4
    else if zero_weight_divisor sigma then Raise division_by_zero
    else if normal_den flux sigma model =? 0 then Ok nan4
    else if zero_b_divisor flux sigma model then Raise division_by_zero
    else if 0 <? curvature flux sigma model then
      Ok (s_hat flux sigma model, b_hat flux sigma model,
          sigma_s_hat flux sigma model, sigma_b_hat flux sigma model)
    else Ok nan4.
Proof using shapes.
  unfold scaled_transit_fit, n_points. cbv zeta.
  destruct (length flux <? 3)%nat eqn:HN; [reflexivity|].
  destruct (zero_weight_divisor sigma) eqn:Hz.
  { now rewrite (weights_raise _ Hz). }
  rewrite model_minus_one, flux_minus_one, !tab_map.
  destruct (weights_times (fun i => (m_ model i - 1)^2) Hz) as (w & Hw & E1).
  destruct (weights_times (fun i => m_ model i - 1) Hz) as (w2 & Hw2 & E2).
  rewrite Hw in Hw2. injection Hw2 as <-.
  rewrite Hw. cbn [rbind]. rewrite E1. cbn [rbind].
  change (sum (tab (length flux) (fun i => w_ sigma i * (m_ model i - 1)^2)))
    with (normal_den flux sigma model).
  destruct (normal_den flux sigma model =? 0) eqn:Hden; [reflexivity|].
  rewrite E2. cbn [rbind].
  rewrite (arr2_tab mul (length flux) (fun i => w_ sigma i * (m_ model i - 1))
             (fun i => f_ flux i - 1)).
  cbn [rbind].
  change (sum (tab (length flux)
                (fun i => w_ sigma i * (m_ model i - 1) * (f_ flux i - 1))))
    with (normal_num flux sigma model).
  unfold checked_div at 1. rewrite Hden. cbn [rbind].
  change (normal_num flux sigma model / normal_den flux sigma model)
    with (s_hat flux sigma model).
  rewrite tab_map.
  rewrite (arr2_tab sub (length flux) (fun i => f_ flux i - 1)
             (fun i => s_hat flux sigma model * (m_ model i - 1))).
  cbn [rbind]. rewrite tab_map.
  destruct (weights_times
              (fun i => ((f_ flux i - 1)
                         - s_hat flux sigma model * (m_ model i - 1))^2) Hz)
    as (w3 & Hw3 & E3).
  rewrite Hw in Hw3. injection Hw3 as <-. rewrite E3. cbn [rbind].
  change (sum (tab (length flux) (fun i => w_ sigma i *
            ((f_ flux i - 1) - s_hat flux sigma model * (m_ model i - 1))^2)))
    with (chisq_hat flux sigma model).
  change (PrimFloat.sqrt (chisq_hat flux sigma model / of_nat (length flux)))
    with (b_hat flux sigma model).
  unfold checked_div at 1. rewrite (Nonzero.sqrt_nonzero _ Hden). cbn [rbind].
  unfold zero_b_divisor. unfold checked_div at 1.
  destruct (b_hat flux sigma model ^ 4 =? 0) eqn:Hb4; [reflexivity|].
  cbn [rbind]. unfold checked_div at 1.
  rewrite (fourth_power_divisor _ Hb4). cbn [rbind].
  change (3 * chisq_hat flux sigma model / b_hat flux sigma model ^ 4
          - of_nat (length flux) / b_hat flux sigma model ^ 2)
    with (curvature flux sigma model).
  destruct (0 <? curvature flux sigma model) eqn:Hc; [|reflexivity].
  unfold checked_div.
  rewrite (Nonzero.sqrt_nonzero _ (positive_divisor _ Hc)). reflexivity.
Qed.

End ScaledFacts.

(** * Not-a-number and zero through the arithmetic *)

Module NanFacts.

Open Scope float_scope.

Lemma nan_is_nan : sf_nan nan.
Proof. reflexivity. Qed.

Lemma sub_nan_l x y : sf_nan x -> sf_nan (x - y).
Proof. unfold sf_nan. rewrite sub_spec. now intros ->. Qed.

Lemma sub_nan_r x y : sf_nan y -> sf_nan (x - y).
Proof.
  unfold sf_nan. rewrite sub_spec. intros ->.
  now destruct (Prim2SF x) as [[]|[]| |[] m e].
Qed.

Lemma div_nan_r x y : sf_nan y -> sf_nan (x / y).
Proof.
  unfold sf_nan. rewrite div_spec. intros ->.
  now destruct (Prim2SF x) as [[]|[]| |[] m e].
Qed.

Lemma mul_nan_l x y : sf_nan x -> sf_nan (x * y).
Proof. unfold sf_nan. rewrite mul_spec. now intros ->. Qed.

Lemma mul_nan_r x y : sf_nan y -> sf_nan (x * y).
Proof.
  unfold sf_nan. rewrite mul_spec. intros ->.
  now destruct (Prim2SF x) as [[]|[]| |[] m e].
Qed.

Lemma ltb_nan_r x y : sf_nan y -> (x <? y) = false.
Proof.
  unfold sf_nan. rewrite ltb_spec. intros ->. unfold SFltb.
  now destruct (Prim2SF x) as [[]|[]| |[] m e].
Qed.

Lemma square_nan x : sf_nan x -> sf_nan (x ^ 2).
Proof. intros H. apply mul_nan_r, mul_nan_l, H. Qed.

Lemma eqb_zero x : (x =? 0) = true -> sf_zero_or_nan x.
Proof.
  rewrite FloatAxioms.eqb_spec. unfold sf_zero_or_nan, SFeqb.
  change (Prim2SF 0) with (S754_zero false).
  now destruct (Prim2SF x) as [[]|[]| |[] m e].
Qed.

Lemma div_zero_or_nan_l x y : sf_zero_or_nan x -> sf_zero_or_nan (x / y).
Proof.
  unfold sf_zero_or_nan. rewrite div_spec.
  destruct (Prim2SF x) as [[]|[]| |[] m e]; try easy;
    now destruct (Prim2SF y) as [[]|[]| |[] m' e'].
Qed.

Lemma sqrt_zero_or_nan x : sf_zero_or_nan x -> sf_zero_or_nan (PrimFloat.sqrt x).
Proof.
  unfold sf_zero_or_nan. rewrite sqrt_spec.
  now destruct (Prim2SF x) as [[]|[]| |[] m e].
Qed.

Lemma mul_zero_or_nan x y :
  sf_zero_or_nan x -> sf_zero_or_nan y -> sf_zero_or_nan (x * y).
Proof.
  unfold sf_zero_or_nan. rewrite mul_spec.
  destruct (Prim2SF x) as [[]|[]| |[] m e]; try easy;
    now destruct (Prim2SF y) as [[]|[]| |[] m' e'].
Qed.

Lemma const_mul_zero_or_nan c x :
  (exists s m e, Prim2SF c = S754_finite s m e) ->
  sf_zero_or_nan x -> sf_zero_or_nan (c * x).
Proof.
  intros (s & m & e & Hc). unfold sf_zero_or_nan. rewrite mul_spec, Hc.
  now destruct (Prim2SF x) as [[]|[]| |[] m' e'].
Qed.

Lemma fourth_power_zero_or_nan x : sf_zero_or_nan x -> sf_zero_or_nan (x ^ 4).
Proof.
  intros H. change (x ^ 4) with (1 * ((x * x) * (x * x))).
  apply const_mul_zero_or_nan; [now exists false, 4503599627370496%positive, (-52)%Z|].
  now repeat apply mul_zero_or_nan.
Qed.

(** [0/0], and anything else built from zeros and not-a-numbers by a
    division, is not a number. *)
Lemma div_zero_or_nan x y : sf_zero_or_nan x -> sf_zero_or_nan y -> sf_nan (x / y).
Proof.
  unfold sf_zero_or_nan, sf_nan. rewrite div_spec.
  destruct (Prim2SF x) as [[]|[]| |[] m e]; try easy;
    now destruct (Prim2SF y) as [[]|[]| |[] m' e'].
Qed.

End NanFacts.

Section ScaledTheorems.

Open Scope float_scope.
Import Np Nd NanFacts.

(** With a positive curvature term, [b] is a number. *)
Lemma positive_curvature_b_hat flux sigma model :
  (0 <? curvature flux sigma model) = true ->
  b_hat flux sigma model <> nan.
Proof.
  intros Hc Hb.
  rewrite ltb_nan_r in Hc; [discriminate|].
  unfold curvature. apply sub_nan_r, div_nan_r, square_nan.
  rewrite Hb. exact nan_is_nan.
Qed.

(** With a chi-square that is zero or not a number, the curvature term of
    the closed form is not a number: [0/0] in the first case. *)
Lemma degenerate_chisq_curvature flux sigma model :
  sf_zero_or_nan (chisq_hat flux sigma model) ->
  (0 <? curvature flux sigma model) = false.
Proof.
  intros Hc.
  apply ltb_nan_r. unfold curvature. apply sub_nan_l, div_zero_or_nan.
  - apply const_mul_zero_or_nan; [|exact Hc].
    now exists false, 6755399441055744%positive, (-51)%Z.
  - apply fourth_power_zero_or_nan. unfold b_hat.
    now apply sqrt_zero_or_nan, div_zero_or_nan_l.
Qed.

Lemma nan_zero_or_nan x : sf_nan x -> sf_zero_or_nan x.
Proof. unfold sf_nan, sf_zero_or_nan. now intros ->. Qed.

(** C4 (as the code has it): for at least 3 points, a nonzero weighted sum
    of squares and no zero divisor ([sigma**2] for a scalar sigma, and
    [b**4]), [scaled_transit_fit] returns the normal-equation solution [s],
    [b = sqrt(chisq/N)], [sigma_s = b / sqrt(sum w (m-1)^2)] and [sigma_b]
    when the curvature term is positive, and four not-a-numbers when it is
    not. *)
Theorem scaled_transit_fit_normal_equations flux sigma model :
  shapes_agree flux sigma model ->
  (3 <= length flux)%nat ->
  zero_weight_divisor sigma = false ->
  (normal_den flux sigma model =? 0) = false ->
  zero_b_divisor flux sigma model = false ->
  scaled_transit_fit flux sigma model
    = if 0 <? curvature flux sigma model
      then Ok (s_hat flux sigma model, b_hat flux sigma model,
               sigma_s_hat flux sigma model, sigma_b_hat flux sigma model)
      else Ok nan4.
Proof.
  intros Hsh HN Hz Hden Hb.
  rewrite (scaled_transit_fit_closed_form _ _ _ Hsh).
  unfold n_points. rewrite Hz, Hden, Hb.
  destruct (Nat.ltb_spec (length flux) 3) as [Hlt|_]; [lia|reflexivity].
Qed.

End ScaledTheorems.

Section ScaledExamples.

Open Scope float_scope.

(** C1: an exact fit with three points, a uniform sigma and a model that
    is not 1 everywhere.  The closed form has [s = 1] and [b = 0], and the
    compiled function divides by [b**4 = 0] before it reaches the test of
    the curvature term: it raises [ZeroDivisionError]. *)
Theorem scaled_transit_fit_exact_fit_raises :
  let flux := [0.5; 0.75; 1] in
  let model := [0.5; 0.75; 1] in
  let sigma := 1 in
  (3 <= length flux)%nat /\ (0 <? sigma) = true /\ flux = model /\
  ~ Forall (fun m => m = 1) model /\
  s_hat flux (Scalar sigma) model = 1 /\ b_hat flux (Scalar sigma) model = 0 /\
  scaled_transit_fit flux (Scalar sigma) model = Raise division_by_zero.
Proof.
  intros flux model sigma.
  split; [simpl; lia|]. split; [reflexivity|]. split; [reflexivity|].
  split.
  { intros H. apply Forall_cons in H as [H _].
    assert (E : (0.5 =? 1) = (1 =? 1)) by now rewrite H.
    discriminate E. }
  vm_compute. repeat split.
Qed.

(** C5: a curvature collapse, the third of the degenerate cases.  The
    fit is exact with [s = 2], the chi-square is zero and the curvature
    term of the closed form is [0/0], which is not positive; the compiled
    function divides by [b**4 = 0], raises [ZeroDivisionError] and does
    not get to return the four not-a-numbers. *)
Theorem scaled_transit_fit_curvature_collapse_raises :
  let flux := [1; 0.5; 0; 0.5; 1] in
  let sigma := Array [0.5; 0.25; 0.25; 0.25; 0.5] in
  let model := [1; 0.75; 0.5; 0.75; 1] in
  (3 <= length flux)%nat /\
  (normal_den flux sigma model =? 0) = false /\
  chisq_hat flux sigma model = 0 /\
  (0 <? curvature flux sigma model) = false /\
  degenerate flux sigma model = true /\
  scaled_transit_fit flux sigma model = Raise division_by_zero.
Proof. vm_compute. repeat split; lia. Qed.

(** A nonzero weighted sum of squares does not make the function return
    the closed-form values: here the residuals overflow, the curvature
    term is not a number although no divisor is zero, and the answer is
    four not-a-numbers while the closed-form [s] is a number. *)
Lemma scaled_transit_fit_returns_nan_counterexample :
  let flux := [0x1p+600; 1; 1] in
  let sigma := Scalar 1 in
  let model := [0.5; 0.75; 1] in
  (3 <= length flux)%nat /\ (0 <? 1) = true /\
  (normal_den flux sigma model =? 0) = false /\
  is_nan (s_hat flux sigma model) = false /\
  scaled_transit_fit flux sigma model = Ok nan4.
Proof. vm_compute. repeat split; lia. Qed.

Lemma scaled_transit_fit_normal_equations_witness :
  let flux := [1; 0.5; 0.25; 0.5; 1.25] in
  let sigma := Array [0.5; 0.5; 0.25; 0.5; 1] in
  let model := [1; 0.75; 0.5; 0.75; 1] in
  (shapes_agree flux sigma model /\ (3 <= length flux)%nat /\
   zero_weight_divisor sigma = false /\
   (normal_den flux sigma model =? 0) = false /\
   zero_b_divisor flux sigma model = false) /\
  (0 <? curvature flux sigma model) = true /\
  scaled_transit_fit flux sigma model
    = if 0 <? curvature flux sigma model
      then Ok (s_hat flux sigma model, b_hat flux sigma model,
               sigma_s_hat flux sigma model, sigma_b_hat flux sigma model)
      else Ok nan4.
Proof.
  intros flux sigma model.
  assert (Hsh : shapes_agree flux sigma model) by (split; reflexivity).
  assert (HN : (3 <= length flux)%nat) by (simpl; lia).
  assert (Hz : zero_weight_divisor sigma = false) by reflexivity.
  assert (Hden : (normal_den flux sigma model =? 0) = false) by reflexivity.
  assert (Hb : zero_b_divisor flux sigma model = false) by reflexivity.
  split; [tauto|]. split; [reflexivity|].
  exact (scaled_transit_fit_normal_equations flux sigma model
           Hsh HN Hz Hden Hb).
Defined.

End ScaledExamples.

(** * The kernels, entry by entry *)

Section KernelEntries.

Context {ML : MathLib}.
Open Scope float_scope.
Import Np.

Lemma for_enumerate_stores {A} body (stored : A -> option float) :
  stores body stored ->
  forall xs pre ys, length ys = length xs ->
    for_enumerate body (length pre) xs (pre ++ ys)
    = pre ++ zip_with (fun x y => default y (stored x)) xs ys.
Proof.
  intros Hb xs. induction xs as [|x xs IH]; intros pre ys Hlen.
  - destruct ys; [reflexivity|discriminate].
  - destruct ys as [|y ys]; [discriminate|]. injection Hlen as Hlen.
    cbn [for_enumerate zip_with]. rewrite Hb.
    assert (E : match stored x with
                | Some v => <[length pre := v]> (pre ++ y :: ys)
                | None => pre ++ y :: ys
                end = (pre ++ [default y (stored x)]) ++ ys).
    { rewrite <- app_assoc. cbn [app].
      destruct (stored x) as [v|]; [|reflexivity].
      rewrite insert_app_r_alt by lia. now rewrite Nat.sub_diag. }
    rewrite E.
    replace (S (length pre)) with (length (pre ++ [default y (stored x)]))
      by (rewrite length_app; simpl; lia).
    rewrite IH by exact Hlen. now rewrite <- app_assoc.
Qed.

Lemma zip_with_replicate {A} (h : A -> float -> float) (xs : list A) v :
  zip_with h xs (replicate (length xs) v) = map (fun x => h x v) xs.
Proof. induction xs as [|x xs IH]; simpl; [reflexivity|now rewrite IH]. Qed.

Lemma for_enumerate_map {A} body (stored : A -> option float) (xs : list A) v :
  stores body stored ->
  for_enumerate body 0 xs (replicate (length xs) v)
  = map (fun x => default v (stored x)) xs.
Proof.
  intros Hb.
  pose proof (for_enumerate_stores body stored Hb xs []
                (replicate (length xs) v) (length_replicate _ _)) as H.
  cbn [length app] in H. rewrite H.
  apply (zip_with_replicate (fun x y => default y (stored x))).
Qed.

Lemma ueclipse_body_stores k : stores (ueclipse_body k) (ueclipse_stored k).
Proof.
  intros i x f. unfold ueclipse_body, ueclipse_stored. cbv zeta.
  destruct (abs x <=? 1 - k); [reflexivity|].
  destruct (abs (abs x - 1) <? k); reflexivity.
Qed.

(** The loop of [ueclipse] as a map. *)
Lemma ueclipse_map z k :
  ueclipse z k =
    if 1 <? k then Raise (ValueError "ueclipse requires k < 1")
    else Ok (map (fun zi => default 1 (ueclipse_stored k zi)) z).
Proof.
  unfold ueclipse, ones_like, full_like. cbv zeta.
  destruct (1 <? k); [reflexivity|]. f_equal.
  apply for_enumerate_map, ueclipse_body_stores.
Qed.

(** X1: a kernel evaluated on two arrays one after the other gives the
    two parts of what it gives on their concatenation, and raises on the
    concatenation what the first part that raises does: the
    [ZeroDivisionError] of an entry of [qpower2], the [ValueError] of
    [ueclipse]. *)
Theorem kernels_concatenate (z1 z2 : list float) (k c a : float) :
  qpower2 (z1 ++ z2) k c a =
    (let* f1 := qpower2 z1 k c a in
     let* f2 := qpower2 z2 k c a in
     Ok (f1 ++ f2)) /\
  ueclipse (z1 ++ z2) k =
    (let* f1 := ueclipse z1 k in
     let* f2 := ueclipse z2 k in
     Ok (f1 ++ f2)).
Proof.
  split.
  - rewrite !qpower2_traverse.
    destruct (checked_div (a + 2) (I_0_divisor c a)); [|reflexivity].
    cbn [rbind]. apply traverse_app.
  - rewrite !ueclipse_map. destruct (1 <? k); [reflexivity|].
    cbn [rbind]. now rewrite map_app.
Qed.

(** X2: where a kernel returns, an output entry depends on the parameters
    and on the entry of [z] at the same index only, not on the index nor
    on the rest of the array. *)
Theorem kernels_entrywise (z z' : list float) (k c a : float)
    (i j : nat) (zi : float) :
  z !! i = Some zi -> z' !! j = Some zi ->
  (forall f f', qpower2 z k c a = Ok f -> qpower2 z' k c a = Ok f' ->
     f !! i = f' !! j) /\
  forall fl fl', ueclipse z k = Ok fl -> ueclipse z' k = Ok fl' ->
    fl !! i = fl' !! j.
Proof.
  intros Hi Hj. split.
  - intros f f'. rewrite !qpower2_traverse.
    destruct (checked_div (a + 2) (I_0_divisor c a)) as [I_0|];
      [|discriminate].
    cbn [rbind]. intros Hf Hf'.
    destruct (traverse_lookup _ _ _ _ _ Hf Hi) as (y & Hy & ->).
    destruct (traverse_lookup _ _ _ _ _ Hf' Hj) as (y' & Hy' & ->).
    rewrite Hy in Hy'. now injection Hy' as <-.
  - intros fl fl'. rewrite !ueclipse_map.
    destruct (1 <? k); [discriminate|]. intros [= <-] [= <-].
    rewrite !list_lookup_fmap, Hi, Hj. reflexivity.
Qed.

(** X3: full occultation.  Where [ueclipse] returns, every entry with
    [abs(z_i) <= 1-k] is exactly 0. *)
Theorem ueclipse_full_occultation (z : list float) (k : float)
    (fl : list float) (i : nat) (zi : float) :
  ueclipse z k = Ok fl -> z !! i = Some zi ->
  (abs zi <=? 1 - k) = true ->
  fl !! i = Some 0.
Proof.
  rewrite ueclipse_map. destruct (1 <? k); [discriminate|].
  intros [= <-] Hi Hin. rewrite list_lookup_fmap, Hi.
  change (Some (default 1 (ueclipse_stored k zi)) = Some 0).
  unfold ueclipse_stored. cbv zeta. rewrite Hin. reflexivity.
Qed.

Lemma is_nan_sf (x : float) : is_nan x = true -> sf_nan x.
Proof.
  unfold is_nan, sf_nan. rewrite FloatAxioms.eqb_spec. unfold SFeqb.
  intros H. destruct (Prim2SF x) as [s|s| |s m e] eqn:E; [| |reflexivity|];
    rewrite MinFacts.SFcompare_refl in H by discriminate; discriminate.
Qed.

Lemma leb_nan_l x y : sf_nan x -> (x <=? y) = false.
Proof. unfold sf_nan. rewrite leb_spec. now intros ->. Qed.

Lemma leb_nan_r x y : sf_nan y -> (x <=? y) = false.
Proof.
  unfold sf_nan. rewrite leb_spec. intros ->. unfold SFleb.
  now destruct (Prim2SF x) as [[]|[]| |[] m e].
Qed.

Lemma ltb_nan_l x y : sf_nan x -> (x <? y) = false.
Proof. unfold sf_nan. rewrite ltb_spec. now intros ->. Qed.

Lemma abs_nan x : sf_nan x -> sf_nan (abs x).
Proof. unfold sf_nan. rewrite abs_spec. now intros ->. Qed.

(** Neither test of the kernels succeeds on a not-a-number. *)
Lemma tests_fail_on_nan (k zi : float) :
  sf_nan zi \/ sf_nan k ->
  (abs zi <=? 1 - k) = false /\ (abs (abs zi - 1) <? k) = false.
Proof.
  intros [Hz|Hk]; split.
  - apply leb_nan_l, abs_nan, Hz.
  - apply ltb_nan_l, abs_nan, NanFacts.sub_nan_l, abs_nan, Hz.
  - apply leb_nan_r, NanFacts.sub_nan_r, Hk.
  - apply NanFacts.ltb_nan_r, Hk.
Qed.

Lemma traverse_ones {A} (h : A -> result float) (xs : list A) :
  (forall x, h x = Ok 1) -> traverse h xs = Ok (replicate (length xs) 1).
Proof.
  intros Hh. induction xs as [|x xs IH]; [reflexivity|].
  cbn [traverse length replicate]. now rewrite Hh, IH.
Qed.

(** X4: not-a-numbers do not propagate.  Where a kernel returns, an entry
    of [z] that is not a number has the flux 1, and so has every entry
    when [k] is not a number: [ueclipse] does not reject such a [k], and
    [qpower2] returns the array of ones for it unless the divisor of
    [I_0] is zero. *)
Theorem kernels_hide_nan (z : list float) (k c a : float)
    (i : nat) (zi : float) :
  z !! i = Some zi -> is_nan zi = true \/ is_nan k = true ->
  (forall f, qpower2 z k c a = Ok f -> f !! i = Some 1) /\
  (is_nan k = true -> (I_0_divisor c a =? 0) = false ->
     qpower2 z k c a = Ok (ones_like z)) /\
  (forall fl, ueclipse z k = Ok fl -> fl !! i = Some 1) /\
  (is_nan k = true -> ueclipse z k = Ok (ones_like z)).
Proof.
  intros Hi Hnan.
  assert (Hn : sf_nan zi \/ sf_nan k)
    by (destruct Hnan as [H|H]; [left|right]; now apply is_nan_sf).
  destruct (tests_fail_on_nan k zi Hn) as [Hin Hlimb].
  split; [|split; [|split]].
  - intros f. rewrite qpower2_traverse.
    destruct (checked_div (a + 2) (I_0_divisor c a)) as [I_0|];
      [|discriminate].
    cbn [rbind]. intros Hf.
    destruct (traverse_lookup _ _ _ _ _ Hf Hi) as (y & Hy & ->).
    unfold qpower2_stored in Hy. cbv zeta in Hy.
    rewrite Hin, Hlimb in Hy. cbn in Hy. now injection Hy as <-.
  - intros Hk Hd. apply is_nan_sf in Hk. rewrite qpower2_traverse.
    unfold checked_div. rewrite Hd. cbn [rbind].
    apply traverse_ones. intros x. unfold qpower2_stored. cbv zeta.
    destruct (tests_fail_on_nan k x (or_intror Hk)) as [-> ->]. reflexivity.
  - intros fl. rewrite ueclipse_map. destruct (1 <? k); [discriminate|].
    intros [= <-]. rewrite list_lookup_fmap, Hi.
    change (Some (default 1 (ueclipse_stored k zi)) = Some 1).
    unfold ueclipse_stored. cbv zeta. now rewrite Hin, Hlimb.
  - intros Hk. apply is_nan_sf in Hk. rewrite ueclipse_map.
    rewrite (NanFacts.ltb_nan_r 1 k Hk). f_equal.
    unfold ones_like, full_like. clear Hi Hn Hin Hlimb Hnan.
    induction z as [|x z IH]; [reflexivity|]. cbn [map length replicate].
    rewrite IH. f_equal. unfold ueclipse_stored. cbv zeta.
    destruct (tests_fail_on_nan k x (or_intror Hk)) as [-> ->]. reflexivity.
Qed.

End KernelEntries.

Section KernelEntriesExamples.

Open Scope float_scope.

Lemma kernels_entrywise_witness :
  let z := [0; 0.95; 1.25] in
  let z' := [0.95] in
  (z !! 1%nat = Some 0.95 /\ z' !! 0%nat = Some 0.95) /\
  (forall f f', @qpower2 Example.libm z 0.1 0.5 0.7 = Ok f ->
     @qpower2 Example.libm z' 0.1 0.5 0.7 = Ok f' ->
     f !! 1%nat = f' !! 0%nat) /\
  forall fl fl', @ueclipse Example.libm z 0.1 = Ok fl ->
    @ueclipse Example.libm z' 0.1 = Ok fl' -> fl !! 1%nat = fl' !! 0%nat.
Proof.
  intros z z'.
  assert (Hi : z !! 1%nat = Some 0.95) by reflexivity.
  assert (Hj : z' !! 0%nat = Some 0.95) by reflexivity.
  split; [tauto|].
  exact (@kernels_entrywise Example.libm z z' 0.1 0.5 0.7 1 0 0.95 Hi Hj).
Defined.

Lemma ueclipse_full_occultation_witness :
  let z := [0.95; 0.25; 3] in
  exists fl,
    (@ueclipse Example.libm z 0.1 = Ok fl /\ z !! 1%nat = Some 0.25 /\
     (abs 0.25 <=? 1 - 0.1) = true) /\
    fl !! 1%nat = Some 0.
Proof.
  intros z.
  let r := eval vm_compute in (@ueclipse Example.libm [0.95; 0.25; 3] 0.1) in
  lazymatch r with
  | Ok ?fl =>
      exists fl;
      assert (Hu : @ueclipse Example.libm z 0.1 = Ok fl)
        by (vm_compute; reflexivity);
      assert (Hi : z !! 1%nat = Some 0.25) by reflexivity;
      assert (Hin : (abs 0.25 <=? 1 - 0.1) = true) by reflexivity;
      split; [tauto|];
      exact (@ueclipse_full_occultation Example.libm z 0.1 fl 1 0.25
               Hu Hi Hin)
  end.
Defined.

Lemma kernels_hide_nan_witness :
  let z := [0; nan; 0.95] in
  (z !! 1%nat = Some nan /\ (is_nan nan = true \/ is_nan 0.1 = true)) /\
  (forall f, @qpower2 Example.libm z 0.1 0.5 0.7 = Ok f ->
     f !! 1%nat = Some 1) /\
  (is_nan 0.1 = true -> (I_0_divisor 0.5 0.7 =? 0) = false ->
     @qpower2 Example.libm z 0.1 0.5 0.7 = Ok (Np.ones_like z)) /\
  (forall fl, @ueclipse Example.libm z 0.1 = Ok fl -> fl !! 1%nat = Some 1) /\
  (is_nan 0.1 = true -> @ueclipse Example.libm z 0.1 = Ok (Np.ones_like z)).
Proof.
  intros z.
  assert (Hi : z !! 1%nat = Some nan) by reflexivity.
  assert (Hn : is_nan nan = true \/ is_nan 0.1 = true) by (left; reflexivity).
  split; [tauto|].
  exact (@kernels_hide_nan Example.libm z 0.1 0.5 0.7 1 nan Hi Hn).
Defined.

(** A radius ratio that is not a number gives the array of ones. *)
Example ueclipse_with_nan_radius :
  @ueclipse Example.libm [0; 0.95; 3] nan = Ok [1; 1; 1].
Proof. vm_compute. reflexivity. Qed.

(** The kernels on an array with an entry that is not a number, and the
    two parts of a concatenation of which the second raises. *)
Example qpower2_with_nan_entry :
  (exists f0 f2, @qpower2 Example.libm [0; nan; 0.95] 0.1 0.5 0.7
                 = Ok [f0; 1; f2]) /\
  @qpower2 Example.libm [0; 0.95; 3] nan 0.5 0.7 = Ok [1; 1; 1] /\
  @qpower2 Example.libm [3] 1.5 0.5 0.7 = Ok [1] /\
  @qpower2 Example.libm [0] 1.5 0.5 0.7 = Raise division_by_zero /\
  @qpower2 Example.libm [3; 0] 1.5 0.5 0.7 = Raise division_by_zero.
Proof.
  split; [eexists _, _; vm_compute; reflexivity|].
  repeat split; vm_compute; reflexivity.
Qed.

End KernelEntriesExamples.

(** * Signs and finiteness through the arithmetic *)

Module SignFacts.

Import Sf.
Open Scope float_scope.

(** The second stage of rounding keeps the sign. *)
Lemma finish_sign (sx : bool) (m1 e1 : Z) :
  match finish sx m1 e1 with
  | S754_zero s | S754_infinity s | S754_finite s _ _ => s = sx
  | S754_nan => True
  end.
Proof.
  unfold finish. destruct (shr_fexp prec emax m1 e1 loc_Exact) as [mrs e2].
  destruct (shr_m mrs); [reflexivity| |exact I].
  destruct (e2 <=? emax - prec)%Z; reflexivity.
Qed.

Lemma round_aux_sign (sx : bool) (mx ex : Z) (lx : location) :
  match binary_round_aux prec emax sx mx ex lx with
  | S754_zero s | S754_infinity s | S754_finite s _ _ => s = sx
  | S754_nan => True
  end.
Proof.
  rewrite Round.binary_round_aux_finish.
  destruct (shr_fexp prec emax mx ex lx) as [mrs e1]. apply finish_sign.
Qed.

(** A square root is not negative: it is a zero, positive, or not a
    number. *)
Lemma sqrt_sign (x : float) :
  match Prim2SF (PrimFloat.sqrt x) with
  | S754_infinity true | S754_finite true _ _ => False
  | _ => True
  end.
Proof.
  rewrite sqrt_spec. unfold SF64sqrt, SFsqrt.
  destruct (Prim2SF x) as [s|[]| |[] m e]; try exact I.
  destruct (SFsqrt_core_binary prec emax (Z.pos m) e) as [[mz ez] lz].
  pose proof (round_aux_sign false mz ez lz) as H.
  destruct (binary_round_aux prec emax false mz ez lz) as [s|s| |s m' e'];
    try exact I; now subst s.
Qed.

Lemma is_finite_sf (x : float) :
  is_finite x = true ->
  match Prim2SF x with
  | S754_zero _ | S754_finite _ _ _ => True
  | _ => False
  end.
Proof.
  unfold is_finite. rewrite ltb_spec, abs_spec.
  now destruct (Prim2SF x) as [s|[]| |s m e].
Qed.

(** [1 + L*(1 - 1)] is 1 for a finite [L]. *)
Lemma one_plus_nothing (L : float) : is_finite L = true -> 1 + L * (1 - 1) = 1.
Proof.
  intros H. apply is_finite_sf in H. apply Prim2SF_inj.
  rewrite add_spec, mul_spec. change (Prim2SF (1 - 1)) with (S754_zero false).
  change (Prim2SF 1) with SF_one.
  now destruct (Prim2SF L) as [s|s| |s m e].
Qed.

(** [x * (-1)] is [-x]. *)
Lemma mul_minus_one (x : float) : x * (0 - 1) = - x.
Proof.
  apply Prim2SF_inj. rewrite mul_spec, opp_spec.
  change (Prim2SF (0 - 1)) with (S754_finite true 4503599627370496 (-52)).
  pose proof (Prim2SF_valid x) as V. unfold SF64mul.
  destruct (Prim2SF x) as [s|s| |s m e]; cbn [SFmul SFopp];
    [now destruct s|now destruct s|reflexivity|].
  rewrite (Pos.mul_comm m), (Z.add_comm e).
  rewrite (Exact.round_aux_times_one _ m e V). now destruct s.
Qed.

(** [x + (-y)] is [x - y]. *)
Lemma add_opp (x y : float) : x + (- y) = x - y.
Proof.
  apply Prim2SF_inj. rewrite add_spec, sub_spec, opp_spec.
  unfold SF64add, SF64sub.
  destruct (Prim2SF x) as [[]|[]| |sx mx ex], (Prim2SF y) as [[]|[]| |sy my ey];
    try reflexivity.
  cbn [SFadd SFsub SFopp]. f_equal. destruct sy; cbn [negb cond_Zopp]; lia.
Qed.

(** [1 + L*(0 - 1)] is [1 - L]. *)
Lemma one_minus_depth (L : float) : 1 + L * (0 - 1) = 1 - L.
Proof. now rewrite mul_minus_one, add_opp. Qed.

(** [x * 1] is [x]. *)
Lemma mul_one_r (x : float) : x * 1 = x.
Proof.
  apply Prim2SF_inj. rewrite mul_spec. change (Prim2SF 1) with SF_one.
  pose proof (Prim2SF_valid x) as V.
  destruct (Prim2SF x) as [s|s| |s m e]; unfold SF64mul; cbn [SFmul SF_one];
    rewrite ?xorb_false_r; try reflexivity.
  rewrite (Pos.mul_comm m), (Z.add_comm e).
  exact (Exact.round_aux_times_one _ m e V).
Qed.

(** Above 1 is above 0.5. *)
Lemma above_one_above_half (k : float) : (1 <? k) = true -> (0.5 <? k) = true.
Proof.
  rewrite !ltb_spec. pose proof (Prim2SF_valid k) as V.
  change (Prim2SF 1) with SF_one.
  change (Prim2SF 0.5) with (S754_finite false 4503599627370496 (-53)).
  destruct (Prim2SF k) as [s|[]| |[] m e]; try (intros; discriminate);
    try reflexivity.
  assert (Vh : bounded prec emax 4503599627370496 (-53) = true) by reflexivity.
  rewrite (Round.SFltb_ext SF_one (S754_finite false m e) _ _
             Round.one_bounded V eq_refl eq_refl).
  rewrite (Round.SFltb_ext (S754_finite false 4503599627370496 (-53))
             (S754_finite false m e) _ _ Vh V eq_refl eq_refl).
  intros H. apply Z.ltb_lt in H. apply Z.ltb_lt.
  eapply Z.lt_trans; [|exact H].
  apply Round.scaled_lt_exponent; [exact Vh|exact Round.one_bounded|lia].
Qed.

(** A float that is positive and not above 0.5 lies in (0, 1). *)
Lemma positive_at_most_half (m : positive) (e : Z) (k : float) :
  Prim2SF k = S754_finite false m e -> (0.5 <? k) = false ->
  (0 <? k) = true /\ (k <? 1) = true.
Proof.
  intros E. rewrite !ltb_spec. pose proof (Prim2SF_valid k) as V.
  rewrite E in *. change (Prim2SF 1) with SF_one.
  change (Prim2SF 0.5) with (S754_finite false 4503599627370496 (-53)).
  assert (Vh : bounded prec emax 4503599627370496 (-53) = true) by reflexivity.
  rewrite (Round.SFltb_ext (S754_finite false m e) SF_one _ _
             V Round.one_bounded eq_refl eq_refl).
  rewrite (Round.SFltb_ext (S754_finite false 4503599627370496 (-53))
             (S754_finite false m e) _ _ Vh V eq_refl eq_refl).
  intros H. apply Z.ltb_ge in H. split; [reflexivity|]. apply Z.ltb_lt.
  eapply Z.le_lt_trans; [exact H|].
  apply Round.scaled_lt_exponent; [exact Vh|exact Round.one_bounded|lia].
Qed.

End SignFacts.

(** * The divisor of [I_0] behind the guards of the transit model *)

Module Guarded.

Import Sf.
Open Scope float_scope.

Lemma add_nan_l (x y : float) : sf_nan x -> sf_nan (x + y).
Proof. unfold sf_nan. rewrite add_spec. now intros ->. Qed.

Lemma add_nan_r (x y : float) : sf_nan y -> sf_nan (x + y).
Proof.
  unfold sf_nan. rewrite add_spec. intros ->.
  now destruct (Prim2SF x) as [[]|[]| |[] m e].
Qed.

Lemma one_scaled : scaled 4503599627370496 (-52) = (2 ^ 1074)%Z.
Proof. reflexivity. Qed.

Lemma two_bounded : bounded prec emax 4503599627370496 (-51) = true.
Proof. reflexivity. Qed.

Lemma two_scaled : scaled 4503599627370496 (-51) = (2 ^ 1075)%Z.
Proof. reflexivity. Qed.

(** A float with a value below the infinity and above zero is a positive
    finite float. *)
Lemma ext_finite (x : spec_float) (v : Z) :
  valid_binary x = true -> ext x = Some v -> (0 < v < top)%Z ->
  exists m e, x = S754_finite false m e /\ bounded prec emax m e = true /\
              v = scaled m e.
Proof.
  intros V E Hv.
  destruct x as [s|[]| |[] m e]; try discriminate; cbn [ext] in E;
    injection E as <-; try lia.
  now exists m, e.
Qed.

(** [c2 = 1 - h_1 + h_2] behind the guard on [h_1] and [h_2]: not a
    number, or between [h_2] and 1. *)
Lemma c2_between (h_1 h_2 : float) :
  bad_limb_darkening h_1 h_2 = false ->
  sf_nan (c2_of h_1 h_2) \/
  exists mc ec m2 e2,
    Prim2SF (c2_of h_1 h_2) = S754_finite false mc ec /\
    Prim2SF h_2 = S754_finite false m2 e2 /\
    bounded prec emax mc ec = true /\ bounded prec emax m2 e2 = true /\
    (scaled m2 e2 <= scaled mc ec <= 2 ^ 1074)%Z.
Proof.
  unfold bad_limb_darkening, c2_of. intros Hg.
  apply orb_false_iff in Hg as [Hg G4]. apply orb_false_iff in Hg as [Hg G3].
  apply orb_false_iff in Hg as [G1 G2].
  rewrite leb_spec in G1, G2, G4. rewrite ltb_spec in G3.
  change (Prim2SF 0) with (S754_zero false) in G1, G2.
  change (Prim2SF 1) with SF_one in G4.
  pose proof (Prim2SF_valid h_1) as V1. pose proof (Prim2SF_valid h_2) as V2.
  destruct (Prim2SF h_1) as [s1|[]| |[] m1 e1] eqn:E1; try discriminate.
  { left. apply add_nan_l, NanFacts.sub_nan_r. exact E1. }
  destruct (Prim2SF h_2) as [s2|[]| |[] m2 e2] eqn:E2; try discriminate.
  { left. apply add_nan_r. exact E2. }
  right. cbn [valid_binary] in V1, V2.
  rewrite (Round.SFleb_ext SF_one (S754_finite false m1 e1) _ _
             Round.one_bounded V1 eq_refl eq_refl) in G4.
  rewrite (Round.SFltb_ext (S754_finite false m1 e1) (S754_finite false m2 e2)
             _ _ V1 V2 eq_refl eq_refl) in G3.
  apply Z.leb_gt in G4. apply Z.ltb_ge in G3. rewrite one_scaled in G4.
  pose proof (Round.scaled_pos m1 e1
                ltac:(apply Round.bounded_inv in V1; lia)) as P1.
  pose proof (Round.scaled_pos m2 e2
                ltac:(apply Round.bounded_inv in V2; lia)) as P2.
  (* 1 - h_1 *)
  destruct (Round.SFsub_rounds _ _ _ _ Round.one_bounded V1
              ltac:(rewrite one_scaled; exact G4)) as (v1 & Ev1 & S1).
  rewrite one_scaled in S1.
  pose proof (Prim2SF_valid (1 - h_1)) as Vt.
  rewrite sub_spec, E1 in Vt. change (Prim2SF 1) with SF_one in Vt.
  unfold SF64sub in Vt.
  assert (H1 : (v1 <= 2 ^ 1074)%Z).
  { rewrite <- one_scaled. apply (S1 _ _ Round.one_bounded).
    rewrite one_scaled. lia. }
  assert (Hgrid : (v1 < 2 ^ 1074 - scaled m1 e1 + 2 ^ 1021)%Z).
  { set (u := (2 ^ 1074 - scaled m1 e1)%Z) in *.
    set (k := ((u + 2 ^ 1021 - 1) / 2 ^ 1021)%Z).
    pose proof (Z.div_mod (u + 2 ^ 1021 - 1) (2 ^ 1021) ltac:(lia)) as Hdm.
    pose proof (Z.mod_pos_bound (u + 2 ^ 1021 - 1) (2 ^ 1021) ltac:(lia))
      as Hrem.
    fold k in Hdm.
    assert (Hk : (0 < k <= 2 ^ 53)%Z).
    { change (2 ^ 1074)%Z with (2 ^ 53 * 2 ^ 1021)%Z in *. nia. }
    destruct (Nearest.grid_below_one k Hk) as (mf & ef & Hb & Ef).
    destruct (S1 mf ef Hb) as [_ Hup].
    rewrite Ef in Hup. specialize (Hup ltac:(lia)). lia. }
  (* 1 - h_1 + h_2 *)
  pose proof (Prim2SF_valid (1 - h_1 + h_2)) as Vc.
  rewrite add_spec, sub_spec, E1, E2. rewrite add_spec, sub_spec, E1, E2 in Vc.
  change (Prim2SF 1) with SF_one in Vc |- *. unfold SF64add, SF64sub in Vc |- *.
  change (S754_finite false 4503599627370496 (-52)) with SF_one in Ev1.
  destruct (SFsub prec emax SF_one (S754_finite false m1 e1))
    as [st|[]| |[] mt et] eqn:Et; try discriminate.
  - (* the difference is zero *)
    exists m2, e2, m2, e2. cbn [SFadd]. repeat split; try assumption; lia.
  - cbn [ext] in Ev1. injection Ev1 as <-.
    pose proof (Round.scaled_below_top _ _ Round.one_bounded) as Ht.
    rewrite one_scaled in Ht. lia.
  - cbn [ext] in Ev1. injection Ev1 as <-. cbn [valid_binary] in Vt.
    destruct (Z.le_gt_cases (scaled mt et + scaled m2 e2) (2 ^ 1074))
      as [Hle|Hgt].
    + destruct (Round.SFadd_rounds _ _ _ _ Vt V2) as (vc & Evc & Sc).
      assert (Hlo : (scaled m2 e2 <= vc)%Z).
      { apply (Sc _ _ V2).
        pose proof (Round.scaled_pos mt et
                      ltac:(apply Round.bounded_inv in Vt; lia)). lia. }
      assert (Hhi : (vc <= 2 ^ 1074)%Z).
      { rewrite <- one_scaled. apply (Sc _ _ Round.one_bounded).
        now rewrite one_scaled. }
      assert (Htop : (2 ^ 1074 < top)%Z).
      { rewrite <- one_scaled. apply Round.scaled_below_top, Round.one_bounded. }
      destruct (ext_finite _ vc Vc Evc ltac:(lia)) as (mc & ec & -> & Hb & ->).
      exists mc, ec, m2, e2. repeat split; assumption.
    + rewrite (Nearest.SFadd_down_to_one _ _ _ _ Vt V2) by lia.
      exists 4503599627370496%positive, (-52)%Z, m2, e2.
      repeat split; try assumption; try reflexivity.
      rewrite one_scaled. lia.
Qed.

(** The quotient [c2 / h_2] is at least 1. *)
Lemma quotient_at_least_one (c h : float)
    (mc : positive) (ec : Z) (m2 : positive) (e2 : Z) :
  Prim2SF c = S754_finite false mc ec -> Prim2SF h = S754_finite false m2 e2 ->
  bounded prec emax mc ec = true -> bounded prec emax m2 e2 = true ->
  (scaled m2 e2 <= scaled mc ec)%Z ->
  (1 <=? c / h) = true.
Proof.
  intros Ec Eh Hc Hh Hle.
  pose proof (Prim2SF_valid (c / h)) as V.
  rewrite leb_spec. rewrite div_spec, Ec, Eh in V |- *.
  unfold SF64div in V |- *. change (Prim2SF 1) with SF_one.
  destruct (Nearest.SFdiv_at_least_one _ _ _ _ Hc Hh Hle) as (v & Ev & Hv).
  rewrite (Round.SFleb_ext SF_one _ _ v Round.one_bounded V eq_refl Ev).
  apply Z.leb_le. now rewrite one_scaled.
Qed.

Lemma eqb_nan (x : float) : sf_nan x -> (x =? 0) = false.
Proof. unfold sf_nan. rewrite FloatAxioms.eqb_spec. now intros ->. Qed.

(** With a [c] that is not a number the divisor is not a number. *)
Lemma divisor_of_nan (c a : float) :
  sf_nan c -> (I_0_divisor c a =? 0) = false.
Proof.
  intros Hc. unfold I_0_divisor.
  apply eqb_nan, NanFacts.mul_nan_r, add_nan_l, NanFacts.sub_nan_r,
    NanFacts.mul_nan_l, Hc.
Qed.

(** [pi] times a float from 2 on is not zero. *)
Lemma pi_times_nonzero (e : spec_float) (ve : Z) :
  valid_binary e = true -> ext e = Some ve -> (2 ^ 1075 <= ve)%Z ->
  match SFmul prec emax (Prim2SF Np.pi) e with
  | S754_zero _ => False
  | _ => True
  end.
Proof.
  intros V E Hv.
  let v := eval vm_compute in (Prim2SF Np.pi) in
  change (Prim2SF Np.pi) with v.
  destruct e as [s|[]| |[] me ee]; try discriminate; cbn [ext] in E;
    injection E as <-; try (cbn; lia); try exact I.
  cbn [valid_binary] in V. cbn [SFmul xorb].
  pose proof (Round.bounded_inv _ _ V) as (Hee & Hme & _).
  assert (Hlo : (-51 <= ee)%Z).
  { unfold scaled in Hv.
    destruct (Z.le_gt_cases (-51) ee) as [|Hlt]; [assumption|exfalso].
    assert (2 ^ (ee + 1074) <= 2 ^ 1022)%Z by (apply Z.pow_le_mono_r; lia).
    change (2 ^ 1075)%Z with (2 ^ 53 * 2 ^ 1022)%Z in Hv.
    pose proof (Round.pow2_pos (ee + 1074) ltac:(lia)). nia. }
  match goal with
  | |- context [binary_round_aux _ _ _ (Z.pos ?M) ?E ?l] =>
      pose proof (Nonzero.round_aux_nonzero false M E l) as H
  end.
  specialize (H ltac:(lia)).
  now destruct (binary_round_aux _ _ _ _ _ _).
Qed.

(** The divisor [pi*(a - c*a + 2)] of [I_0] is not zero for a positive
    [c] that is at most 1 and an [a] that is not negative. *)
Lemma divisor_nonzero (c a : float) (mc : positive) (ec : Z) :
  Prim2SF c = S754_finite false mc ec -> bounded prec emax mc ec = true ->
  (scaled mc ec <= 2 ^ 1074)%Z ->
  (0 <=? a) = true ->
  (I_0_divisor c a =? 0) = false.
Proof.
  intros Ec Hc Hle Ha. unfold I_0_divisor.
  apply Nonzero.not_zero_eqb.
  pose proof (Prim2SF_valid a) as Va.
  pose proof (Prim2SF_valid (c * a)) as Vp.
  pose proof (Prim2SF_valid (a - c * a)) as Vd.
  pose proof (Prim2SF_valid (a - c * a + 2)) as Ve.
  rewrite (mul_spec Np.pi).
  rewrite add_spec in Ve |- *. rewrite sub_spec in Vd, Ve |- *.
  rewrite mul_spec, Ec in Vp, Vd, Ve |- *.
  rewrite leb_spec in Ha. change (Prim2SF 0) with (S754_zero false) in Ha.
  change (Prim2SF 2) with (S754_finite false 4503599627370496 (-51))
    in Ve |- *.
  unfold SF64mul, SF64add, SF64sub in *.
  destruct (Prim2SF a) as [sa|[]| |[] ma ea]; try discriminate.
  - (* a is zero *)
    apply (pi_times_nonzero _ (2 ^ 1075)); [exact Ve| |lia].
    now destruct sa.
  - (* a is the infinity *)
    exact I.
  - cbn [valid_binary] in Va.
    destruct (Nearest.SFmul_at_most _ _ _ _ Hc Va Hle) as (vp & Ep & Hp).
    pose proof (Round.scaled_below_top _ _ Va) as Htop.
    pose proof (Round.scaled_pos ma ea
                  ltac:(apply Round.bounded_inv in Va; lia)) as Pa.
    assert (Hd : exists vd,
               ext (SFsub prec emax (S754_finite false ma ea)
                      (SFmul prec emax (S754_finite false mc ec)
                         (S754_finite false ma ea))) = Some vd /\
               (0 <= vd)%Z).
    { destruct (SFmul prec emax (S754_finite false mc ec)
                  (S754_finite false ma ea)) as [sp|[]| |[] mp ep];
        try discriminate; cbn [ext] in Ep; injection Ep as <-.
      - exists (scaled ma ea). split; [reflexivity|lia].
      - lia.
      - cbn [valid_binary] in Vp.
        destruct (Nearest.SFsub_ext _ _ _ _ Va Vp Hp) as (vd & Evd).
        exists vd. split; [exact Evd|].
        destruct (SFsub _ _ _ _) as [sd|[]| |[] md ed];
          try discriminate; cbn [ext] in Evd; injection Evd as <-;
          unfold top, scaled; lia. }
    destruct Hd as (vd & Evd & Hvd).
    destruct (SFsub prec emax (S754_finite false ma ea)
                (SFmul prec emax (S754_finite false mc ec)
                   (S754_finite false ma ea))) as [sd|[]| |[] md ed];
      try discriminate.
    + apply (pi_times_nonzero _ (2 ^ 1075)); [exact Ve|reflexivity|lia].
    + exact I.
    + cbn [valid_binary] in Vd.
      destruct (Round.SFadd_rounds _ _ _ _ Vd two_bounded)
        as (ve & Eve & Se).
      apply (pi_times_nonzero _ ve Ve Eve).
      rewrite <- two_scaled. apply (Se _ _ two_bounded).
      pose proof (Round.scaled_pos md ed
                    ltac:(apply Round.bounded_inv in Vd; lia)). lia.
Qed.

End Guarded.

Section LimbDarkeningDivisor.

Context {FN : Funcs}.
Open Scope float_scope.

(** [np.log2] is not negative from 1 on. *)
Hypothesis log2_sign : forall x, (1 <=? x) = true -> (0 <=? log2 x) = true.

(** Behind the guard on [h_1] and [h_2] the divisor of [I_0] is not
    zero. *)
Lemma limb_darkening_divisor (h_1 h_2 : float) :
  bad_limb_darkening h_1 h_2 = false ->
  (I_0_divisor (c2_of h_1 h_2) (a2_of h_1 h_2) =? 0) = false.
Proof using log2_sign.
  intros Hg.
  destruct (Guarded.c2_between h_1 h_2 Hg)
    as [Hn|(mc & ec & m2 & e2 & Ec & E2 & Hc & H2 & Hlo & Hhi)].
  - now apply Guarded.divisor_of_nan.
  - apply (Guarded.divisor_nonzero _ _ mc ec Ec Hc Hhi).
    unfold a2_of. apply log2_sign.
    exact (Guarded.quotient_at_least_one _ _ mc ec m2 e2 Ec E2 Hc H2 Hlo).
Qed.

End LimbDarkeningDivisor.

(** * The model functions: what the geometry guards and the sentinel give *)

Section ModelFacts.

Context {ML : MathLib} {FN : Funcs}.
Open Scope float_scope.
Import Np.

Lemma _transit_func_geometry t T_0 P D W S f_c f_s h_1 h_2 :
  _transit_func t T_0 P D W S f_c f_s h_1 h_2 =
    match geometry D W S with
    | None => Return (ones_like t)
    | Some (k, sini, r_star) =>
        if bad_limb_darkening h_1 h_2 then Return (ones_like t)
        else
          let '(z, m) :=
            t2z t T_0 P sini r_star (ecc_of f_c f_s) (om_of f_c f_s) in
          obind (set_where m 9999 z) (fun z =>
          of_result (qpower2 z k (c2_of h_1 h_2) (a2_of h_1 h_2)))
    end.
Proof.
  unfold _transit_func, geometry, bad_limb_darkening, ecc_of, om_of,
    a2_of, c2_of. cbv zeta.
  repeat match goal with
         | |- context [if ?b then _ else _] =>
             lazymatch b with
             | orb _ _ => fail
             | _ => destruct b; [reflexivity|]
             end
         end.
  reflexivity.
Qed.

Lemma _eclipse_func_geometry t T_0 P D W S L f_c f_s a_c :
  _eclipse_func t T_0 P D W S L f_c f_s a_c =
    match geometry D W S with
    | None => Return (ones_like t)
    | Some (k, sini, r_star) =>
        let '(z, m) :=
          t2z (map (fun x => x - a_c) t) T_0 P sini r_star
              (ecc_of f_c f_s) (om_of f_c f_s) in
        obind (set_where (map negb m) 9999 z) (fun z =>
        obind (of_result (ueclipse z k)) (fun fl =>
        Return (map (fun u => 1 + L * (u - 1)) fl)))
    end.
Proof.
  unfold _eclipse_func, geometry, ecc_of, om_of. cbv zeta.
  repeat match goal with
         | |- context [if ?b then _ else _] => destruct b; [reflexivity|]
         end.
  reflexivity.
Qed.

(** The [k] of a geometry that passed the guards is a square root and is
    not above 0.5. *)
Lemma geometry_k D W S k sini r_star :
  geometry D W S = Some (k, sini, r_star) ->
  k = PrimFloat.sqrt D /\ (0.5 <? k) = false.
Proof.
  unfold geometry. cbv zeta.
  destruct (D <=? 0); [discriminate|].
  destruct (0.5 <? PrimFloat.sqrt D) eqn:Hk; [discriminate|].
  repeat match goal with
         | |- context [if ?b then _ else _] => destruct b; [discriminate|]
         end.
  intros [= <- _ _]. now split.
Qed.

(** Neither test of the kernels succeeds at the sentinel 9999, for every
    [k] the guards let through. *)
Lemma sentinel_untouched (D : float) :
  let k := PrimFloat.sqrt D in
  (0.5 <? k) = false ->
  (abs 9999 <=? 1 - k) = false /\ (abs (abs 9999 - 1) <? k) = false.
Proof.
  intros k Hk. pose proof (SignFacts.sqrt_sign D) as Hs. fold k in Hs.
  destruct (Prim2SF k) as [s|[]| |[] m e] eqn:E; try contradiction.
  - assert (Ek : k = (if s then -0 else 0)).
    { apply Prim2SF_inj. rewrite E. now destruct s. }
    rewrite Ek. now destruct s.
  - rewrite ltb_spec, E in Hk. discriminate.
  - apply tests_fail_on_nan. right. exact E.
  - destruct (SignFacts.positive_at_most_half m e k E Hk) as [H0 H1].
    apply Round.beyond_one_plus_k; [exact H0|exact H1|].
    now apply Round.sentinel_beyond.
Qed.

Lemma geometry_sentinel D W S k sini r_star :
  geometry D W S = Some (k, sini, r_star) ->
  ((abs 9999 <=? 1 - k) = false /\ (abs (abs 9999 - 1) <? k) = false) /\
  ueclipse_stored k 9999 = None /\
  (1 <? k) = false.
Proof.
  intros G. apply geometry_k in G as [-> Hk].
  destruct (sentinel_untouched D Hk) as [Hin Hlimb].
  unfold ueclipse_stored. cbv zeta. rewrite Hin, Hlimb.
  repeat split.
  destruct (1 <? PrimFloat.sqrt D) eqn:H1; [|reflexivity].
  apply SignFacts.above_one_above_half in H1. congruence.
Qed.

Lemma set_where_lookup (mask : list bool) (v : float) (z : list float) :
  length mask = length z ->
  exists z', set_where mask v z = Return z' /\ length z' = length z /\
    forall (i : nat) (b : bool) (zi : float),
      mask !! i = Some b -> z !! i = Some zi ->
      z' !! i = Some (if b then v else zi).
Proof.
  intros Hlen. unfold set_where. rewrite Hlen, Nat.eqb_refl.
  eexists. split; [reflexivity|]. split.
  - rewrite length_zip_with. lia.
  - intros i b zi Hb Hz. rewrite lookup_zip_with, Hb, Hz. reflexivity.
Qed.



Section Logarithm.

(** [np.log2] is not negative from 1 on.  With it the divisor of [I_0]
    is not zero behind the guard on [h_1] and [h_2], and [qpower2] does
    not raise. *)
Hypothesis log2_sign : forall x, (1 <=? x) = true -> (0 <=? log2 x) = true.


Section Shapes.

(** [t2z] gives a separation and a flag for every sample. *)
Hypothesis t2z_shape : forall t T_0 P sini r_star ecc om,
  length (fst (t2z t T_0 P sini r_star ecc om)) = length t /\
  length (snd (t2z t T_0 P sini r_star ecc om)) = length t.


End Shapes.

End Logarithm.

End ModelFacts.

Section ModelExamples.

Open Scope float_scope.

Lemma example_t2z_shape : forall t T_0 P sini r_star ecc om,
  length (fst (@t2z ExampleOrbit.funcs t T_0 P sini r_star ecc om)) = length t /\
  length (snd (@t2z ExampleOrbit.funcs t T_0 P sini r_star ecc om)) = length t.
Proof. intros. split; apply length_map. Qed.

Lemma example_log2_sign : forall x,
  (1 <=? x) = true -> (0 <=? @log2 ExampleOrbit.funcs x) = true.
Proof.
  intros x Hx. cbn [log2 ExampleOrbit.funcs]. unfold ExampleOrbit.log2.
  cbv zeta. rewrite Hx.
  now destruct (0 <=? Example.log x / Example.ln2) eqn:E.
Qed.

(** Runs [tac k sini r_star z m G Ht] on the geometry of [D], [W], [S]
    and on what the example [t2z] answers for the array [t]. *)
Ltac with_example_orbit t T_0 P D W S tac :=
  let g := eval vm_compute in (@geometry Example.libm D W S) in
  lazymatch g with
  | Some (?k, ?sini, ?r) =>
      let G := fresh "G" in
      assert (G : @geometry Example.libm D W S = Some (k, sini, r))
        by (vm_compute; reflexivity);
      let e := constr:(@ecc_of Example.libm 0 0) in
      let o := constr:(@om_of ExampleOrbit.funcs 0 0) in
      let zm := eval vm_compute in
                  (@t2z ExampleOrbit.funcs t T_0 P sini r e o) in
      lazymatch zm with
      | (?z, ?m) =>
          let Ht := fresh "Ht" in
          assert (Ht : @t2z ExampleOrbit.funcs t T_0 P sini r e o = (z, m))
            by (vm_compute; reflexivity);
          tac k sini r z m G Ht
      end
  end.





End ModelExamples.

(** * [FactorModel]: the callables and the default coefficients *)

Section FactorFacts.

Context {FN : Funcs}.
Open Scope float_scope.
Import Np.

(** X9: a [FactorModel] made without [dx], [dy], [sinphi] and [cosphi]
    raises a [TypeError] exactly when one of the nine position and roll
    angle coefficients is not zero; with all nine at zero it returns the
    time trend [c*(1 + dfdt*dt + d2fdt2*dt**2)], [dt = t - median(t)]. *)
Theorem factor_without_callables (t : list float)
    (d2fdt2 dfdt dfdcosphi dfdsinphi dfdcos2phi dfdsin2phi
     d2fdy2 d2fdxdy d2fdx2 dfdy dfdx c : float) :
  factor (Build_FactorModel None None None None) t
    d2fdt2 dfdt dfdcosphi dfdsinphi dfdcos2phi dfdsin2phi
    d2fdy2 d2fdxdy d2fdx2 dfdy dfdx c
  = if nonzero dfdx || nonzero d2fdx2 || nonzero dfdy || nonzero d2fdy2
       || nonzero d2fdxdy || nonzero dfdsinphi || nonzero dfdcosphi
       || nonzero dfdsin2phi || nonzero dfdcos2phi
    then Throw (TypeError "'NoneType' object is not callable")
    else Return (map (fun x => c * (1 + dfdt * (x - median t)
                                    + d2fdt2 * (x - median t)^2)) t).
Proof.
  unfold factor. cbv zeta. cbn [dx dy sinphi cosphi call].
  destruct (nonzero dfdx); [reflexivity|].
  destruct (nonzero d2fdx2); [reflexivity|].
  destruct (nonzero dfdy); [reflexivity|].
  destruct (nonzero d2fdy2); [reflexivity|].
  destruct (nonzero d2fdxdy); [reflexivity|].
  destruct (nonzero dfdsinphi); [reflexivity|].
  destruct (nonzero dfdcosphi); [reflexivity|].
  destruct (nonzero dfdsin2phi); [reflexivity|].
  destruct (nonzero dfdcos2phi); [reflexivity|].
  cbn [orb obind]. now rewrite !map_map.
Qed.

Lemma finite_square (d : float) :
  is_finite (d ^ 2) = true ->
  match Prim2SF d with
  | S754_zero _ | S754_finite _ _ _ => True
  | _ => False
  end.
Proof.
  intros H. apply SignFacts.is_finite_sf in H.
  rewrite ExactFloat.square_eq, mul_spec in H.
  now destruct (Prim2SF d) as [s|s| |s m e].
Qed.

Lemma zero_times_finite (d : float) :
  match Prim2SF d with
  | S754_zero _ | S754_finite _ _ _ => True
  | _ => False
  end ->
  exists s, Prim2SF (0 * d) = S754_zero s.
Proof.
  intros H. rewrite mul_spec. change (Prim2SF 0) with (S754_zero false).
  destruct (Prim2SF d) as [s|s| |s m e]; try contradiction; now eexists.
Qed.

Lemma one_plus_zero (x : float) (s : bool) :
  Prim2SF x = S754_zero s -> 1 + x = 1.
Proof.
  intros E. apply Prim2SF_inj. rewrite add_spec, E. reflexivity.
Qed.

Lemma flat_trend (d : float) :
  is_finite (d ^ 2) = true -> 1 + 0 * d + 0 * d ^ 2 = 1.
Proof.
  intros H.
  destruct (zero_times_finite d (finite_square d H)) as [s Es].
  destruct (zero_times_finite (d ^ 2) (SignFacts.is_finite_sf _ H)) as [s' Es'].
  rewrite (one_plus_zero _ s Es). exact (one_plus_zero _ s' Es').
Qed.

Lemma flat_trend_map (c med : float) (l : list float) :
  Forall (fun x => is_finite ((x - med) ^ 2) = true) l ->
  map (fun x => c * (1 + 0 * (x - med) + 0 * (x - med) ^ 2)) l
  = map (fun _ => c) l.
Proof.
  induction 1 as [|x l Hx _ IH]; [reflexivity|]. cbn [map].
  rewrite IH. f_equal. rewrite (flat_trend _ Hx). apply SignFacts.mul_one_r.
Qed.

(** X10: the default model is the constant [c].  With every detrending
    coefficient at 0, whatever callables the model was made with, the
    factor is [c] at every sample, provided the squares of the centred
    times [t - median(t)] are finite. *)
Theorem factor_default_is_constant (self : FactorModel) (t : list float)
    (c : float) :
  Forall (fun x => is_finite ((x - median t) ^ 2) = true) t ->
  factor self t 0 0 0 0 0 0 0 0 0 0 0 c = Return (map (fun _ => c) t).
Proof.
  intros Hfin. unfold factor. cbv zeta.
  change (nonzero 0) with false. cbn [orb obind]. f_equal.
  rewrite !map_map. now apply flat_trend_map.
Qed.

End FactorFacts.

Section FactorExamples.

Open Scope float_scope.

Lemma factor_default_is_constant_witness :
  let t := [1; 2; 3; 4] in
  Forall (fun x => is_finite ((x - @median ExampleOrbit.funcs t) ^ 2) = true) t /\
  @factor ExampleOrbit.funcs ExampleOrbit.bare t 0 0 0 0 0 0 0 0 0 0 0 1.5
  = Return (map (fun _ => 1.5) t).
Proof.
  intros t.
  assert (Hfin : Forall (fun x => is_finite
                   ((x - @median ExampleOrbit.funcs t) ^ 2) = true) t)
    by (repeat constructor).
  split; [exact Hfin|].
  exact (@factor_default_is_constant ExampleOrbit.funcs ExampleOrbit.bare
           t 1.5 Hfin).
Defined.

(** A roll-angle coefficient without the roll-angle functions, and the
    time trend alone. *)
Example factor_on_a_short_array :
  @factor ExampleOrbit.funcs ExampleOrbit.bare [1; 2; 3; 4]
    0.1 0.2 0 0.5 0 0 0 0 0 0 0 1.5
  = Throw (TypeError "'NoneType' object is not callable") /\
  @factor ExampleOrbit.funcs ExampleOrbit.bare [1; 2; 3; 4]
    0.125 0.25 0 0 0 0 0 0 0 0 0 2
  = Return [1.8125; 1.8125; 2.3125; 3.3125].
Proof. split; vm_compute; reflexivity. Qed.

End FactorExamples.

(** * [scaled_transit_fit] on a flat model *)

Module ZeroFacts.

Open Scope float_scope.

Lemma add_zero (x y : float) : sf_zero x -> sf_zero y -> sf_zero (x + y).
Proof.
  unfold sf_zero. rewrite add_spec.
  destruct (Prim2SF x) as [[]|[]| |[] m e]; try easy;
    destruct (Prim2SF y) as [[]|[]| |[] m' e']; easy.
Qed.

Lemma sum_zero (xs : list float) : Forall sf_zero xs -> sf_zero (Np.sum xs).
Proof.
  unfold Np.sum. assert (H0 : sf_zero 0) by exact I.
  revert H0. generalize 0. induction xs as [|x xs IH]; intros acc Hacc Hall.
  - exact Hacc.
  - apply Forall_cons in Hall as [Hx Hxs]. simpl.
    apply IH; [|exact Hxs]. now apply add_zero.
Qed.

Lemma finite_times_zero (w y : float) :
  is_finite w = true -> sf_zero y -> sf_zero (w * y).
Proof.
  intros Hw. apply SignFacts.is_finite_sf in Hw. unfold sf_zero.
  rewrite mul_spec.
  destruct (Prim2SF w) as [[]|[]| |[] m e]; try easy;
    now destruct (Prim2SF y) as [[]|[]| |[] m' e'].
Qed.

Lemma zero_eqb (x : float) : sf_zero x -> (x =? 0) = true.
Proof.
  unfold sf_zero. rewrite FloatAxioms.eqb_spec.
  change (Prim2SF 0) with (S754_zero false).
  now destruct (Prim2SF x) as [[]|[]| |[] m e].
Qed.

(** A finite [1/y] has a divisor that is not zero. *)
Lemma finite_inverse (y : float) :
  is_finite (1 / y) = true -> (y =? 0) = false.
Proof.
  intros Hf. apply SignFacts.is_finite_sf in Hf. rewrite div_spec in Hf.
  rewrite FloatAxioms.eqb_spec. change (Prim2SF 0) with (S754_zero false).
  change (Prim2SF 1) with (S754_finite false 4503599627370496 (-52)) in Hf.
  destruct (Prim2SF y) as [[]|[]| |[] m e]; try reflexivity;
    cbn in Hf; contradiction.
Qed.

End ZeroFacts.

Section FlatModel.

Open Scope float_scope.
Import Np.

(** X12: a model that is 1 at every sample is a degenerate case of
    [scaled_transit_fit]: with finite weights [1/sigma_i^2] the weighted
    sum of squares is exactly zero and the answer is four not-a-numbers,
    whatever the flux is. *)
Theorem scaled_transit_fit_flat_model
    (flux : list float) (sigma : operand) (model : list float) :
  shapes_agree flux sigma model ->
  Forall (fun m => m = 1) model ->
  (forall i, (i < length flux)%nat -> is_finite (w_ sigma i) = true) ->
  scaled_transit_fit flux sigma model = Ok nan4.
Proof.
  intros Hsh Hflat Hw.
  rewrite (scaled_transit_fit_closed_form _ _ _ Hsh). unfold n_points.
  destruct (Nat.ltb_spec (length flux) 3) as [|HN]; [reflexivity|].
  assert (Hz : zero_weight_divisor sigma = false).
  { unfold zero_weight_divisor. destruct sigma as [x|xs]; [|reflexivity].
    apply ZeroFacts.finite_inverse, (Hw 0%nat). lia. }
  rewrite Hz.
  assert (Hden : (normal_den flux sigma model =? 0) = true).
  { apply ZeroFacts.zero_eqb. unfold normal_den, wsum, n_points.
    apply ZeroFacts.sum_zero, Forall_map, Forall_forall.
    intros i Hi. apply elem_of_seq in Hi as [_ Hi]. cbn [Nat.add] in Hi.
    apply ZeroFacts.finite_times_zero; [now apply Hw|].
    assert (Em : m_ model i = 1).
    { unfold m_. destruct Hsh as [Hm _].
      destruct (lookup_lt_is_Some_2 model i ltac:(lia)) as [x Hx].
      rewrite (nth_lookup_Some _ _ _ _ Hx).
      rewrite Forall_lookup in Hflat. exact (Hflat i x Hx). }
    rewrite Em. exact I. }
  now rewrite Hden.
Qed.

End FlatModel.

Section FlatModelExample.

Open Scope float_scope.

Lemma scaled_transit_fit_flat_model_witness :
  let flux := [1; 0.5; 0.25; 0.5; 1.25] in
  let sigma := Array [0.5; 0.5; 0.25; 0.5; 1] in
  let model := [1; 1; 1; 1; 1] in
  (shapes_agree flux sigma model /\ Forall (fun m => m = 1) model /\
   (forall i, (i < length flux)%nat -> is_finite (w_ sigma i) = true)) /\
  scaled_transit_fit flux sigma model = Ok nan4.
Proof.
  intros flux sigma model.
  assert (Hsh : shapes_agree flux sigma model) by (split; reflexivity).
  assert (Hflat : Forall (fun m => m = 1) model)
    by (repeat constructor).
  assert (Hw : forall i, (i < length flux)%nat ->
                 is_finite (w_ sigma i) = true).
  { intros i Hi. do 5 (destruct i as [|i]; [reflexivity|]). simpl in Hi. lia. }
  split; [tauto|].
  exact (scaled_transit_fit_flat_model flux sigma model Hsh Hflat Hw).
Defined.

End FlatModelExample.

(** * [minerr_transit_fit]: the bracket handed to [brent] *)

Module Doubling.

Import Sf.
Local Open Scope Z_scope.

(** The product of a normal mantissa with [2^52], at an exponent one
    higher, is the mantissa itself at that exponent, or an overflow. *)
Lemma round_aux_times_two (sx : bool) (mx : positive) (ex : Z) :
  bounded prec emax mx ex = true -> -1074 < ex ->
  binary_round_aux prec emax sx (Z.pos (4503599627370496 * mx)) (-51 + ex)
    loc_Exact
  = if ex + 1 <=? 971 then S754_finite sx mx (ex + 1) else S754_infinity sx.
Proof.
  intros Hb Hn. unfold bounded, canonical_mantissa in Hb.
  apply andb_true_iff in Hb as [Hc _]. apply Z.eqb_eq in Hc.
  assert (Hd : Z.pos (digits2_pos mx) = 53).
  { rewrite Round.fexp_eq in Hc. lia. }
  change (4503599627370496 * mx)%positive with (PosDef.Pos.iter xO mx 52).
  rewrite Round.binary_round_aux_finish. unfold shr_fexp. cbn [Zdigits2].
  rewrite Round.shl_digits, Hd, Round.fexp_eq.
  replace (Z.max (53 + 52 + (-51 + ex) - 53) (-1074) - (-51 + ex))
    with 52 by lia.
  cbn [shr shr_record_of_loc].
  set (rec0 := {| shr_m := Z.pos (PosDef.Pos.iter xO mx 52);
                  shr_r := false; shr_s := false |}).
  destruct (Round.iter_shr 52 rec0 ltac:(simpl; lia)) as [Em Ex].
  cbn [shr_m rec0] in Em, Ex.
  assert (Hdiv : (2 ^ 52 | Z.pos (PosDef.Pos.iter xO mx 52)))
    by (exists (Z.pos mx); apply Round.shl_value).
  rewrite (Round.loc_exact _ (Ex eq_refl Hdiv)).
  cbn [round_nearest_even]. rewrite Em, Round.shl_value.
  rewrite Z.div_mul by (apply Z.pow_nonzero; lia).
  replace (-51 + ex + 52) with (ex + 1) by lia.
  apply Round.finish_canonical. rewrite Hd, Round.fexp_eq. lia.
Qed.

(** Twice a float above 1 is above 1. *)
Lemma double_above_one (x : float) :
  (1 <? x)%float = true -> (1 <? 2 * x)%float = true.
Proof.
  pose proof (Prim2SF_valid x) as V. pose proof (Prim2SF_valid (2 * x)) as V2.
  rewrite !ltb_spec. rewrite mul_spec in V2 |- *.
  change (Prim2SF 1) with SF_one.
  change (Prim2SF 2) with (S754_finite false 4503599627370496 (-51)) in *.
  unfold SF64mul in *.
  destruct (Prim2SF x) as [s|[]| |[] m e]; try (intros; discriminate);
    try reflexivity.
  rewrite (Round.SFltb_ext SF_one (S754_finite false m e) _ _
             Round.one_bounded V eq_refl eq_refl).
  intros H. apply Z.ltb_lt in H.
  assert (He : -52 <= e).
  { destruct (Z.lt_ge_cases e (-52)) as [Hlt|]; [|assumption].
    pose proof (Round.scaled_lt_exponent m e _ _ V Round.one_bounded Hlt). lia. }
  cbn [SFmul xorb] in V2 |- *.
  rewrite (round_aux_times_two false m e V ltac:(lia)) in V2 |- *.
  destruct (e + 1 <=? 971); [|reflexivity].
  rewrite (Round.SFltb_ext SF_one (S754_finite false m (e + 1)) _ _
             Round.one_bounded V2 eq_refl eq_refl).
  apply Z.ltb_lt. unfold scaled in *.
  replace (e + 1 + 1074) with (1 + (e + 1074)) by lia.
  rewrite (Z.pow_add_r 2 1 (e + 1074)) by lia. change (2 ^ 1) with 2.
  pose proof (Round.pow2_pos (e + 1074) ltac:(lia)). nia.
Qed.

End Doubling.

Section QuietFacts.

Context {ML : MathLib} {SP : SciPy}.
Open Scope float_scope.

Variables (flux : list float) (sigma : operand) (model : list float).

Context {X : Type} (sel : event -> list X).
Hypothesis sel_like : forall s, sel (EvLike s) = [].
Hypothesis sel_likediff : forall s, sel (EvLikeDiff s) = [].

Lemma quiet_mret {A} (a : A) : quiet sel (mret a).
Proof. intros t. reflexivity. Qed.

Lemma quiet_cut_off {A} : quiet sel (@cut_off A).
Proof. intros t. reflexivity. Qed.

Lemma quiet_lift {A} (r : result A) : quiet sel (lift r).
Proof. intros t. reflexivity. Qed.

Lemma quiet_tell (e : event) : sel e = [] -> quiet sel (tell e).
Proof.
  intros He t. unfold tell. cbn [fst]. rewrite flat_map_app. cbn [flat_map].
  rewrite He. now rewrite !app_nil_r.
Qed.

Lemma quiet_mbind {A B} (m : M A) (f : A -> M B) :
  quiet sel m -> (forall a, quiet sel (f a)) -> quiet sel (mbind m f).
Proof.
  intros Hm Hf t. specialize (Hm t). unfold mbind.
  destruct (m t) as [t' [[a|e]|]]; cbn [fst] in *; [|exact Hm|exact Hm].
  now rewrite Hf.
Qed.

Lemma quiet_like s : quiet sel (like flux sigma model s).
Proof using sel_like.
  unfold like. apply quiet_mbind; [apply quiet_tell, sel_like|].
  intros _. apply quiet_lift.
Qed.

Lemma quiet_likediff s l0 : quiet sel (likediff flux sigma model s l0).
Proof using sel_likediff.
  unfold likediff. apply quiet_mbind; [apply quiet_tell, sel_likediff|].
  intros _. apply quiet_lift.
Qed.

Lemma quiet_bracket_up fuel : forall fb s fc,
  quiet sel (bracket_up flux sigma model fuel fb s fc).
Proof using sel_like.
  induction fuel as [|fuel IH]; intros fb s fc; cbn [bracket_up];
    destruct (fc <? fb); try apply quiet_mret; try apply quiet_cut_off.
  apply quiet_mbind; [apply quiet_like|]. intros a. apply IH.
Qed.

Lemma quiet_bracket_down fuel : forall fa s fb,
  quiet sel (bracket_down flux sigma model fuel fa s fb).
Proof using sel_like.
  induction fuel as [|fuel IH]; intros fa s fb; cbn [bracket_down];
    destruct (fa <? fb); try apply quiet_mret;
    destruct (s <? 0x1p-16); try apply quiet_mret; try apply quiet_cut_off.
  apply quiet_mbind; [apply quiet_like|]. intros a. apply IH.
Qed.

Lemma quiet_search_hi fuel : forall l0 s f,
  quiet sel (search_hi flux sigma model fuel l0 s f).
Proof using sel_likediff.
  induction fuel as [|fuel IH]; intros l0 s f; cbn [search_hi];
    destruct (f <? 0); try apply quiet_mret; try apply quiet_cut_off.
  apply quiet_mbind; [apply quiet_likediff|]. intros a. apply IH.
Qed.

(** Up to [refine], the function goes one of four ways: it ends without
    a call of [refine], or it calls [refine] on [(0, 1, s_max)] after the
    doubling loop, or on [(0, s_mid, 1)] after the halving loop. *)
Lemma minerr_body_cases (fuel : nat) (P : list event -> Prop) :
  (forall t, flat_map sel t = [] -> P t) ->
  (forall t s_max fc fb fc0, flat_map sel t = [] ->
     bracket_up flux sigma model fuel fb 2 fc0 [EvLike 0; EvLike 1; EvLike 2]
       = (t, Some (Ok (s_max, fc))) ->
     P (fst (refine flux sigma model fuel 0 1 s_max t))) ->
  (forall t s_mid fb fa fb0, flat_map sel t = [] ->
     bracket_down flux sigma model fuel fa 0.5 fb0
       [EvLike 0; EvLike 1; EvLike 0.5] = (t, Some (Ok (Some (s_mid, fb)))) ->
     P (fst (refine flux sigma model fuel 0 s_mid 1 t))) ->
  P (fst (minerr_transit_fit fuel flux sigma model)).
Proof using sel_like.
  intros Hnone Hup Hdown.
  assert (H0 : flat_map sel [EvLike 0] = [])
    by (cbn [flat_map]; now rewrite sel_like).
  assert (H1 : flat_map sel [EvLike 0; EvLike 1] = [])
    by (cbn [flat_map]; now rewrite !sel_like).
  assert (H2 : flat_map sel [EvLike 0; EvLike 1; EvLike 2] = [])
    by (cbn [flat_map]; now rewrite !sel_like).
  assert (Hh : flat_map sel [EvLike 0; EvLike 1; EvLike 0.5] = [])
    by (cbn [flat_map]; now rewrite !sel_like).
  unfold minerr_transit_fit, minerr_body. cbv zeta.
  destruct (length flux <? 3)%nat; [now apply Hnone|].
  unfold mbind at 1. unfold lift at 1.
  destruct (Np.min model) as [m|e]; [|now apply Hnone].
  destruct (m =? 1); [now apply Hnone|].
  unfold mbind at 1. unfold like at 1. unfold mbind at 1.
  unfold tell at 1, lift at 1. cbn [app].
  destruct (_negloglike 0 flux sigma model) as [fa|e]; [|now apply Hnone].
  unfold mbind at 1. unfold like at 1. unfold mbind at 1.
  unfold tell at 1, lift at 1. cbn [app].
  destruct (_negloglike 1 flux sigma model) as [fb|e]; [|now apply Hnone].
  destruct (fb <? fa).
  - unfold mbind at 1. unfold like at 1. unfold mbind at 1.
    unfold tell at 1, lift at 1. cbn [app].
    destruct (_negloglike 2 flux sigma model) as [fc|e]; [|now apply Hnone].
    unfold mbind at 1.
    pose proof (quiet_bracket_up fuel fb 2 fc [EvLike 0; EvLike 1; EvLike 2])
      as Hq.
    destruct (bracket_up flux sigma model fuel fb 2 fc
                [EvLike 0; EvLike 1; EvLike 2]) as [t' [[[s' fc']|e]|]] eqn:E;
      cbn [fst] in Hq; rewrite H2 in Hq;
      [|now apply Hnone|now apply Hnone].
    exact (Hup t' s' fc' fb fc Hq E).
  - unfold mbind at 1. unfold like at 1. unfold mbind at 1.
    unfold tell at 1, lift at 1. cbn [app].
    destruct (_negloglike 0.5 flux sigma model) as [fb'|e];
      [|now apply Hnone].
    unfold mbind at 1.
    pose proof (quiet_bracket_down fuel fa 0.5 fb'
                  [EvLike 0; EvLike 1; EvLike 0.5]) as Hq.
    destruct (bracket_down flux sigma model fuel fa 0.5 fb'
                [EvLike 0; EvLike 1; EvLike 0.5])
      as [t' [[[[s' fb'']|]|e]|]] eqn:E;
      cbn [fst] in Hq; rewrite Hh in Hq;
      [|now apply Hnone|now apply Hnone|now apply Hnone].
    exact (Hdown t' s' fb'' fa fb' Hq E).
Qed.

End QuietFacts.

Section BracketFacts.

Context {ML : MathLib} {SP : SciPy}.
Open Scope float_scope.
Import Np.

Variables (flux : list float) (sigma : operand) (model : list float).

(** [refine] calls [brent] once, first of all, with its three arguments. *)
Lemma refine_calls fuel a b c t :
  brent_calls (fst (refine flux sigma model fuel a b c t))
  = brent_calls t ++ [(a, b, c)].
Proof.
  unfold refine.
  set (rest := fun _ : unit => mbind _ _).
  assert (Hq : quiet brent_sel (rest tt)).
  { unfold rest. apply quiet_mbind; [apply quiet_lift|].
    intros [s_opt _f]. apply quiet_mbind; [now apply quiet_likediff|].
    intros f_hi. apply quiet_mbind; [now apply quiet_search_hi|].
    intros s_hi. apply quiet_mbind; [now apply quiet_tell|].
    intros _. apply quiet_mbind; [apply quiet_lift|].
    intros s_hi'. apply quiet_mret. }
  unfold mbind at 1. unfold tell at 1. unfold brent_calls. rewrite Hq.
  now rewrite flat_map_app.
Qed.

(** The doubling loop ends above 1. *)
Lemma bracket_up_above fuel : forall fb s fc t t' s' fc',
  (1 <? s) = true ->
  bracket_up flux sigma model fuel fb s fc t = (t', Some (Ok (s', fc'))) ->
  (1 <? s') = true.
Proof.
  induction fuel as [|fuel IH]; intros fb s fc t t' s' fc' Hs;
    cbn [bracket_up]; destruct (fc <? fb);
    try (unfold cut_off; discriminate);
    try (unfold mret; intros [= _ <- _]; exact Hs).
  unfold mbind, like, tell, lift.
  destruct (_negloglike (2 * s) flux sigma model) as [v|e]; [|discriminate].
  apply IH. now apply Doubling.double_above_one.
Qed.

(** The halving loop stays among [2**-1, ..., 2**-17]. *)
Lemma halving_step (s : float) :
  In s (halvings 0.5 17) -> (s <? 0x1p-16) = false ->
  In (0.5 * s) (halvings 0.5 17).
Proof.
  intros Hin Hs. cbn [halvings In] in Hin.
  repeat (destruct Hin as [<-|Hin];
          [first [discriminate Hs
                 |cbn [halvings In]; repeat first [left; reflexivity|right]]|]).
  contradiction.
Qed.

Lemma halving_range (s : float) :
  In s (halvings 0.5 17) -> (0 <? s) = true /\ (s <? 1) = true.
Proof.
  intros Hin. cbn [halvings In] in Hin.
  repeat (destruct Hin as [<-|Hin]; [split; reflexivity|]).
  contradiction.
Qed.

Lemma bracket_down_among fuel : forall fa s fb t t' s' fb',
  In s (halvings 0.5 17) ->
  bracket_down flux sigma model fuel fa s fb t
    = (t', Some (Ok (Some (s', fb')))) ->
  In s' (halvings 0.5 17).
Proof.
  induction fuel as [|fuel IH]; intros fa s fb t t' s' fb' Hs;
    cbn [bracket_down]; destruct (fa <? fb);
    try (unfold mret; intros [= _ <- _]; exact Hs);
    destruct (s <? 0x1p-16) eqn:Hfloor;
    try (unfold mret; discriminate); try (unfold cut_off; discriminate).
  unfold mbind, like, tell, lift.
  destruct (_negloglike (0.5 * s) flux sigma model) as [v|e]; [|discriminate].
  apply IH. now apply halving_step.
Qed.

(** X13: [minerr_transit_fit] calls [brent] at most once, and then with
    a bracket [(0, s_mid, s_max)] in increasing order,
    [0 < s_mid < s_max]: either [s_mid = 1] below a doubled [s_max], or a
    halved [s_mid] below [s_max = 1].  (The source doubles a Python
    integer; the embedding follows it with the float of the same value,
    which is exact up to [2**1023].) *)
Theorem brent_bracket_in_order (fuel : nat) :
  let calls :=
    brent_calls (fst (minerr_transit_fit fuel flux sigma model)) in
  calls = [] \/
  exists s_mid s_max, calls = [(0, s_mid, s_max)] /\
    (0 <? s_mid) = true /\ (s_mid <? s_max) = true /\
    (s_mid = 1 \/ s_max = 1).
Proof.
  apply (minerr_body_cases flux sigma model brent_sel (fun _ => eq_refl) fuel
           (fun tr => brent_calls tr = [] \/
              exists s_mid s_max, brent_calls tr = [(0, s_mid, s_max)] /\
                (0 <? s_mid) = true /\ (s_mid <? s_max) = true /\
                (s_mid = 1 \/ s_max = 1))).
  - intros t Ht. now left.
  - intros t s_max fc fb fc0 Ht E. right. exists 1, s_max.
    rewrite refine_calls. unfold brent_calls. rewrite Ht.
    split; [reflexivity|]. split; [reflexivity|]. split; [|now left].
    exact (bracket_up_above fuel fb 2 fc0 _ t s_max fc eq_refl E).
  - intros t s_mid fb fa fb0 Ht E. right. exists s_mid, 1.
    rewrite refine_calls. unfold brent_calls. rewrite Ht.
    split; [reflexivity|].
    destruct (halving_range s_mid
                (bracket_down_among fuel fa 0.5 fb0 _ t s_mid fb
                   ltac:(now left) E)) as [H0 H1].
    split; [exact H0|]. split; [exact H1|]. now right.
Qed.

(** The search for the upper end stops at a point where the likelihood
    difference is not negative. *)
Lemma search_hi_ends_above fuel : forall l0 s f t t' s',
  _loglikediff s l0 flux sigma model = Ok f ->
  search_hi flux sigma model fuel l0 s f t = (t', Some (Ok s')) ->
  exists v, _loglikediff s' l0 flux sigma model = Ok v /\ (v <? 0) = false.
Proof.
  induction fuel as [|fuel IH]; intros l0 s f t t' s' Hf;
    cbn [search_hi]; destruct (f <? 0) eqn:Hneg;
    try (unfold cut_off; discriminate);
    try (unfold mret; intros [= _ <-]; now exists f).
  unfold mbind, likediff, tell, lift.
  destruct (_loglikediff (2 * s) l0 flux sigma model) as [v|e] eqn:Ev;
    [|discriminate].
  now apply IH.
Qed.

(** [refine] calls [brentq] at most once, from the minimizer of [brent]
    to the end of the search. *)
Lemma refine_brentq fuel a b c t :
  let tr := fst (refine flux sigma model fuel a b c t) in
  brentq_calls tr = brentq_calls t \/
  exists s_opt f s_hi v,
    brent (fun s => _negloglike s flux sigma model) (a, b, c)
      = Ok (s_opt, f) /\
    brentq_calls tr = brentq_calls t ++ [(s_opt, s_hi)] /\
    _loglikediff s_hi (- f - 0.5) flux sigma model = Ok v /\
    (v <? 0) = false.
Proof.
  intros tr. pattern tr.
  match goal with |- ?Q0 tr => set (Q := Q0) end.
  assert (Hleft : forall l, brentq_calls l = brentq_calls t -> Q l)
    by (intros l Hl; now left).
  subst tr. unfold refine.
  unfold mbind at 1. unfold tell at 1.
  assert (H1 : brentq_calls (t ++ [EvBrent (a, b, c)]) = brentq_calls t).
  { unfold brentq_calls. rewrite flat_map_app. apply app_nil_r. }
  unfold mbind at 1. unfold lift at 1.
  destruct (brent (fun s => _negloglike s flux sigma model) (a, b, c))
    as [[s_opt f]|e] eqn:Eb; [|now apply Hleft].
  unfold mbind at 1. unfold likediff at 1. unfold mbind at 1.
  unfold tell at 1, lift at 1.
  set (t1 := (t ++ [EvBrent (a, b, c)]) ++ [EvLikeDiff c]).
  assert (H2 : brentq_calls t1 = brentq_calls t).
  { unfold t1, brentq_calls. rewrite flat_map_app.
    cbn [flat_map brentq_sel app]. rewrite app_nil_r. exact H1. }
  destruct (_loglikediff c (- f - 0.5) flux sigma model) as [f_hi|e] eqn:Ef;
    [|now apply Hleft].
  unfold mbind at 1.
  pose proof (quiet_search_hi flux sigma model brentq_sel (fun _ => eq_refl)
                fuel (- f - 0.5) c f_hi t1) as Hq.
  pose proof (search_hi_ends_above fuel (- f - 0.5) c f_hi t1) as Hend.
  destruct (search_hi flux sigma model fuel (- f - 0.5) c f_hi t1)
    as [t2 [[s_hi|e]|]]; cbn [fst] in Hq; fold (brentq_calls t2) in Hq;
    fold (brentq_calls t1) in Hq; rewrite H2 in Hq;
    [|now apply Hleft|now apply Hleft].
  destruct (Hend t2 s_hi Ef eq_refl) as (v & Hv & Hsign).
  right. exists s_opt, f, s_hi, v. split; [reflexivity|].
  split; [|split; [exact Hv|exact Hsign]].
  unfold mbind at 1. unfold tell at 1. unfold mbind at 1. unfold lift at 1.
  destruct (brentq (fun s => _loglikediff s (- f - 0.5) flux sigma model)
              s_opt s_hi) as [root|e]; cbn [fst mret];
    unfold brentq_calls; rewrite flat_map_app; fold (brentq_calls t2);
    now rewrite Hq.
Qed.

(** X16: [minerr_transit_fit] calls [brentq] at most once, and then on
    an interval that starts at a minimizer [brent] returned and ends at
    a point where the likelihood difference to [-_f - 0.5] was evaluated
    and is not negative. *)
Theorem brentq_interval_from_minimum (fuel : nat) :
  let calls :=
    brentq_calls (fst (minerr_transit_fit fuel flux sigma model)) in
  calls = [] \/
  exists brack s_opt f s_hi v,
    brent (fun s => _negloglike s flux sigma model) brack = Ok (s_opt, f) /\
    calls = [(s_opt, s_hi)] /\
    _loglikediff s_hi (- f - 0.5) flux sigma model = Ok v /\
    (v <? 0) = false.
Proof.
  apply (minerr_body_cases flux sigma model brentq_sel (fun _ => eq_refl) fuel
           (fun tr => brentq_calls tr = [] \/
              exists brack s_opt f s_hi v,
                brent (fun s => _negloglike s flux sigma model) brack
                  = Ok (s_opt, f) /\
                brentq_calls tr = [(s_opt, s_hi)] /\
                _loglikediff s_hi (- f - 0.5) flux sigma model = Ok v /\
                (v <? 0) = false)).
  - intros t Ht. now left.
  - intros t s_max fc fb fc0 Ht _.
    destruct (refine_brentq fuel 0 1 s_max t)
      as [H|(s_opt & f & s_hi & v & Hb & Hc & Hv & Hs)].
    + left. rewrite H. exact Ht.
    + right. exists (0, 1, s_max), s_opt, f, s_hi, v.
      split; [exact Hb|]. split; [|split; [exact Hv|exact Hs]].
      rewrite Hc. unfold brentq_calls. now rewrite Ht.
  - intros t s_mid fb fa fb0 Ht _.
    destruct (refine_brentq fuel 0 s_mid 1 t)
      as [H|(s_opt & f & s_hi & v & Hb & Hc & Hv & Hs)].
    + left. rewrite H. exact Ht.
    + right. exists (0, s_mid, 1), s_opt, f, s_hi, v.
      split; [exact Hb|]. split; [|split; [exact Hv|exact Hs]].
      rewrite Hc. unfold brentq_calls. now rewrite Ht.
Qed.

End BracketFacts.

Section HalvingBound.

Context {ML : MathLib} {SP : SciPy}.
Open Scope float_scope.

Variables (flux : list float) (sigma : operand) (model : list float).

(** X15: the halving loop ends.  Started at [s_mid = 0.5] as
    [minerr_transit_fit] starts it, it is over after at most 16 rounds,
    whatever the likelihood values are: no likelihood keeps it running. *)
Theorem halving_loop_ends (fuel : nat) (fa fb : float) (t : list event) :
  (16 <= fuel)%nat ->
  exists t' r,
    bracket_down flux sigma model fuel fa 0.5 fb t = (t', Some r).
Proof.
  intros Hfuel.
  exact (bracket_down_terminates flux sigma model fa 16 fuel 0.5 fb t
           Hfuel eq_refl).
Qed.

End HalvingBound.

Section HalvingBoundExample.

Open Scope float_scope.

Lemma halving_loop_ends_witness :
  (16 <= 16)%nat /\
  exists t' r,
    @bracket_down Example.libm [1; 0.75; 0.5; 0.75; 1] (Scalar 0.25)
      [1; 0.75; 0.5; 0.75; 1] 16 0 0.5 1 [] = (t', Some r).
Proof.
  assert (H : (16 <= 16)%nat) by lia.
  split; [exact H|].
  exact (@halving_loop_ends Example.libm [1; 0.75; 0.5; 0.75; 1]
           (Scalar 0.25) [1; 0.75; 0.5; 0.75; 1] 16 0 1 [] H).
Defined.

End HalvingBoundExample.

(** * [scaled_transit_fit]: what a result that is not the sentinel holds *)

Module PlusFacts.

Import Sf.
Local Open Scope Z_scope.

Lemma shr_fexp_nonneg (m e : Z) (l : location) :
  0 <= m -> 0 <= shr_m (fst (shr_fexp prec emax m e l)).
Proof.
  intros Hm. unfold shr_fexp, shr.
  assert (H0 : 0 <= shr_m (shr_record_of_loc m l))
    by (destruct l as [|[]]; exact Hm).
  destruct (fexp prec emax (Zdigits2 m + e) - e) as [|p|p]; cbn [fst];
    try exact H0.
  destruct (Round.iter_shr p _ H0) as [-> _].
  apply Z.div_pos; [exact H0|]. apply Round.pow2_pos. lia.
Qed.

Lemma finish_plus (m1 e1 : Z) : 0 <= m1 -> plus_number (finish false m1 e1).
Proof.
  intros Hm. unfold finish.
  pose proof (shr_fexp_nonneg m1 e1 loc_Exact Hm) as H.
  destruct (shr_fexp prec emax m1 e1 loc_Exact) as [mrs e2]. cbn [fst] in H.
  destruct (shr_m mrs); [exact I| |lia].
  destruct (e2 <=? emax - prec); exact I.
Qed.

Lemma round_aux_plus (mx ex : Z) (lx : location) :
  0 <= mx -> plus_number (binary_round_aux prec emax false mx ex lx).
Proof.
  intros Hm. rewrite Round.binary_round_aux_finish.
  pose proof (shr_fexp_nonneg mx ex lx Hm) as H.
  destruct (shr_fexp prec emax mx ex lx) as [mrs e1]. cbn [fst] in H.
  apply finish_plus.
  pose proof (Round.round_nearest_even_range (shr_m mrs)
                (loc_of_shr_record mrs)). lia.
Qed.

Lemma round_plus (m : positive) (e : Z) :
  plus_number (binary_round prec emax false m e).
Proof.
  unfold binary_round.
  destruct (shl_align m e (fexp prec emax (Z.pos (digits2_pos m) + e)))
    as [mz ez].
  apply round_aux_plus. lia.
Qed.

Lemma SFadd_plus (x y : spec_float) :
  plus_or_nan x -> plus_or_nan y -> plus_or_nan (SFadd prec emax x y).
Proof.
  destruct x as [[]|[]| |[] mx ex]; try contradiction;
    destruct y as [[]|[]| |[] my ey]; try contradiction; intros _ _;
    try exact I.
  cbn [SFadd cond_Zopp]. rewrite <- Pos2Z.inj_add. cbn [binary_normalize].
  pose proof (round_plus
    ((shl_align mx ex (Z.min ex ey)).1 + (shl_align my ey (Z.min ex ey)).1)
    (Z.min ex ey)) as H.
  destruct (binary_round _ _ _ _ _) as [[]|[]| |[] m e]; try contradiction;
    exact I.
Qed.

Lemma SFmul_plus (x y : spec_float) :
  plus_or_nan x -> plus_or_nan y -> plus_or_nan (SFmul prec emax x y).
Proof.
  destruct x as [[]|[]| |[] mx ex]; try contradiction;
    destruct y as [[]|[]| |[] my ey]; try contradiction; intros _ _;
    try exact I.
  cbn [SFmul xorb].
  pose proof (round_aux_plus (Z.pos (mx * my)) (ex + ey) loc_Exact
                ltac:(lia)) as H.
  destruct (binary_round_aux _ _ _ _ _ _) as [[]|[]| |[] m e];
    try contradiction; exact I.
Qed.

(** A product of a float with itself has the sign bit clear. *)
Lemma SFsquare_plus (x : spec_float) : plus_or_nan (SFmul prec emax x x).
Proof.
  destruct x as [[]|[]| |s mx ex]; try exact I.
  cbn [SFmul]. rewrite xorb_nilpotent.
  pose proof (round_aux_plus (Z.pos (mx * mx)) (ex + ex) loc_Exact
                ltac:(lia)) as H.
  destruct (binary_round_aux _ _ _ _ _ _) as [[]|[]| |[] m e];
    try contradiction; exact I.
Qed.

Lemma div_core_nonneg (m1 : positive) (e1 : Z) (m2 : positive) (e2 : Z) :
  0 <= fst (fst (SFdiv_core_binary prec emax (Z.pos m1) e1 (Z.pos m2) e2)).
Proof.
  unfold SFdiv_core_binary. cbv zeta.
  set (s := e1 - e2 - _).
  set (m' := match s with 0 => Z.pos m1 | Z.pos _ => Z.shiftl (Z.pos m1) s
                     | Z.neg _ => 0 end).
  assert (Hm : 0 <= m').
  { unfold m'. destruct s; try lia. apply Z.shiftl_nonneg. lia. }
  pose proof (Z.div_pos m' (Z.pos m2) Hm ltac:(lia)) as Hq.
  unfold Z.div in Hq.
  destruct (Z.div_eucl m' (Z.pos m2)) as [q r]. exact Hq.
Qed.

Lemma SFdiv_plus (x y : spec_float) :
  plus_or_nan x -> plus_or_nan y -> plus_or_nan (SFdiv prec emax x y).
Proof.
  destruct x as [[]|[]| |[] mx ex]; try contradiction;
    destruct y as [[]|[]| |[] my ey]; try contradiction; intros _ _;
    try exact I.
  cbn [SFdiv xorb].
  pose proof (div_core_nonneg mx ex my ey) as Hq.
  destruct (SFdiv_core_binary prec emax (Z.pos mx) ex (Z.pos my) ey)
    as [[mz ez] lz]. cbn [fst] in Hq.
  pose proof (round_aux_plus mz ez lz Hq) as H.
  destruct (binary_round_aux _ _ _ _ _ _) as [[]|[]| |[] m e];
    try contradiction; exact I.
Qed.

(** A positive finite float divided by a number with the sign bit clear
    is such a number. *)
Lemma SFdiv_finite_plus (m : positive) (e : Z) (y : spec_float) :
  plus_number y -> plus_number (SFdiv prec emax (S754_finite false m e) y).
Proof.
  destruct y as [[]|[]| |[] my ey]; try contradiction; intros _;
    try exact I.
  cbn [SFdiv xorb].
  pose proof (div_core_nonneg m e my ey) as Hq.
  destruct (SFdiv_core_binary prec emax (Z.pos m) e (Z.pos my) ey)
    as [[mz ez] lz]. cbn [fst] in Hq.
  exact (round_aux_plus mz ez lz Hq).
Qed.

(** The square root of a positive float or of the positive infinity. *)
Lemma SFsqrt_plus (x : spec_float) :
  match x with
  | S754_finite false _ _ | S754_infinity false => True
  | _ => False
  end ->
  plus_number (SFsqrt prec emax x).
Proof.
  destruct x as [[]|[]| |[] m e]; try contradiction; intros _; [exact I|].
  cbn [SFsqrt].
  assert (Hq : 0 <= fst (fst (SFsqrt_core_binary prec emax (Z.pos m) e))).
  { unfold SFsqrt_core_binary. cbv zeta.
    set (m' := match _ with 0 => _ | Z.pos _ => _ | Z.neg _ => _ end).
    pose proof (Z.sqrtrem_sqrt m') as Hs. pose proof (Z.sqrt_nonneg m').
    destruct (Z.sqrtrem m') as [q r]. cbn [fst] in *. lia. }
  destruct (SFsqrt_core_binary prec emax (Z.pos m) e) as [[mz ez] lz].
  cbn [fst] in Hq. exact (round_aux_plus mz ez lz Hq).
Qed.

(** [float(n)] for a count [n]. *)
Lemma of_nat_plus (n : nat) : plus_number (Prim2SF (Np.of_nat n)).
Proof.
  unfold Np.of_nat. rewrite of_uint63_spec.
  pose proof (Uint63.to_Z_bounded (Uint63.of_Z (Z.of_nat n))) as [H _].
  destruct (Uint63Axioms.to_Z (Uint63.of_Z (Z.of_nat n))) as [|p|p];
    [exact I|apply round_plus|lia].
Qed.

End PlusFacts.

Section ReturnedNumbers.

Open Scope float_scope.
Import Np NanFacts.

Local Abbreviation plus x := (plus_or_nan (Prim2SF x)).

Lemma square_plus (x : float) : plus (x ^ 2).
Proof.
  rewrite ExactFloat.square_eq, mul_spec. apply PlusFacts.SFsquare_plus.
Qed.

Lemma weight_plus (sigma : operand) (i : nat) : plus (w_ sigma i).
Proof.
  assert (H : forall x, plus (1 / x ^ 2)).
  { intros x. rewrite div_spec.
    apply PlusFacts.SFdiv_plus; [exact I|apply square_plus]. }
  unfold w_. destruct sigma; apply H.
Qed.

Lemma fold_plus (xs : list float) : forall acc,
  plus acc -> Forall (fun x => plus x) xs ->
  plus (fold_left PrimFloat.add xs acc).
Proof.
  induction xs as [|x xs IH]; intros acc Hacc Hall; [exact Hacc|].
  apply Forall_cons in Hall as [Hx Hxs]. cbn [fold_left].
  apply IH; [|exact Hxs]. rewrite add_spec.
  now apply PlusFacts.SFadd_plus.
Qed.

(** The weighted sum of squares has the sign bit clear, or is not a
    number. *)
Lemma normal_den_plus flux sigma model : plus (normal_den flux sigma model).
Proof.
  unfold normal_den, wsum, sum. apply fold_plus; [exact I|].
  apply Forall_map, Forall_forall. intros i _. rewrite mul_spec.
  apply PlusFacts.SFmul_plus; [apply weight_plus|apply square_plus].
Qed.

Lemma fold_nan (xs : list float) : forall acc,
  sf_nan acc -> sf_nan (fold_left PrimFloat.add xs acc).
Proof.
  induction xs as [|x xs IH]; intros acc Hacc; [exact Hacc|].
  cbn [fold_left]. apply IH. unfold sf_nan in *. now rewrite add_spec, Hacc.
Qed.

(** A sum whose first term is not a number is not a number. *)
Lemma wsum_nan (n : nat) (term : nat -> float) :
  (1 <= n)%nat -> sf_nan (term 0%nat) -> sf_nan (wsum n term).
Proof.
  intros Hn H0. destruct n as [|n]; [lia|].
  unfold wsum, sum. cbn [seq map fold_left]. apply fold_nan.
  unfold sf_nan in *. now rewrite add_spec, H0.
Qed.

(** Without an [s] there is no chi-square. *)
Lemma chisq_needs_s flux sigma model :
  (1 <= length flux)%nat ->
  sf_nan (s_hat flux sigma model) -> sf_nan (chisq_hat flux sigma model).
Proof.
  intros HN Hs. unfold chisq_hat, n_points. apply wsum_nan; [exact HN|].
  now apply mul_nan_r, square_nan, sub_nan_r, mul_nan_l.
Qed.

(** A positive curvature term needs a positive finite [b]. *)
Lemma curvature_needs_finite_b (c3 n u : float) :
  plus_number (Prim2SF n) ->
  (0 <? c3 / PrimFloat.sqrt u ^ 4 - n / PrimFloat.sqrt u ^ 2) = true ->
  exists m e, Prim2SF (PrimFloat.sqrt u) = S754_finite false m e.
Proof.
  intros Hn. pose proof (SignFacts.sqrt_sign u) as Hb.
  set (b := PrimFloat.sqrt u) in *.
  change (b ^ 4) with (1 * ((b * b) * (b * b))).
  rewrite ExactFloat.square_eq, ExactFloat.mul_one_l.
  rewrite ltb_spec, sub_spec, !div_spec, !mul_spec.
  change (Prim2SF 0) with (S754_zero false).
  destruct (Prim2SF b) as [sb|[]| |[] mb eb]; try contradiction;
    [| | |intros _; now exists mb, eb];
    destruct (Prim2SF n) as [[]|[]| |[] mn en]; try contradiction;
    destruct (Prim2SF c3) as [[]|[]| |[] mc ec];
    try (destruct sb); cbn; discriminate.
Qed.

Lemma not_nan_is_nan (x : float) : Prim2SF x <> S754_nan -> is_nan x = false.
Proof.
  intros H. unfold is_nan. rewrite FloatAxioms.eqb_spec. unfold SFeqb.
  now rewrite MinFacts.SFcompare_refl.
Qed.

Lemma plus_number_leb (x : float) :
  plus_number (Prim2SF x) -> (0 <=? x) = true.
Proof.
  rewrite leb_spec. change (Prim2SF 0) with (S754_zero false).
  now destruct (Prim2SF x) as [[]|[]| |[] m e].
Qed.

(** X14: the sentinel is all or nothing.  Where [scaled_transit_fit]
    returns a [b] that is a number, no entry of the result is
    not-a-number: [s] is a number, [b] is positive and finite, and both
    standard errors are numbers that are not negative. *)
Theorem scaled_transit_fit_returns_numbers
    (flux : list float) (sigma : operand) (model : list float)
    (s b sigma_s sigma_b : float) :
  shapes_agree flux sigma model ->
  scaled_transit_fit flux sigma model = Ok (s, b, sigma_s, sigma_b) ->
  is_nan b = false ->
  is_nan s = false /\ (0 <? b) = true /\ is_finite b = true /\
  (0 <=? sigma_s) = true /\ (0 <=? sigma_b) = true.
Proof.
  intros Hsh. rewrite (scaled_transit_fit_closed_form _ _ _ Hsh).
  destruct (n_points flux <? 3)%nat eqn:HN.
  { intros [= <- <- <- <-]. discriminate. }
  destruct (zero_weight_divisor sigma); [discriminate|].
  destruct (normal_den flux sigma model =? 0) eqn:Hden.
  { intros [= <- <- <- <-]. discriminate. }
  destruct (zero_b_divisor flux sigma model); [discriminate|].
  destruct (0 <? curvature flux sigma model) eqn:Hc.
  2:{ intros [= <- <- <- <-]. discriminate. }
  intros [= <- <- <- <-] _.
  apply Nat.ltb_ge in HN. unfold n_points in HN.
  (* b *)
  destruct (curvature_needs_finite_b (3 * chisq_hat flux sigma model)
              (of_nat (length flux))
              (chisq_hat flux sigma model / of_nat (length flux))
              (PlusFacts.of_nat_plus _) Hc) as (mb & eb & Eb).
  change (Prim2SF (b_hat flux sigma model) = S754_finite false mb eb) in Eb.
  (* s *)
  assert (Hs : Prim2SF (s_hat flux sigma model) <> S754_nan).
  { intros Hs.
    pose proof (chisq_needs_s flux sigma model ltac:(lia) Hs) as Hchi.
    rewrite (degenerate_chisq_curvature flux sigma model) in Hc;
      [discriminate|].
    now apply nan_zero_or_nan. }
  (* the sum of squares *)
  assert (Hdn : match Prim2SF (normal_den flux sigma model) with
                | S754_finite false _ _ | S754_infinity false => True
                | _ => False
                end).
  { pose proof (normal_den_plus flux sigma model) as Hp.
    rewrite FloatAxioms.eqb_spec in Hden.
    change (Prim2SF 0) with (S754_zero false) in Hden.
    destruct (Prim2SF (normal_den flux sigma model))
      as [[]|[]| |[] m e] eqn:E; try contradiction; try discriminate;
      try exact I.
    exfalso. apply Hs. unfold s_hat. now apply div_nan_r. }
  (* the curvature term *)
  assert (Hcv : match Prim2SF (curvature flux sigma model) with
                | S754_finite false _ _ | S754_infinity false => True
                | _ => False
                end).
  { rewrite ltb_spec in Hc. change (Prim2SF 0) with (S754_zero false) in Hc.
    now destruct (Prim2SF (curvature flux sigma model)) as [[]|[]| |[] m e]. }
  split; [now apply not_nan_is_nan|]. split; [|split; [|split]].
  - rewrite ltb_spec, Eb. reflexivity.
  - unfold is_finite. rewrite ltb_spec, abs_spec, Eb. reflexivity.
  - apply plus_number_leb. unfold sigma_s_hat.
    rewrite div_spec, Eb, sqrt_spec.
    apply PlusFacts.SFdiv_finite_plus, PlusFacts.SFsqrt_plus, Hdn.
  - apply plus_number_leb. unfold sigma_b_hat.
    rewrite div_spec, sqrt_spec. change (Prim2SF 1) with Sf.SF_one.
    apply PlusFacts.SFdiv_finite_plus, PlusFacts.SFsqrt_plus, Hcv.
Qed.

End ReturnedNumbers.

Section ReturnedNumbersExample.

Open Scope float_scope.

Lemma scaled_transit_fit_returns_numbers_witness :
  let flux := [1; 0.5; 0.25; 0.5; 1.25] in
  let sigma := Array [0.5; 0.5; 0.25; 0.5; 1] in
  let model := [1; 0.75; 0.5; 0.75; 1] in
  exists s b sigma_s sigma_b,
    (shapes_agree flux sigma model /\
     scaled_transit_fit flux sigma model = Ok (s, b, sigma_s, sigma_b) /\
     is_nan b = false) /\
    is_nan s = false /\ (0 <? b) = true /\ is_finite b = true /\
    (0 <=? sigma_s) = true /\ (0 <=? sigma_b) = true.
Proof.
  intros flux sigma model.
  assert (Hsh : shapes_agree flux sigma model) by (split; reflexivity).
  exists (s_hat flux sigma model), (b_hat flux sigma model),
    (sigma_s_hat flux sigma model), (sigma_b_hat flux sigma model).
  assert (Hr : scaled_transit_fit flux sigma model
               = Ok (s_hat flux sigma model, b_hat flux sigma model,
                     sigma_s_hat flux sigma model, sigma_b_hat flux sigma model))
    by (vm_compute; reflexivity).
  assert (Hb : is_nan (b_hat flux sigma model) = false) by reflexivity.
  split; [tauto|].
  exact (scaled_transit_fit_returns_numbers flux sigma model _ _ _ _
           Hsh Hr Hb).
Defined.

End ReturnedNumbersExample.
